(** * retsnoop mass attacher: glob filter, ABI check, attach plan and program cloning

    A shallow embedding of [src/mass_attacher.c].  The C code is followed
    function by function; every definition names the C function or the lines
    it embeds.

    Conventions of the embedding
    - A [char *] is a buffer [cbuf]: the bytes in memory before the
      terminating NUL that the allocation always carries.  A buffer may hold
      NUL bytes of its own, in which case the C string it denotes ([cstr]) stops
      at the first of them; [glob_matches] writes such a byte.
    - [int] values are [Z].  The conversion [int n = strlen(...)] is written
      with its 32-bit wrap-around ([to_int]); where an [int] meets a [size_t]
      it is converted with [to_size].  Counters that are only incremented
      ([matches], [func_skip], the bucket counts) are unbounded: their overflow
      is undefined in C.
    - Type ids and argument counts, which are unsigned in the type database,
      are [nat].
    - Array-plus-count pairs ([deny_globs]/[deny_glob_cnt], [func_infos]/
      [func_cnt], ...) are lists; the count is the length.  The arrays indexed
      by argument count are lists of length 12.
    - A pointer that may be null is an [option].
    - Code that may dereference a null pointer, or loop without a bound,
      returns a [run]: a result, [Crash] or [Timeout] (the fuel is used up).
    - [calloc], [realloc] and [strdup] ask an oracle ([heap]).
    - The kernel, libbpf and the files read by [prepare] are an explicit
      environment ([host], [kernel]). *)

From stdpp Require Import base numbers list strings sorting.
From Stdlib Require Import ZArith Ascii Lia.

Local Open Scope Z_scope.

(** ** C strings and the libc functions the attacher calls *)

Module CStr.

Abbreviation cbuf := (list ascii).

Definition NUL : ascii := Ascii.zero.
Definition STAR : ascii := "*"%char.

(** A string literal as a buffer. *)
Definition lit (s : string) : cbuf := String.list_ascii_of_string s.
Arguments lit s%_string.

(** [b[i]].  Index [length b] is the terminator.  Reads outside the
    allocation are undefined in C; the model returns NUL there. *)
Definition char_at (b : cbuf) (i : Z) : ascii :=
  if i <? 0 then NUL else default NUL (b !! Z.to_nat i).

(** [b[i] = c]. *)
Definition store (b : cbuf) (i : Z) (c : ascii) : cbuf :=
  if i <? 0 then b else <[Z.to_nat i := c]> b.

(** The C string a buffer denotes: its bytes up to the first NUL. *)
Fixpoint cstr (b : cbuf) : list ascii :=
  match b with
  | [] => []
  | c :: b' => if Ascii.eqb c NUL then [] else c :: cstr b'
  end.

Definition strlen (b : cbuf) : nat := length (cstr b).

Definition code (c : ascii) : Z := Z.of_N (N_of_ascii c).

(** Lexicographic comparison of two NUL-free byte strings as unsigned
    chars; the end of a string compares as the NUL byte. *)
Fixpoint bytes_cmp (a b : list ascii) : Z :=
  match a, b with
  | [], [] => 0
  | [], y :: _ => 0 - code y
  | x :: _, [] => code x
  | x :: a', y :: b' =>
      if code x =? code y then bytes_cmp a' b' else code x - code y
  end.

Definition strcmp (a b : cbuf) : Z := bytes_cmp (cstr a) (cstr b).

Definition strncmp (a b : cbuf) (n : nat) : Z :=
  bytes_cmp (take n (cstr a)) (take n (cstr b)).

Fixpoint is_prefix (key s : list ascii) : bool :=
  match key, s with
  | [], _ => true
  | _ :: _, [] => false
  | k :: key', c :: s' => Ascii.eqb k c && is_prefix key' s'
  end.

Fixpoint find_sub (key s : list ascii) : option nat :=
  if is_prefix key s then Some 0%nat
  else match s with
       | [] => None
       | _ :: s' => S <$> find_sub key s'
       end.

(** [strstr(hay, needle)]: offset of the first occurrence, [None] for
    a null result. *)
Definition strstr (hay needle : cbuf) : option nat :=
  find_sub (cstr needle) (cstr hay).

Definition INT_MAX : Z := 2147483647.

(** Conversion of a [size_t] to [int]. *)
Definition to_int (z : Z) : Z := (z + 2 ^ 31) mod 2 ^ 32 - 2 ^ 31.

(** Conversion of an [int] to [size_t]. *)
Definition to_size (z : Z) : Z := z mod 2 ^ 64.

End CStr.

(** ** Glob engine *)

Module Glob.
Import CStr.

(** The [for] loop of [is_valid_glob], from index [i] for [steps]
    iterations: [false] when it hits an interior star. *)
Fixpoint star_scan (glob : cbuf) (n i : Z) (steps : nat) : bool :=
  match steps with
  | O => true
  | S k =>
      if Ascii.eqb (char_at glob i) STAR && negb (i =? 0) && negb (i =? n - 1)
      then false
      else star_scan glob n (i + 1) k
  end.

(** [is_valid_glob]; [None] is the null pointer. *)
Definition is_valid_glob (glob : option cbuf) : bool :=
  match glob with
  | None => false
  | Some g =>
      let n := to_int (Z.of_nat (strlen g)) in
      if n =? 0 then false
      else if negb (star_scan g n 0 (Z.to_nat n)) then false
      else if strcmp g (lit "**") =? 0 then false
      else true
  end.

(** The pattern buffer after [((char * )glob)[n - 1] = 0]. *)
Definition glob_key (glob : cbuf) (n : Z) : cbuf := store glob (n - 1) NUL.

(** [glob_matches]: the result, and the pattern and subject buffers as
    the call leaves them. *)
Definition glob_matches (glob s : cbuf) : bool * (cbuf * cbuf) :=
  let n := to_int (Z.of_nat (strlen glob)) in
  if (n =? 1) && Ascii.eqb (char_at glob 0) STAR then (true, (glob, s))
  else if Ascii.eqb (char_at glob 0) STAR && Ascii.eqb (char_at glob (n - 1)) STAR then
    let glob1 := glob_key glob n in
    let subs := strstr s (drop 1 glob1) in
    let glob2 := store glob1 (n - 1) STAR in
    (bool_decide (subs ≠ None), (glob2, s))
  else if Ascii.eqb (char_at glob 0) STAR then
    let nn := Z.of_nat (strlen s) in
    if nn <? to_size (n - 1) then (false, (glob, s))
    else (strcmp (drop (Z.to_nat (nn - (n - 1))) s) (drop 1 glob) =? 0, (glob, s))
  else if Ascii.eqb (char_at glob (n - 1)) STAR then
    (strncmp s glob (Z.to_nat (to_size (n - 1))) =? 0, (glob, s))
  else
    (strcmp glob s =? 0, (glob, s)).

Definition glob_accepts (glob s : cbuf) : bool := fst (glob_matches glob s).

(** [s] contains [key] as a substring; [inner g] is [g[1..n-1]]. *)
Definition infix_of (key s : list ascii) : Prop :=
  ∃ pre post, s = pre ++ key ++ post.

Definition inner (g : list ascii) : list ascii :=
  take (length g - 2) (drop 1 g).

(** Validity in the words of the specification. *)
Definition spec_valid (g : list ascii) : Prop :=
  g ≠ [] ∧
  (∀ i : nat, g !! i = Some STAR → i = 0%nat ∨ i = (length g - 1)%nat) ∧
  g ≠ [STAR; STAR].

End Glob.


(** ** Results of code that may fault or loop *)

Module Run.

(** [Crash]: the C code dereferences a null pointer or indexes outside an
    array.  [Timeout]: a loop without a bound is still running when the fuel
    of the model is used up. *)
Inductive run (A : Type) : Type :=
| Ret (a : A)
| Crash
| Timeout.

Arguments Ret {A} a.
Arguments Crash {A}.
Arguments Timeout {A}.

#[global] Instance run_ret : MRet run := λ A a, Ret a.

#[global] Instance run_bind : MBind run := λ A B f m,
  match m with
  | Ret a => f a
  | Crash => Crash
  | Timeout => Timeout
  end.

(** The allocator: each call of [calloc], [malloc], [realloc] or [strdup]
    takes the next answer of the oracle; an exhausted oracle answers yes. *)
Abbreviation heap := (list bool).

Definition alloc (h : heap) : bool * heap :=
  match h with
  | [] => (true, [])
  | ok :: h' => (ok, h')
  end.

Definition EINVAL : Z := 22.
Definition ENOMEM : Z := 12.
Definition ENOENT : Z := 2.

End Run.

(** ** Kernel symbol index *)

Module Ksyms.
Import CStr.

Record ksym := { addr : Z; name : cbuf }.

(** Modelled from the spec: [ksyms__get_symbol] of ksyms.c, which is not
    part of src: "Snapshot of name→address from the running kernel, queryable
    by name", [get(name) → opt SymbolRecord]. *)
Definition ksyms__get_symbol (ksyms : list ksym) (func_name : cbuf) : option ksym :=
  List.find (λ k, strcmp (name k) func_name =? 0) ksyms.

End Ksyms.

(** ** Type database *)

Module Btf.
Import CStr Run.

Inductive btf_kind :=
| BTF_KIND_UNKN | BTF_KIND_INT | BTF_KIND_PTR | BTF_KIND_ARRAY
| BTF_KIND_STRUCT | BTF_KIND_UNION | BTF_KIND_ENUM | BTF_KIND_FWD
| BTF_KIND_TYPEDEF | BTF_KIND_VOLATILE | BTF_KIND_CONST | BTF_KIND_RESTRICT
| BTF_KIND_FUNC | BTF_KIND_FUNC_PROTO | BTF_KIND_VAR | BTF_KIND_DATASEC
| BTF_KIND_FLOAT.

#[global] Instance btf_kind_eq_dec : EqDecision btf_kind.
Proof. solve_decision. Defined.

(** Modelled from the spec: the type database view of libbpf's btf.h, which
    is not part of src.  A type has its name, its kind, the id [type] it refers
    to (0 is void) and, for a function prototype, its parameters; [btf_vlen]
    of a prototype is their number.  Ids count from 1; id 0 is void and an id
    past the last type has no entry (a null pointer). *)
Record btf_param := { param_type : nat }.

Record btf_type := {
  name : cbuf;
  kind : btf_kind;
  type : nat;
  params : list btf_param
}.

Abbreviation btf := (list btf_type).

Definition btf_void : btf_type :=
  {| name := []; kind := BTF_KIND_UNKN; type := 0; params := [] |}.

Definition btf__get_nr_types (b : btf) : nat := length b.

Definition btf__type_by_id (b : btf) (id : nat) : option btf_type :=
  match id with
  | O => Some btf_void
  | S k => b !! k
  end.

Definition btf_vlen (t : btf_type) : nat := length (params t).

Definition btf_is_kind (k : btf_kind) (t : btf_type) : bool := bool_decide (kind t = k).

Definition btf_is_int := btf_is_kind BTF_KIND_INT.
Definition btf_is_ptr := btf_is_kind BTF_KIND_PTR.
Definition btf_is_enum := btf_is_kind BTF_KIND_ENUM.
Definition btf_is_typedef := btf_is_kind BTF_KIND_TYPEDEF.
Definition btf_is_func := btf_is_kind BTF_KIND_FUNC.

Definition btf_is_mod (t : btf_type) : bool :=
  btf_is_kind BTF_KIND_VOLATILE t || btf_is_kind BTF_KIND_CONST t
  || btf_is_kind BTF_KIND_RESTRICT t.

Definition btf_is_composite (t : btf_type) : bool :=
  btf_is_kind BTF_KIND_STRUCT t || btf_is_kind BTF_KIND_UNION t.

Definition MAX_FUNC_ARG_CNT : nat := 11.

(** The loop [while (btf_is_mod(t) || btf_is_typedef(t)) t =
    btf__type_by_id(btf, t->type);] that opens [is_arg_type_ok] and
    [is_ret_type_ok].  The C loop has no bound of its own: [fuel] is the number
    of iterations the model follows. *)
Fixpoint skip_mods (fuel : nat) (b : btf) (t : option btf_type) : run btf_type :=
  match t with
  | None => Crash
  | Some t =>
      if btf_is_mod t || btf_is_typedef t then
        match fuel with
        | O => Timeout
        | S fuel' => skip_mods fuel' b (btf__type_by_id b (type t))
        end
      else Ret t
  end.

Definition is_arg_type_ok (fuel : nat) (b : btf) (t : option btf_type) : run bool :=
  t ← skip_mods fuel b t;
  if negb (btf_is_int t) && negb (btf_is_ptr t) && negb (btf_is_enum t)
  then mret false
  else mret true.

Definition is_ret_type_ok (fuel : nat) (b : btf) (t : option btf_type) : run bool :=
  t ← skip_mods fuel b t;
  if btf_is_int t || btf_is_enum t then mret true
  else if negb (btf_is_ptr t) then mret false
  else if bool_decide (type t = 0%nat) then mret true
  else match btf__type_by_id b (type t) with
       | None => Crash
       | Some t => if negb (btf_is_composite t) then mret false else mret true
       end.

(** The parameter loop of [is_func_type_ok]. *)
Fixpoint params_ok (fuel : nat) (b : btf) (ps : list btf_param) : run bool :=
  match ps with
  | [] => mret true
  | p :: ps' =>
      if bool_decide (param_type p = 0%nat) then mret false
      else
        ok ← is_arg_type_ok fuel b (btf__type_by_id b (param_type p));
        if negb ok then mret false else params_ok fuel b ps'
  end.

Definition is_func_type_ok (fuel : nat) (b : btf) (t : btf_type) : run bool :=
  match btf__type_by_id b (type t) with
  | None => Crash
  | Some t =>
      if bool_decide (MAX_FUNC_ARG_CNT < btf_vlen t)%nat then mret false
      else if bool_decide (type t = 0%nat) then mret false
      else
        bad ← (if bool_decide (type t = 0%nat) then mret false
               else ok ← is_ret_type_ok fuel b (btf__type_by_id b (type t));
                    mret (negb ok));
        if bad : bool then mret false
        else params_ok fuel b (params t)
  end.

Definition func_arg_cnt (b : btf) (id : nat) : run nat :=
  match btf__type_by_id b id with
  | None => Crash
  | Some t =>
      match btf__type_by_id b (type t) with
      | None => Crash
      | Some t => mret (btf_vlen t)
      end
  end.

(** The modifier/typedef chain of [t] ends at [u] after [d] steps. *)
Inductive strips_to (b : btf) : btf_type → nat → btf_type → Prop :=
| strips_here t :
    btf_is_mod t || btf_is_typedef t = false → strips_to b t 0 t
| strips_step t t' d u :
    btf_is_mod t || btf_is_typedef t = true →
    btf__type_by_id b (type t) = Some t' →
    strips_to b t' d u →
    strips_to b t (S d) u.

(** The acceptance rule [is_ret_type_ok] applies to the type its loop
    ends at: an integer, an enum, or a pointer whose target, taken as declared,
    is void (id 0) or a struct or union. *)
Definition code_ret_ok (b : btf) (u : btf_type) : Prop :=
  kind u = BTF_KIND_INT ∨ kind u = BTF_KIND_ENUM ∨
  (kind u = BTF_KIND_PTR ∧
   (type u = 0%nat ∨
    ∃ pointee, btf__type_by_id b (type u) = Some pointee ∧
               (kind pointee = BTF_KIND_STRUCT ∨ kind pointee = BTF_KIND_UNION))).

(** The rule for a parameter type at the end of its chain, in the
    specification as in [is_arg_type_ok]: "integer, pointer, or enum". *)
Definition spec_arg_ok (u : btf_type) : Prop :=
  kind u = BTF_KIND_INT ∨ kind u = BTF_KIND_PTR ∨ kind u = BTF_KIND_ENUM.

(** The conditions of [is_func_type_ok], read off the code. *)
Definition code_func_type_ok (b : btf) (proto : btf_type) : Prop :=
  (length (params proto) ≤ 11)%nat ∧
  type proto ≠ 0%nat ∧
  (∃ rt d u, btf__type_by_id b (type proto) = Some rt ∧ strips_to b rt d u ∧ code_ret_ok b u) ∧
  Forall (λ p, param_type p ≠ 0%nat ∧
               ∃ pt d u, btf__type_by_id b (param_type p) = Some pt ∧
                         strips_to b pt d u ∧ spec_arg_ok u)
         (params proto).

(** The acceptance rule in the words of the specification.  "Return type,
    after stripping modifiers/typedefs, is integer, enum, pointer to void, or
    pointer to composite (struct/union)", where "type resolution follows
    modifier/typedef chains to the underlying type when classifying as integer /
    pointer / enum / composite / void": the target of a pointer is classified at
    the end of its own chain. *)
Definition spec_pointee_ok (b : btf) (id : nat) : Prop :=
  ∃ p d v, btf__type_by_id b id = Some p ∧ strips_to b p d v ∧
           (v = btf_void ∨ kind v = BTF_KIND_STRUCT ∨ kind v = BTF_KIND_UNION).

Definition spec_ret_ok (b : btf) (u : btf_type) : Prop :=
  kind u = BTF_KIND_INT ∨ kind u = BTF_KIND_ENUM ∨
  (kind u = BTF_KIND_PTR ∧ spec_pointee_ok b (type u)).

Definition spec_func_type_ok (b : btf) (proto : btf_type) : Prop :=
  (length (params proto) ≤ 11)%nat ∧
  type proto ≠ 0%nat ∧
  (∃ rt d u, btf__type_by_id b (type proto) = Some rt ∧ strips_to b rt d u ∧ spec_ret_ok b u) ∧
  Forall (λ p, param_type p ≠ 0%nat ∧
               ∃ pt d u, btf__type_by_id b (param_type p) = Some pt ∧
                         strips_to b pt d u ∧ spec_arg_ok u)
         (params proto).

(** Every type the check may follow from [proto] is in the database and
    every modifier/typedef chain it may strip ends there: the return type, the
    target of a returned pointer, the parameter types. *)
Definition resolves (b : btf) (proto : btf_type) : Prop :=
  (∃ rt d u, btf__type_by_id b (type proto) = Some rt ∧ strips_to b rt d u ∧
             (kind u = BTF_KIND_PTR → is_Some (btf__type_by_id b (type u)))) ∧
  Forall (λ p, ∃ pt d u, btf__type_by_id b (param_type p) = Some pt ∧ strips_to b pt d u)
         (params proto).

End Btf.

(** ** The attacher *)

Module Opts.
Import CStr.

(** [func_filter_fn].  The callback also receives the attacher itself,
    which the model leaves out: the type database, the type id, the name and
    the number of entries accepted so far remain. *)
Definition func_filter_fn : Type := Btf.btf → nat → cbuf → Z → bool.

(** [struct mass_attacher_opts]. *)
Record mass_attacher_opts := {
  max_func_cnt : Z;
  max_fileno_rlimit : Z;
  verbose : bool;
  debug : bool;
  debug_extra : bool;
  func_filter : option func_filter_fn
}.

End Opts.

Module LoadAttr.
Import CStr.

(** The fields of [struct bpf_load_program_attr] that [clone_prog] sets;
    [memset] zeroes the others.  [insns] is a pointer: [None] is null. *)
Record t := {
  prog_type : Z;
  expected_attach_type : Z;
  name : cbuf;
  insns : option (list Z);
  insns_cnt : Z;
  license : cbuf;
  attach_btf_id : nat
}.

End LoadAttr.

Module Attacher.
Import CStr Glob Run.

Abbreviation bpf_insn := Z.

(** A [struct bpf_program *] into the skeleton: [fentry k] is
    [skel->progs.fentryK], [fexit k] is [skel->progs.fexitK]. *)
Inductive prog_ptr :=
| fentry (k : nat)
| fexit (k : nat).

#[global] Instance prog_ptr_eq_dec : EqDecision prog_ptr.
Proof. solve_decision. Defined.

(** Modelled from the spec: the template asset (the generated skeleton and
    libbpf's [struct bpf_program] are not part of src): "for each k ∈ 0..=11,
    one entry program fentryK and one exit program fexitK; a shared-memory
    region with a boolean ready; and a map named ip_to_id".  A program carries
    what the attacher reads ([prog_name], [prog_type], [expected_attach_type])
    and what it sets (the attach target, the prep hook, autoload). *)
Record bpf_program := {
  prog_name : cbuf;
  prog_type : Z;
  expected_attach_type : Z;
  attach_target : option cbuf;
  prep : bool;
  autoload : bool
}.

Record skeleton := {
  fentry_progs : list bpf_program;
  fexit_progs : list bpf_program;
  ready : bool;
  ip_to_id_max_entries : Z;
  ip_to_id : list (Z * Z)
}.

Definition prog_at (sk : skeleton) (p : prog_ptr) : option bpf_program :=
  match p with
  | fentry k => fentry_progs sk !! k
  | fexit k => fexit_progs sk !! k
  end.

Definition prog_update (f : bpf_program → bpf_program) (p : prog_ptr) (sk : skeleton) : skeleton :=
  match p with
  | fentry k =>
      {| fentry_progs := alter f k (fentry_progs sk); fexit_progs := fexit_progs sk;
         ready := ready sk; ip_to_id_max_entries := ip_to_id_max_entries sk;
         ip_to_id := ip_to_id sk |}
  | fexit k =>
      {| fentry_progs := fentry_progs sk; fexit_progs := alter f k (fexit_progs sk);
         ready := ready sk; ip_to_id_max_entries := ip_to_id_max_entries sk;
         ip_to_id := ip_to_id sk |}
  end.

Definition bpf_program__set_attach_target (target : cbuf) (p : bpf_program) : bpf_program :=
  {| prog_name := prog_name p; prog_type := prog_type p;
     expected_attach_type := expected_attach_type p;
     attach_target := Some target; prep := prep p; autoload := autoload p |}.

Definition bpf_program__set_prep (p : bpf_program) : bpf_program :=
  {| prog_name := prog_name p; prog_type := prog_type p;
     expected_attach_type := expected_attach_type p;
     attach_target := attach_target p; prep := true; autoload := autoload p |}.

Definition bpf_program__set_autoload (v : bool) (p : bpf_program) : bpf_program :=
  {| prog_name := prog_name p; prog_type := prog_type p;
     expected_attach_type := expected_attach_type p;
     attach_target := attach_target p; prep := prep p; autoload := v |}.

Definition bpf_map__set_max_entries (n : Z) (sk : skeleton) : skeleton :=
  {| fentry_progs := fentry_progs sk; fexit_progs := fexit_progs sk;
     ready := ready sk; ip_to_id_max_entries := n; ip_to_id := ip_to_id sk |}.

Definition map_put (key value : Z) (sk : skeleton) : skeleton :=
  {| fentry_progs := fentry_progs sk; fexit_progs := fexit_progs sk;
     ready := ready sk; ip_to_id_max_entries := ip_to_id_max_entries sk;
     ip_to_id := ip_to_id sk ++ [(key, value)] |}.

(** A filter rule: the anonymous struct of [allow_globs] and [deny_globs]. *)
Record glob_rule := { glob : cbuf; matches : Z }.

(** [struct mass_attacher_func_info] (mass_attacher.h, not part of src):
    the fields the attacher uses. *)
Record mass_attacher_func_info := {
  name : cbuf;
  addr : Z;
  arg_cnt : nat;
  btf_id : nat;
  fentry_prog_fd : Z;
  fexit_prog_fd : Z
}.

Abbreviation func_filter_fn := Opts.func_filter_fn.

(** [struct mass_attacher].  The instruction counts [fentries_insn_cnts]
    and [fexits_insn_cnts] are the lengths of the captured buffers, and
    [func_cnt], [kprobe_cnt], [allow_glob_cnt], [deny_glob_cnt] the lengths of
    their arrays. *)
Record mass_attacher := {
  ksyms : option (list Ksyms.ksym);
  vmlinux_btf : option Btf.btf;
  skel : skeleton;
  fentries : list (option prog_ptr);
  fexits : list (option prog_ptr);
  fentries_insns : list (option (list bpf_insn));
  fexits_insns : list (option (list bpf_insn));
  verbose : bool;
  debug : bool;
  debug_extra : bool;
  max_func_cnt : Z;
  max_fileno_rlimit : Z;
  func_filter : option func_filter_fn;
  func_infos : list mass_attacher_func_info;
  func_info_cnts : list Z;
  func_info_id_for_arg_cnt : list Z;
  kprobes : list (option cbuf);
  allow_globs : list glob_rule;
  deny_globs : list glob_rule
}.

Definition func_cnt (att : mass_attacher) : Z := Z.of_nat (length (func_infos att)).
Definition allow_glob_cnt (att : mass_attacher) : Z := Z.of_nat (length (allow_globs att)).
Definition deny_glob_cnt (att : mass_attacher) : Z := Z.of_nat (length (deny_globs att)).

Definition set_ksyms (att : mass_attacher) (v : option (list Ksyms.ksym)) : mass_attacher :=
  {| ksyms := v;
     vmlinux_btf := vmlinux_btf att;
     skel := skel att;
     fentries := fentries att;
     fexits := fexits att;
     fentries_insns := fentries_insns att;
     fexits_insns := fexits_insns att;
     verbose := verbose att;
     debug := debug att;
     debug_extra := debug_extra att;
     max_func_cnt := max_func_cnt att;
     max_fileno_rlimit := max_fileno_rlimit att;
     func_filter := func_filter att;
     func_infos := func_infos att;
     func_info_cnts := func_info_cnts att;
     func_info_id_for_arg_cnt := func_info_id_for_arg_cnt att;
     kprobes := kprobes att;
     allow_globs := allow_globs att;
     deny_globs := deny_globs att |}.

Definition set_vmlinux_btf (att : mass_attacher) (v : option Btf.btf) : mass_attacher :=
  {| ksyms := ksyms att;
     vmlinux_btf := v;
     skel := skel att;
     fentries := fentries att;
     fexits := fexits att;
     fentries_insns := fentries_insns att;
     fexits_insns := fexits_insns att;
     verbose := verbose att;
     debug := debug att;
     debug_extra := debug_extra att;
     max_func_cnt := max_func_cnt att;
     max_fileno_rlimit := max_fileno_rlimit att;
     func_filter := func_filter att;
     func_infos := func_infos att;
     func_info_cnts := func_info_cnts att;
     func_info_id_for_arg_cnt := func_info_id_for_arg_cnt att;
     kprobes := kprobes att;
     allow_globs := allow_globs att;
     deny_globs := deny_globs att |}.

Definition set_skel (att : mass_attacher) (v : skeleton) : mass_attacher :=
  {| ksyms := ksyms att;
     vmlinux_btf := vmlinux_btf att;
     skel := v;
     fentries := fentries att;
     fexits := fexits att;
     fentries_insns := fentries_insns att;
     fexits_insns := fexits_insns att;
     verbose := verbose att;
     debug := debug att;
     debug_extra := debug_extra att;
     max_func_cnt := max_func_cnt att;
     max_fileno_rlimit := max_fileno_rlimit att;
     func_filter := func_filter att;
     func_infos := func_infos att;
     func_info_cnts := func_info_cnts att;
     func_info_id_for_arg_cnt := func_info_id_for_arg_cnt att;
     kprobes := kprobes att;
     allow_globs := allow_globs att;
     deny_globs := deny_globs att |}.

Definition set_fentries (att : mass_attacher) (v : list (option prog_ptr)) : mass_attacher :=
  {| ksyms := ksyms att;
     vmlinux_btf := vmlinux_btf att;
     skel := skel att;
     fentries := v;
     fexits := fexits att;
     fentries_insns := fentries_insns att;
     fexits_insns := fexits_insns att;
     verbose := verbose att;
     debug := debug att;
     debug_extra := debug_extra att;
     max_func_cnt := max_func_cnt att;
     max_fileno_rlimit := max_fileno_rlimit att;
     func_filter := func_filter att;
     func_infos := func_infos att;
     func_info_cnts := func_info_cnts att;
     func_info_id_for_arg_cnt := func_info_id_for_arg_cnt att;
     kprobes := kprobes att;
     allow_globs := allow_globs att;
     deny_globs := deny_globs att |}.

Definition set_fexits (att : mass_attacher) (v : list (option prog_ptr)) : mass_attacher :=
  {| ksyms := ksyms att;
     vmlinux_btf := vmlinux_btf att;
     skel := skel att;
     fentries := fentries att;
     fexits := v;
     fentries_insns := fentries_insns att;
     fexits_insns := fexits_insns att;
     verbose := verbose att;
     debug := debug att;
     debug_extra := debug_extra att;
     max_func_cnt := max_func_cnt att;
     max_fileno_rlimit := max_fileno_rlimit att;
     func_filter := func_filter att;
     func_infos := func_infos att;
     func_info_cnts := func_info_cnts att;
     func_info_id_for_arg_cnt := func_info_id_for_arg_cnt att;
     kprobes := kprobes att;
     allow_globs := allow_globs att;
     deny_globs := deny_globs att |}.

Definition set_fentries_insns (att : mass_attacher) (v : list (option (list bpf_insn))) : mass_attacher :=
  {| ksyms := ksyms att;
     vmlinux_btf := vmlinux_btf att;
     skel := skel att;
     fentries := fentries att;
     fexits := fexits att;
     fentries_insns := v;
     fexits_insns := fexits_insns att;
     verbose := verbose att;
     debug := debug att;
     debug_extra := debug_extra att;
     max_func_cnt := max_func_cnt att;
     max_fileno_rlimit := max_fileno_rlimit att;
     func_filter := func_filter att;
     func_infos := func_infos att;
     func_info_cnts := func_info_cnts att;
     func_info_id_for_arg_cnt := func_info_id_for_arg_cnt att;
     kprobes := kprobes att;
     allow_globs := allow_globs att;
     deny_globs := deny_globs att |}.

Definition set_fexits_insns (att : mass_attacher) (v : list (option (list bpf_insn))) : mass_attacher :=
  {| ksyms := ksyms att;
     vmlinux_btf := vmlinux_btf att;
     skel := skel att;
     fentries := fentries att;
     fexits := fexits att;
     fentries_insns := fentries_insns att;
     fexits_insns := v;
     verbose := verbose att;
     debug := debug att;
     debug_extra := debug_extra att;
     max_func_cnt := max_func_cnt att;
     max_fileno_rlimit := max_fileno_rlimit att;
     func_filter := func_filter att;
     func_infos := func_infos att;
     func_info_cnts := func_info_cnts att;
     func_info_id_for_arg_cnt := func_info_id_for_arg_cnt att;
     kprobes := kprobes att;
     allow_globs := allow_globs att;
     deny_globs := deny_globs att |}.

Definition set_func_infos (att : mass_attacher) (v : list mass_attacher_func_info) : mass_attacher :=
  {| ksyms := ksyms att;
     vmlinux_btf := vmlinux_btf att;
     skel := skel att;
     fentries := fentries att;
     fexits := fexits att;
     fentries_insns := fentries_insns att;
     fexits_insns := fexits_insns att;
     verbose := verbose att;
     debug := debug att;
     debug_extra := debug_extra att;
     max_func_cnt := max_func_cnt att;
     max_fileno_rlimit := max_fileno_rlimit att;
     func_filter := func_filter att;
     func_infos := v;
     func_info_cnts := func_info_cnts att;
     func_info_id_for_arg_cnt := func_info_id_for_arg_cnt att;
     kprobes := kprobes att;
     allow_globs := allow_globs att;
     deny_globs := deny_globs att |}.

Definition set_func_info_cnts (att : mass_attacher) (v : list Z) : mass_attacher :=
  {| ksyms := ksyms att;
     vmlinux_btf := vmlinux_btf att;
     skel := skel att;
     fentries := fentries att;
     fexits := fexits att;
     fentries_insns := fentries_insns att;
     fexits_insns := fexits_insns att;
     verbose := verbose att;
     debug := debug att;
     debug_extra := debug_extra att;
     max_func_cnt := max_func_cnt att;
     max_fileno_rlimit := max_fileno_rlimit att;
     func_filter := func_filter att;
     func_infos := func_infos att;
     func_info_cnts := v;
     func_info_id_for_arg_cnt := func_info_id_for_arg_cnt att;
     kprobes := kprobes att;
     allow_globs := allow_globs att;
     deny_globs := deny_globs att |}.

Definition set_func_info_id_for_arg_cnt (att : mass_attacher) (v : list Z) : mass_attacher :=
  {| ksyms := ksyms att;
     vmlinux_btf := vmlinux_btf att;
     skel := skel att;
     fentries := fentries att;
     fexits := fexits att;
     fentries_insns := fentries_insns att;
     fexits_insns := fexits_insns att;
     verbose := verbose att;
     debug := debug att;
     debug_extra := debug_extra att;
     max_func_cnt := max_func_cnt att;
     max_fileno_rlimit := max_fileno_rlimit att;
     func_filter := func_filter att;
     func_infos := func_infos att;
     func_info_cnts := func_info_cnts att;
     func_info_id_for_arg_cnt := v;
     kprobes := kprobes att;
     allow_globs := allow_globs att;
     deny_globs := deny_globs att |}.

Definition set_kprobes (att : mass_attacher) (v : list (option cbuf)) : mass_attacher :=
  {| ksyms := ksyms att;
     vmlinux_btf := vmlinux_btf att;
     skel := skel att;
     fentries := fentries att;
     fexits := fexits att;
     fentries_insns := fentries_insns att;
     fexits_insns := fexits_insns att;
     verbose := verbose att;
     debug := debug att;
     debug_extra := debug_extra att;
     max_func_cnt := max_func_cnt att;
     max_fileno_rlimit := max_fileno_rlimit att;
     func_filter := func_filter att;
     func_infos := func_infos att;
     func_info_cnts := func_info_cnts att;
     func_info_id_for_arg_cnt := func_info_id_for_arg_cnt att;
     kprobes := v;
     allow_globs := allow_globs att;
     deny_globs := deny_globs att |}.

Definition set_allow_globs (att : mass_attacher) (v : list glob_rule) : mass_attacher :=
  {| ksyms := ksyms att;
     vmlinux_btf := vmlinux_btf att;
     skel := skel att;
     fentries := fentries att;
     fexits := fexits att;
     fentries_insns := fentries_insns att;
     fexits_insns := fexits_insns att;
     verbose := verbose att;
     debug := debug att;
     debug_extra := debug_extra att;
     max_func_cnt := max_func_cnt att;
     max_fileno_rlimit := max_fileno_rlimit att;
     func_filter := func_filter att;
     func_infos := func_infos att;
     func_info_cnts := func_info_cnts att;
     func_info_id_for_arg_cnt := func_info_id_for_arg_cnt att;
     kprobes := kprobes att;
     allow_globs := v;
     deny_globs := deny_globs att |}.

Definition set_deny_globs (att : mass_attacher) (v : list glob_rule) : mass_attacher :=
  {| ksyms := ksyms att;
     vmlinux_btf := vmlinux_btf att;
     skel := skel att;
     fentries := fentries att;
     fexits := fexits att;
     fentries_insns := fentries_insns att;
     fexits_insns := fexits_insns att;
     verbose := verbose att;
     debug := debug att;
     debug_extra := debug_extra att;
     max_func_cnt := max_func_cnt att;
     max_fileno_rlimit := max_fileno_rlimit att;
     func_filter := func_filter att;
     func_infos := func_infos att;
     func_info_cnts := func_info_cnts att;
     func_info_id_for_arg_cnt := func_info_id_for_arg_cnt att;
     kprobes := kprobes att;
     allow_globs := allow_globs att;
     deny_globs := v |}.

Definition enforced_deny_globs : list cbuf :=
  [ lit "bpf_get_smp_processor_id";
    lit "migrate_enable";
    lit "migrate_disable";
    lit "rcu_read_lock*";
    lit "rcu_read_unlock*";
    lit "__bpf_prog_enter*";
    lit "__bpf_prog_exit*";
    lit "*_sys_select";
    lit "*_sys_epoll_wait";
    lit "*_sys_ppoll" ].

(** What [calloc] returns, with [att->skel = skel]. *)
Definition calloc_attacher (sk : skeleton) : mass_attacher :=
  {| ksyms := None; vmlinux_btf := None; skel := sk;
     fentries := replicate 12 None; fexits := replicate 12 None;
     fentries_insns := replicate 12 None; fexits_insns := replicate 12 None;
     verbose := false; debug := false; debug_extra := false;
     max_func_cnt := 0; max_fileno_rlimit := 0; func_filter := None;
     func_infos := []; func_info_cnts := replicate 12 0;
     func_info_id_for_arg_cnt := replicate 12 0;
     kprobes := []; allow_globs := []; deny_globs := [] |}.

(** [strdup]: a fresh buffer holding the string of [s]. *)
Definition strdup (s : cbuf) : cbuf := cstr s.

(** A rule as [allow_glob] and [deny_glob] append it. *)
Definition fresh_rule (g : cbuf) : glob_rule := {| glob := strdup g; matches := 0 |}.

(** [mass_attacher__allow_glob]: the error code, the attacher and the heap
    after the call. *)
Definition mass_attacher__allow_glob (h : heap) (att : mass_attacher) (pattern : option cbuf)
  : Z * mass_attacher * heap :=
  if negb (is_valid_glob pattern) then (- EINVAL, att, h)
  else
    let '(tmp, h) := alloc h in
    if negb tmp then (- ENOMEM, att, h)
    else
      let '(s, h) := alloc h in
      if negb s then (- ENOMEM, att, h)
      else
        (0, set_allow_globs att
              (allow_globs att ++ [ fresh_rule (default [] pattern) ]), h).

Definition mass_attacher__deny_glob (h : heap) (att : mass_attacher) (pattern : option cbuf)
  : Z * mass_attacher * heap :=
  if negb (is_valid_glob pattern) then (- EINVAL, att, h)
  else
    let '(tmp, h) := alloc h in
    if negb tmp then (- ENOMEM, att, h)
    else
      let '(s, h) := alloc h in
      if negb s then (- ENOMEM, att, h)
      else
        (0, set_deny_globs att
              (deny_globs att ++ [ fresh_rule (default [] pattern) ]), h).

(** A heap that grants every request. *)
Definition generous (h : heap) : Prop := Forall (λ ok, ok = true) h.

(** The loop of [mass_attacher__new] over [enforced_deny_globs]; on an
    error the attacher is freed and the result is null. *)
Fixpoint deny_enforced (h : heap) (att : mass_attacher) (globs : list cbuf)
  : option mass_attacher * heap :=
  match globs with
  | [] => (Some att, h)
  | g :: rest =>
      let '(err, att, h) := mass_attacher__deny_glob h att (Some g) in
      if negb (err =? 0) then (None, h)
      else deny_enforced h att rest
  end.

(** [mass_attacher__new]; [None] is a null pointer, as argument and as
    result. *)
Definition mass_attacher__new (h : heap) (sk : option skeleton)
    (opts : option (Opts.mass_attacher_opts)) : option mass_attacher * heap :=
  match sk with
  | None => (None, h)
  | Some sk =>
      let '(ok, h) := alloc h in
      if negb ok then (None, h)
      else
        let att := calloc_attacher sk in
        match opts with
        | None => (Some att, h)
        | Some opts =>
            let att :=
              {| ksyms := ksyms att; vmlinux_btf := vmlinux_btf att; skel := skel att;
                 fentries := fentries att; fexits := fexits att;
                 fentries_insns := fentries_insns att; fexits_insns := fexits_insns att;
                 verbose := if Opts.debug opts then true else Opts.verbose opts;
                 debug := Opts.debug opts;
                 debug_extra := Opts.debug_extra opts;
                 max_func_cnt := Opts.max_func_cnt opts;
                 max_fileno_rlimit := Opts.max_fileno_rlimit opts;
                 func_filter := Opts.func_filter opts;
                 func_infos := func_infos att; func_info_cnts := func_info_cnts att;
                 func_info_id_for_arg_cnt := func_info_id_for_arg_cnt att;
                 kprobes := kprobes att; allow_globs := allow_globs att;
                 deny_globs := deny_globs att |} in
            deny_enforced h att enforced_deny_globs
        end
  end.

(** *** The filter of [mass_attacher__prepare] *)

(** One of the two [for] loops over a rule list: whether a rule matched,
    and the rules afterwards.  The first rule that matches has its counter
    incremented and ends the loop ([goto]).  Each rule keeps the pattern buffer
    as [glob_matches] leaves it. *)
Fixpoint scan_globs (rules : list glob_rule) (func_name : cbuf) : bool * list glob_rule :=
  match rules with
  | [] => (false, [])
  | r :: rest =>
      let '(hit, (pattern, _)) := glob_matches (glob r) func_name in
      if negb hit then
        let '(found, rest) := scan_globs rest func_name in
        (found, {| glob := pattern; matches := matches r |} :: rest)
      else
        (true, {| glob := pattern; matches := matches r + 1 |} :: rest)
  end.

(** Lines 351-377 of [mass_attacher__prepare]: [true] for [proceed],
    [false] for [skip]. *)
Definition filter_func (att : mass_attacher) (func_name : cbuf) : bool * mass_attacher :=
  let '(denied, rules) := scan_globs (deny_globs att) func_name in
  let att := set_deny_globs att rules in
  if denied then (false, att)
  else if negb (allow_glob_cnt att =? 0) then
    let '(allowed, rules) := scan_globs (allow_globs att) func_name in
    let att := set_allow_globs att rules in
    if allowed then (true, att) else (false, att)
  else (true, att).

(** A rule matches a name; a rule with its counter incremented; the first
    rule of a list, in insertion order, that matches; no rule of a list
    matches. *)
Definition rule_hits (func_name : cbuf) (r : glob_rule) : Prop :=
  glob_accepts (glob r) func_name = true.

Definition bump (r : glob_rule) : glob_rule :=
  {| glob := glob r; matches := matches r + 1 |}.

Definition first_hit (rules : list glob_rule) (func_name : cbuf) (j : nat) (r : glob_rule) : Prop :=
  rules !! j = Some r ∧ rule_hits func_name r ∧
  ∀ k r', (k < j)%nat → rules !! k = Some r' → ¬ rule_hits func_name r'.

Definition some_hit (rules : list glob_rule) (func_name : cbuf) : Prop :=
  ∃ r, r ∈ rules ∧ rule_hits func_name r.

Definition sum_matches (rules : list glob_rule) : Z :=
  foldr (λ r acc, matches r + acc) 0 rules.

(** *** The host [mass_attacher__prepare] runs on *)

Inductive rlimit_resource := RLIMIT_MEMLOCK | RLIMIT_NOFILE.

Definition RLIM_INFINITY : Z := 2 ^ 64 - 1.

(** What the system answers during [prepare]: [ksyms__load] ([None] for
    null), [setrlimit] ([None] for success, otherwise the errno), the file of
    attachable functions (the errno of [fopen], or the names the [fscanf] loop
    reads), and [libbpf_find_kernel_btf] (the error [libbpf_get_error] reports,
    or the type database).  An errno is positive. *)
Record host := {
  kallsyms : option (list Ksyms.ksym);
  setrlimit : rlimit_resource → Z → option positive;
  available_filter_functions : positive + list cbuf;
  kernel_btf : Z + Btf.btf
}.

Definition bump_rlimit (hst : host) (resource : rlimit_resource) (max : Z) : Z :=
  match setrlimit hst resource max with
  | Some errno => - Z.pos errno
  | None => 0
  end.

Definition str_cmp (a b : cbuf) : Z := strcmp a b.

(** The order [str_cmp] sorts by. *)
Definition str_le (a b : cbuf) : Prop := str_cmp a b ≤ 0.

#[global] Instance str_le_dec : RelDecision str_le.
Proof. intros a b. unfold str_le. apply _. Defined.

(** [qsort] of the traceable names with [str_cmp]. *)
Definition qsort (l : list cbuf) : list cbuf := merge_sort str_le l.

(** The strings an array of [char *] points to, when no entry is null. *)
Definition strings (a : list (option cbuf)) : option (list cbuf) := mapM id a.

(** The [fscanf] loop of [load_available_kprobes] (lines 511-521).  The
    result of [strdup] is stored and counted before it is tested: a failed
    [strdup] leaves a null entry at the end of the array. *)
Fixpoint read_kprobes (h : heap) (att : mass_attacher) (names : list cbuf)
  : Z * mass_attacher * heap :=
  match names with
  | [] => (0, att, h)
  | buf :: rest =>
      let '(tmp, h) := alloc h in
      if negb tmp then (- ENOMEM, att, h)
      else
        let '(s, h) := alloc h in
        if negb s then (- ENOMEM, set_kprobes att (kprobes att ++ [None]), h)
        else read_kprobes h (set_kprobes att (kprobes att ++ [Some (strdup buf)])) rest
  end.

(** The [qsort] call of line 523 on the array of the traceable names.
    [str_cmp] passes the two entries it compares to [strcmp], which faults on
    a null pointer.  An array of fewer than two entries is not compared;
    sorting two or more entries compares each of them. *)
Definition sort_kprobes (a : list (option cbuf)) : run (list (option cbuf)) :=
  match strings a with
  | Some names => mret (Some <$> qsort names)
  | None => if (length a <=? 1)%nat then mret a else Crash
  end.

Definition load_available_kprobes (hst : host) (h : heap) (att : mass_attacher)
  : run (Z * mass_attacher * heap) :=
  match available_filter_functions hst with
  | inl errno => mret (- Z.pos errno, att, h)
  | inr names =>
      let '(err, att, h) := read_kprobes h att names in
      if negb (err =? 0) then mret (err, att, h)
      else
        sorted ← sort_kprobes (kprobes att);
        mret (0, set_kprobes att sorted, h)
  end.

(** [is_kprobe_ok]: [bsearch] with [str_cmp] over the array [qsort] sorted
    with [str_cmp] finds an entry iff one compares equal to [name].
    [is_kprobe_ok] is called only by [prepare], after the sort: an array with a
    null entry then has that entry alone, and the search passes it to
    [strcmp]. *)
Definition is_kprobe_ok (att : mass_attacher) (func_name : cbuf) : run bool :=
  match strings (kprobes att) with
  | Some names => mret (existsb (λ k, str_cmp func_name k =? 0) names)
  | None => Crash
  end.

(** *** The pass of [mass_attacher__prepare] over the type database *)

(** How an iteration of the pass ends: [continue] (or the end of the
    body), [break], or [return err]. *)
Inductive flow :=
| Next
| Break
| Return (err : Z).

Record pass_state := {
  pass_att : mass_attacher;
  func_skip : Z;
  pass_heap : heap
}.

Definition skipped (st : pass_state) (att : mass_attacher) : pass_state :=
  {| pass_att := att; func_skip := func_skip st + 1; pass_heap := pass_heap st |}.

Definition array_get (a : list Z) (i : nat) : Z := default 0 (a !! i).

(** Lines 406-425: append the entry for type id [i] and account for it in
    its arity bucket. *)
Definition add_func (att : mass_attacher) (ksym : Ksyms.ksym) (arg_cnt i : nat)
  : mass_attacher :=
  let finfo :=
    {| name := Ksyms.name ksym; addr := Ksyms.addr ksym; arg_cnt := arg_cnt;
       btf_id := i; fentry_prog_fd := 0; fexit_prog_fd := 0 |} in
  let cnts := <[arg_cnt := array_get (func_info_cnts att) arg_cnt + 1]> (func_info_cnts att) in
  let ids :=
    if array_get (func_info_id_for_arg_cnt att) arg_cnt =? 0
    then <[arg_cnt := func_cnt att]> (func_info_id_for_arg_cnt att)
    else func_info_id_for_arg_cnt att in
  set_func_infos
    (set_func_info_id_for_arg_cnt (set_func_info_cnts att cnts) ids)
    (func_infos att ++ [finfo]).

(** The body of the loop for type id [i]. *)
Definition prepare_func (fuel : nat) (b : Btf.btf) (ks : list Ksyms.ksym)
    (i : nat) (st : pass_state) : run (flow * pass_state) :=
  let att := pass_att st in
  match Btf.btf__type_by_id b i with
  | None => Crash
  | Some t =>
      if negb (Btf.btf_is_func t) then mret (Next, st)
      else
        let func_name := Btf.name t in
        match Ksyms.ksyms__get_symbol ks func_name with
        | None => mret (Next, skipped st att)
        | Some ksym =>
            let '(proceed, att) := filter_func att func_name in
            if negb proceed then mret (Next, skipped st att)
            else
              traceable ← is_kprobe_ok att func_name;
              if negb traceable then mret (Next, skipped st att)
              else
                ok ← Btf.is_func_type_ok fuel b t;
                if negb ok then mret (Next, skipped st att)
                else if negb (max_func_cnt att =? 0) && (max_func_cnt att <=? func_cnt att)
                then mret (Break, {| pass_att := att; func_skip := func_skip st;
                                     pass_heap := pass_heap st |})
                else if match func_filter att with
                        | Some f => negb (f b i func_name (func_cnt att))
                        | None => false
                        end
                then mret (Next, skipped st att)
                else
                  arg_cnt ← Btf.func_arg_cnt b i;
                  let '(tmp, h) := alloc (pass_heap st) in
                  if negb tmp
                  then mret (Return (- ENOMEM),
                             {| pass_att := att; func_skip := func_skip st; pass_heap := h |})
                  else mret (Next, {| pass_att := add_func att ksym arg_cnt i;
                                      func_skip := func_skip st; pass_heap := h |})
        end
  end.

(** [for (i = 1; i <= n; i++)], over the ids still to visit. *)
Fixpoint prepare_pass (fuel : nat) (b : Btf.btf) (ks : list Ksyms.ksym)
    (ids : list nat) (st : pass_state) : run (flow * pass_state) :=
  match ids with
  | [] => mret (Next, st)
  | i :: rest =>
      '(fl, st) ← prepare_func fuel b ks i st;
      match fl with
      | Next => prepare_pass fuel b ks rest st
      | _ => mret (fl, st)
      end
  end.

(** Lines 436-452: one arity of the loop that arms the template programs. *)
Definition arm_arity (att : mass_attacher) (i : nat) : run mass_attacher :=
  match fentries att !! i, fexits att !! i with
  | Some (Some pe), Some (Some px) =>
      if negb (array_get (func_info_cnts att) i =? 0) then
        match func_infos att !! Z.to_nat (array_get (func_info_id_for_arg_cnt att) i) with
        | None => Crash
        | Some finfo =>
            let arm p := bpf_program__set_prep (bpf_program__set_attach_target (name finfo) p) in
            mret (set_skel att (prog_update arm px (prog_update arm pe (skel att))))
        end
      else
        let off := bpf_program__set_autoload false in
        mret (set_skel att (prog_update off px (prog_update off pe (skel att))))
  | _, _ => Crash
  end.

Fixpoint arm (att : mass_attacher) (arities : list nat) : run mass_attacher :=
  match arities with
  | [] => mret att
  | i :: rest => att ← arm_arity att i; arm att rest
  end.

(** [mass_attacher__prepare] from line 431 on. *)
Definition prepare_finish (att : mass_attacher) (h : heap) : run (Z * mass_attacher * heap) :=
  if func_cnt att =? 0 then mret (- ENOENT, att, h)
  else
    att ← arm att (seq 0 (S Btf.MAX_FUNC_ARG_CNT));
    mret (0, set_skel att (bpf_map__set_max_entries (func_cnt att) (skel att)), h).

(** [mass_attacher__prepare] up to the pass: an error code, or the
    attacher with its symbols, traceable names, program slots and type
    database. *)
Definition prepare_setup (hst : host) (h : heap) (att : mass_attacher)
  : run (Z * mass_attacher * heap) :=
  match kallsyms hst with
  | None => mret (- EINVAL, att, h)
  | Some ks =>
      let att := set_ksyms att (Some ks) in
      let err := bump_rlimit hst RLIMIT_MEMLOCK RLIM_INFINITY in
      if negb (err =? 0) then mret (err, att, h)
      else
        let err := bump_rlimit hst RLIMIT_NOFILE
                     (to_size (if max_fileno_rlimit att =? 0 then 300000
                               else max_fileno_rlimit att)) in
        if negb (err =? 0) then mret (err, att, h)
        else
          '(err, att, h) ← load_available_kprobes hst h att;
          if negb (err =? 0) then mret (err, att, h)
          else
            let att := set_fentries att ((λ k, Some (fentry k)) <$> seq 0 12) in
            let att := set_fexits att ((λ k, Some (fexit k)) <$> seq 0 12) in
            match kernel_btf hst with
            | inl _ => mret (- EINVAL, att, h)
            | inr b => mret (0, set_vmlinux_btf att (Some b), h)
            end
  end.

(** Lines 331-429: the pass over the ids [1 .. n] of the type database the
    attacher holds. *)
Definition type_pass (fuel : nat) (att : mass_attacher) (h : heap) : run (flow * pass_state) :=
  match ksyms att, vmlinux_btf att with
  | Some ks, Some b =>
      let n := Btf.btf__get_nr_types b in
      prepare_pass fuel b ks (seq 1 n) {| pass_att := att; func_skip := 0; pass_heap := h |}
  | _, _ => Crash
  end.

Definition mass_attacher__prepare (fuel : nat) (hst : host) (h : heap) (att : mass_attacher)
  : run (Z * mass_attacher * heap) :=
  '(err, att, h) ← prepare_setup hst h att;
  if negb (err =? 0) then mret (err, att, h)
  else
    '(fl, st) ← type_pass fuel att h;
    match fl with
    | Return err => mret (err, pass_att st, pass_heap st)
    | _ => prepare_finish (pass_att st) (pass_heap st)
    end.

(** *** The plan [prepare] builds *)

(** The number of entries of arity [k]; the index of the first entry of
    arity [k]; the index of the first entry of arity [k] after entry 0, or 0
    when there is none. *)
Definition arity_count (k : nat) (l : list mass_attacher_func_info) : nat :=
  length (filter (λ e, arg_cnt e = k) l).

Definition first_of_arity (k : nat) (l : list mass_attacher_func_info) : option nat :=
  fst <$> list_find (λ e, arg_cnt e = k) l.

Definition first_later (k : nat) (l : list mass_attacher_func_info) : nat :=
  match list_find (λ e, arg_cnt e = k) (tail l) with
  | Some (j, _) => S j
  | None => 0
  end.

(** What holds of the attacher between two iterations of the pass, when
    the ids below [next] have been visited. *)
Record plan_inv (next : nat) (att : mass_attacher) : Prop := {
  inv_cnts_len : length (func_info_cnts att) = 12%nat;
  inv_ids_len : length (func_info_id_for_arg_cnt att) = 12%nat;
  inv_arity : Forall (λ e, (arg_cnt e ≤ 11)%nat) (func_infos att);
  inv_cnts : ∀ k, (k < 12)%nat →
    array_get (func_info_cnts att) k = Z.of_nat (arity_count k (func_infos att));
  inv_ids : ∀ k, (k < 12)%nat →
    array_get (func_info_id_for_arg_cnt att) k = Z.of_nat (first_later k (func_infos att));
  inv_btf_ids : NoDup (btf_id <$> func_infos att);
  inv_btf_ids_lt : Forall (λ e, (btf_id e < next)%nat) (func_infos att)
}.

(** The program slots, the template and the captured bytecode of two
    attachers are the same. *)
Definition same_slots (att att' : mass_attacher) : Prop :=
  fentries att' = fentries att ∧ fexits att' = fexits att ∧ skel att' = skel att ∧
  fentries_insns att' = fentries_insns att ∧ fexits_insns att' = fexits_insns att.

(** The slots are bound to the template programs, as [prepare] binds them. *)
Definition slots_bound (att : mass_attacher) : Prop :=
  fentries att = (λ k, Some (fentry k)) <$> seq 0 12 ∧
  fexits att = (λ k, Some (fexit k)) <$> seq 0 12.

(** *** Load: capturing the template bytecode and cloning *)

(** What the loader and the kernel answer during [load]: the return value
    of the skeleton's load function, the finalized bytecode the loader hands to
    the prep hook of each template program, [bpf_map_update_elem] on the
    [ip_to_id] map ([None] for success, otherwise the errno), and
    [bpf_load_program_xattr], by the number of earlier calls (the descriptor,
    negative on failure, and the errno).  An errno is positive. *)
Record kernel := {
  skel_load : Z;
  prog_insns : prog_ptr → list bpf_insn;
  bpf_map_update_elem : Z → Z → option positive;
  bpf_load_program_xattr : nat → LoadAttr.t → Z * positive
}.

Definition slot_matches (att : mass_attacher) (p : prog_ptr) (i : nat) : bool :=
  bool_decide (fentries att !! i = Some (Some p))
  || bool_decide (fexits att !! i = Some (Some p)).

(** [prog_arg_cnt]; [None] is the result -1. *)
Definition prog_arg_cnt (att : mass_attacher) (p : prog_ptr) : option nat :=
  List.find (slot_matches att p) (seq 0 (S Btf.MAX_FUNC_ARG_CNT)).

(** [hijack_prog] on the attacher [cur_attacher] points to.  Writing at
    index -1 and copying to a null [malloc] result are faults. *)
Definition hijack_prog (att : mass_attacher) (h : heap) (prog : prog_ptr)
    (insns : list bpf_insn) : run (mass_attacher * heap) :=
  match prog_arg_cnt att prog, prog_at (skel att) prog with
  | Some arg_cnt, Some p =>
      let '(ok, h) := alloc h in
      if negb ok then Crash
      else if strncmp (prog_name p) (lit "fexit") 5 =? 0
      then mret (set_fexits_insns att (<[arg_cnt := Some insns]> (fexits_insns att)), h)
      else mret (set_fentries_insns att (<[arg_cnt := Some insns]> (fentries_insns att)), h)
  | _, _ => Crash
  end.

(** Modelled from the spec: the skeleton's load function (generated code
    and libbpf, not part of src): "The platform's loader calls the prep hook
    with the finalized bytecode for each template program", for the programs
    that have the hook and are not disabled. *)
Fixpoint run_prep_hooks (k : kernel) (att : mass_attacher) (h : heap)
    (ps : list prog_ptr) : run (mass_attacher * heap) :=
  match ps with
  | [] => mret (att, h)
  | p :: rest =>
      match prog_at (skel att) p with
      | Some bp =>
          if autoload bp && prep bp then
            '(att, h) ← hijack_prog att h p (prog_insns k p);
            run_prep_hooks k att h rest
          else run_prep_hooks k att h rest
      | None => run_prep_hooks k att h rest
      end
  end.

Definition SKEL_LOAD (k : kernel) (att : mass_attacher) (h : heap)
  : run (Z * mass_attacher * heap) :=
  '(att, h) ← run_prep_hooks k att h
                ((fentry <$> seq 0 12) ++ (fexit <$> seq 0 12));
  mret (skel_load k, att, h).

(** The attributes [clone_prog] fills in for the prototype [bp]. *)
Definition clone_attr (bp : bpf_program) (insns : option (list bpf_insn))
    (attach_btf_id : nat) : LoadAttr.t :=
  {| LoadAttr.prog_type := prog_type bp;
     LoadAttr.expected_attach_type := expected_attach_type bp;
     LoadAttr.name := prog_name bp;
     LoadAttr.insns := insns;
     LoadAttr.insns_cnt := Z.of_nat (length (default [] insns));
     LoadAttr.license := lit "Dual BSD/GPL";
     LoadAttr.attach_btf_id := attach_btf_id |}.

(** What [clone_prog] returns for the [n]-th call of
    [bpf_load_program_xattr]: the descriptor, or [-errno]. *)
Definition clone_result (k : kernel) (n : nat) (attr : LoadAttr.t) : Z :=
  let '(fd, errno) := bpf_load_program_xattr k n attr in
  if fd <? 0 then - Z.pos errno else fd.

(** [clone_prog], with the calls of [bpf_load_program_xattr] made so far:
    its result and the calls including this one. *)
Definition clone_prog (k : kernel) (sk : skeleton) (calls : list LoadAttr.t)
    (prog : option (option prog_ptr)) (insns : option (option (list bpf_insn)))
    (attach_btf_id : nat) : run (Z * list LoadAttr.t) :=
  match prog, insns with
  | Some (Some p), Some insns =>
      match prog_at sk p with
      | None => Crash
      | Some bp =>
          let attr := clone_attr bp insns attach_btf_id in
          mret (clone_result k (length calls) attr, calls ++ [attr])
      end
  | _, _ => Crash
  end.

Record load_state := {
  load_att : mass_attacher;
  load_calls : list LoadAttr.t
}.

Definition set_fds (finfo : mass_attacher_func_info) (fentry_fd fexit_fd : Z)
  : mass_attacher_func_info :=
  {| name := name finfo; addr := addr finfo; arg_cnt := arg_cnt finfo;
     btf_id := btf_id finfo; fentry_prog_fd := fentry_fd; fexit_prog_fd := fexit_fd |}.

(** The body of the loop of [mass_attacher__load] for entry [i]: [Some
    err] when it ends with [return err], [None] when it runs to its end. *)
Definition load_func (k : kernel) (i : nat) (st : load_state)
  : run (option Z * load_state) :=
  let att := load_att st in
  match func_infos att !! i with
  | None => Crash
  | Some finfo =>
      match bpf_map_update_elem k (addr finfo) (Z.of_nat i) with
      | Some errno => mret (Some (- Z.pos errno), st)
      | None =>
          let att := set_skel att (map_put (addr finfo) (Z.of_nat i) (skel att)) in
          '(err, calls) ← clone_prog k (skel att) (load_calls st)
                             (fentries att !! arg_cnt finfo)
                             (fentries_insns att !! arg_cnt finfo) (btf_id finfo);
          if err <? 0 then mret (Some err, {| load_att := att; load_calls := calls |})
          else
            let finfo := set_fds finfo err (fexit_prog_fd finfo) in
            let att := set_func_infos att (<[i := finfo]> (func_infos att)) in
            '(err, calls) ← clone_prog k (skel att) calls
                               (fexits att !! arg_cnt finfo)
                               (fexits_insns att !! arg_cnt finfo) (btf_id finfo);
            if err <? 0 then mret (Some err, {| load_att := att; load_calls := calls |})
            else
              let finfo := set_fds finfo (fentry_prog_fd finfo) err in
              let att := set_func_infos att (<[i := finfo]> (func_infos att)) in
              mret (None, {| load_att := att; load_calls := calls |})
      end
  end.

Fixpoint load_funcs (k : kernel) (ids : list nat) (st : load_state) : run (Z * load_state) :=
  match ids with
  | [] => mret (0, st)
  | i :: rest =>
      '(ret, st) ← load_func k i st;
      match ret with
      | Some err => mret (err, st)
      | None => load_funcs k rest st
      end
  end.

(** [mass_attacher__load]: the result, the attacher, the calls of
    [bpf_load_program_xattr] in order, and the heap. *)
Definition mass_attacher__load (k : kernel) (h : heap) (att : mass_attacher)
  : run (Z * mass_attacher * list LoadAttr.t * heap) :=
  '(err, att, h) ← SKEL_LOAD k att h;
  if negb (err =? 0) then mret (err, att, [], h)
  else
    '(err, st) ← load_funcs k (seq 0 (length (func_infos att)))
                    {| load_att := att; load_calls := [] |};
    mret (err, load_att st, load_calls st, h).

(** *** What the prep hook captures *)


Definition arity_of (p : prog_ptr) : nat :=
  match p with
  | fentry k => k
  | fexit k => k
  end.



(** *** The clone calls [load] is to make *)

(** The two calls for an entry of arity [arity] and type id [id], from the
    attacher as the skeleton load leaves it: the entry prototype of the arity
    with the bytecode captured for it, then the exit prototype with its
    bytecode, both with [id] as attach target. *)
Definition expected_clones (att : mass_attacher) (arity id : nat) : option (list LoadAttr.t) :=
  match fentries att !! arity, fexits att !! arity,
        fentries_insns att !! arity, fexits_insns att !! arity with
  | Some (Some pe), Some (Some px), Some ie, Some ix =>
      match prog_at (skel att) pe, prog_at (skel att) px with
      | Some bpe, Some bpx => Some [clone_attr bpe ie id; clone_attr bpx ix id]
      | _, _ => None
      end
  | _, _, _, _ => None
  end.

Definition entry_key (e : mass_attacher_func_info) : nat * nat := (arg_cnt e, btf_id e).

(** What the loop of [load] leaves alone. *)
Definition load_frame (att att' : mass_attacher) : Prop :=
  fentries att' = fentries att ∧ fexits att' = fexits att ∧
  fentries_insns att' = fentries_insns att ∧ fexits_insns att' = fexits_insns att ∧
  (∀ p, prog_at (skel att') p = prog_at (skel att) p) ∧
  entry_key <$> func_infos att' = entry_key <$> func_infos att.

End Attacher.

(** ** Sample inputs *)

Module Sample.
Import CStr Run Attacher.

Definition BPF_PROG_TYPE_TRACING : Z := 26.
Definition BPF_TRACE_FENTRY : Z := 24.
Definition BPF_TRACE_FEXIT : Z := 25.

Definition template_prog (nm : string) (attach : Z) : bpf_program :=
  {| prog_name := lit nm; prog_type := BPF_PROG_TYPE_TRACING;
     expected_attach_type := attach; attach_target := None;
     prep := false; autoload := true |}.

(** A template as the loader opens it: twelve entry and twelve exit
    programs, not ready, an empty map. *)
Definition template : skeleton :=
  {| fentry_progs :=
       (λ nm, template_prog nm BPF_TRACE_FENTRY) <$>
       ["fentry0"; "fentry1"; "fentry2"; "fentry3"; "fentry4"; "fentry5";
        "fentry6"; "fentry7"; "fentry8"; "fentry9"; "fentry10"; "fentry11"]%string;
     fexit_progs :=
       (λ nm, template_prog nm BPF_TRACE_FEXIT) <$>
       ["fexit0"; "fexit1"; "fexit2"; "fexit3"; "fexit4"; "fexit5";
        "fexit6"; "fexit7"; "fexit8"; "fexit9"; "fexit10"; "fexit11"]%string;
     ready := false; ip_to_id_max_entries := 0; ip_to_id := [] |}.

Definition default_opts : Opts.mass_attacher_opts :=
  {| Opts.max_func_cnt := 0; Opts.max_fileno_rlimit := 0; Opts.verbose := false;
     Opts.debug := false; Opts.debug_extra := false; Opts.func_filter := None |}.

Definition mk_type (nm : string) (k : Btf.btf_kind) (ty : nat) (ps : list nat) : Btf.btf_type :=
  {| Btf.name := lit nm; Btf.kind := k; Btf.type := ty;
     Btf.params := (λ p, {| Btf.param_type := p |}) <$> ps |}.

(** A type database with [int foo(int)], [int bar(int)] and
    [int baz(int, int)]: ids 3, 4 and 6. *)
Definition three_funcs : Btf.btf :=
  [ mk_type "int" Btf.BTF_KIND_INT 0 [];
    mk_type "" Btf.BTF_KIND_FUNC_PROTO 1 [1%nat];
    mk_type "foo" Btf.BTF_KIND_FUNC 2 [];
    mk_type "bar" Btf.BTF_KIND_FUNC 2 [];
    mk_type "" Btf.BTF_KIND_FUNC_PROTO 1 [1%nat; 1%nat];
    mk_type "baz" Btf.BTF_KIND_FUNC 5 [] ].

Definition three_funcs_host : host :=
  {| kallsyms := Some [ {| Ksyms.addr := 4096; Ksyms.name := lit "foo" |};
                        {| Ksyms.addr := 8192; Ksyms.name := lit "bar" |};
                        {| Ksyms.addr := 12288; Ksyms.name := lit "baz" |} ];
     setrlimit := λ _ _, None;
     available_filter_functions := inr [lit "foo"; lit "bar"; lit "baz"];
     kernel_btf := inr three_funcs |}.



(** A host whose type database has no type. *)
Definition empty_host : host :=
  {| kallsyms := Some [];
     setrlimit := λ _ _, None;
     available_filter_functions := inr [];
     kernel_btf := inr [] |}.

(** A kernel that loads every program and hands out descriptors 3, 4, ... *)
Definition willing_kernel : kernel :=
  {| skel_load := 0;
     prog_insns := λ p, match p with
                        | fentry k => [Z.of_nat k; 149]
                        | fexit k => [Z.of_nat k + 100; 149]
                        end;
     bpf_map_update_elem := λ _ _, None;
     bpf_load_program_xattr := λ n _, (Z.of_nat n + 3, 1%positive) |}.

(** A type database whose only type is a typedef of itself. *)
Definition cyclic : Btf.btf := [ mk_type "loop_t" Btf.BTF_KIND_TYPEDEF 1 [] ].

(** [const int]: a modifier chain of length one. *)
Definition const_int : Btf.btf :=
  [ mk_type "int" Btf.BTF_KIND_INT 0 [];
    mk_type "" Btf.BTF_KIND_CONST 1 [] ].

(** [const struct s *f(int)] and [int *g(int)]: the functions of ids 6
    and 9. *)
Definition pointer_returns : Btf.btf :=
  [ mk_type "s" Btf.BTF_KIND_STRUCT 0 [];
    mk_type "" Btf.BTF_KIND_CONST 1 [];
    mk_type "" Btf.BTF_KIND_PTR 2 [];
    mk_type "int" Btf.BTF_KIND_INT 0 [];
    mk_type "" Btf.BTF_KIND_FUNC_PROTO 3 [4%nat];
    mk_type "f" Btf.BTF_KIND_FUNC 5 [];
    mk_type "" Btf.BTF_KIND_PTR 4 [];
    mk_type "" Btf.BTF_KIND_FUNC_PROTO 7 [4%nat];
    mk_type "g" Btf.BTF_KIND_FUNC 8 [] ].

(** [new], [prepare] and [load] in a row, for results that are there. *)
Definition prepared (fuel : nat) (hst : host) (opts : option (Opts.mass_attacher_opts))
  : option mass_attacher :=
  match mass_attacher__new [] (Some template) opts with
  | (Some att, h) =>
      match mass_attacher__prepare fuel hst h att with
      | Ret (0, att, _) => Some att
      | _ => None
      end
  | _ => None
  end.

(** [new] with options, then the user's deny and allow rules, then
    [prepare]: the attacher of a run that returns 0. *)
Definition prepared_with (hst : host) (opts : Opts.mass_attacher_opts)
    (denies allows : list cbuf) : option mass_attacher :=
  match mass_attacher__new [] (Some template) (Some opts) with
  | (Some att, h) =>
      let att := foldl (λ a g, (mass_attacher__deny_glob [] a (Some g)).1.2) att denies in
      let att := foldl (λ a g, (mass_attacher__allow_glob [] a (Some g)).1.2) att allows in
      match mass_attacher__prepare 5 hst h att with
      | Ret (0, att, _) => Some att
      | _ => None
      end
  | _ => None
  end.

Definition at_most_two : Opts.mass_attacher_opts :=
  {| Opts.max_func_cnt := 2; Opts.max_fileno_rlimit := 0; Opts.verbose := false;
     Opts.debug := false; Opts.debug_extra := false; Opts.func_filter := None |}.

Definition fresh : mass_attacher :=
  default (calloc_attacher template)
          (mass_attacher__new [] (Some template) (Some default_opts)).1.

Definition three_prepared : mass_attacher :=
  default fresh (prepared 5 three_funcs_host (Some default_opts)).


(** The attacher and the calls of a load that returns 0. *)
Definition loaded (k : kernel) (att : mass_attacher) : mass_attacher * list LoadAttr.t :=
  match mass_attacher__load k [] att with
  | Ret (0, att', calls, _) => (att', calls)
  | _ => (att, [])
  end.

End Sample.

(** ** The remaining phases and the accessors *)

Module Phases.
Import CStr Glob Run Attacher.

(** What [mass_attacher__attach] does besides returning: the program
    descriptors it passes to [bpf_raw_tracepoint_open], in order, and the
    descriptors of the failures it reports on [stderr]. *)
Record attach_trace := {
  opened : list Z;
  reported : list Z
}.

(** One attachment: [bpf_raw_tracepoint_open(NULL, prog_fd)] answers by the
    number of earlier calls; a negative answer is reported and nothing else
    happens. *)
Definition attach_prog (raw_open : nat → Z → Z) (prog_fd : Z) (tr : attach_trace)
  : attach_trace :=
  let err := raw_open (length (opened tr)) prog_fd in
  {| opened := opened tr ++ [prog_fd];
     reported := if err <? 0 then reported tr ++ [prog_fd] else reported tr |}.

(** The loop of [mass_attacher__attach] over the entries still to attach. *)
Fixpoint attach_funcs (raw_open : nat → Z → Z) (infos : list mass_attacher_func_info)
    (tr : attach_trace) : attach_trace :=
  match infos with
  | [] => tr
  | finfo :: rest =>
      let tr := attach_prog raw_open (fentry_prog_fd finfo) tr in
      let tr := attach_prog raw_open (fexit_prog_fd finfo) tr in
      attach_funcs raw_open rest tr
  end.

(** [mass_attacher__attach]: its result and its trace.  The attacher is
    only read. *)
Definition mass_attacher__attach (raw_open : nat → Z → Z) (att : mass_attacher)
  : Z * attach_trace :=
  (0, attach_funcs raw_open (func_infos att) {| opened := []; reported := [] |}).

Definition set_ready (v : bool) (sk : skeleton) : skeleton :=
  {| fentry_progs := fentry_progs sk; fexit_progs := fexit_progs sk;
     ready := v; ip_to_id_max_entries := ip_to_id_max_entries sk;
     ip_to_id := ip_to_id sk |}.

(** [mass_attacher__activate]. *)
Definition mass_attacher__activate (att : mass_attacher) : mass_attacher :=
  set_skel att (set_ready true (skel att)).

(** [mass_attacher__skeleton], [mass_attacher__btf], [mass_attacher__func_cnt]. *)
Definition mass_attacher__skeleton (att : mass_attacher) : skeleton := skel att.

Definition mass_attacher__btf (att : mass_attacher) : option Btf.btf := vmlinux_btf att.

Definition mass_attacher__func_cnt (att : mass_attacher) : Z := to_size (func_cnt att).

(** [mass_attacher__func]; [None] is the null result. *)
Definition mass_attacher__func (att : mass_attacher) (id : Z)
  : option mass_attacher_func_info :=
  if (id <? 0) || (func_cnt att <=? id) then None
  else func_infos att !! Z.to_nat id.

(** A caller that adds rules one after the other and goes on after an
    error. *)
Inductive rule_op :=
| allow (pattern : option cbuf)
| deny (pattern : option cbuf).

Definition add_rule (st : mass_attacher * heap) (op : rule_op) : mass_attacher * heap :=
  match op with
  | allow pattern =>
      let '(_, att, h) := mass_attacher__allow_glob st.2 st.1 pattern in (att, h)
  | deny pattern =>
      let '(_, att, h) := mass_attacher__deny_glob st.2 st.1 pattern in (att, h)
  end.

Definition add_rules (st : mass_attacher * heap) (ops : list rule_op) : mass_attacher * heap :=
  foldl add_rule st ops.

(** The verdict of the filter on a name, read off the rule lists. *)
Definition filter_passes (att : mass_attacher) (func_name : cbuf) : Prop :=
  ¬ some_hit (deny_globs att) func_name ∧
  (allow_globs att = [] ∨ some_hit (allow_globs att) func_name).

(** What [prepare] has checked of the entry at index [idx]: its type is a
    function of the type database, accepted by the ABI check, whose name has a
    symbol (the entry's name and address), is a traceable name, passes the
    filter and the user's predicate; its argument count is that of the
    prototype, and at most 11. *)
Definition entry_checked (b : Btf.btf) (ks : list Ksyms.ksym) (att : mass_attacher)
    (idx : nat) (e : mass_attacher_func_info) : Prop :=
  ∃ t ksym,
    Btf.btf__type_by_id b (btf_id e) = Some t ∧
    Btf.btf_is_func t = true ∧
    Ksyms.ksyms__get_symbol ks (Btf.name t) = Some ksym ∧
    name e = Ksyms.name ksym ∧ addr e = Ksyms.addr ksym ∧
    is_kprobe_ok att (Btf.name t) = Ret true ∧
    (∃ fuel, Btf.is_func_type_ok fuel b t = Ret true) ∧
    filter_passes att (Btf.name t) ∧
    (∀ f, func_filter att = Some f → f b (btf_id e) (Btf.name t) (Z.of_nat idx) = true) ∧
    Btf.func_arg_cnt b (btf_id e) = Ret (arg_cnt e) ∧
    (arg_cnt e ≤ Btf.MAX_FUNC_ARG_CNT)%nat ∧
    fentry_prog_fd e = 0 ∧ fexit_prog_fd e = 0.

(** What an iteration of the pass leaves alone, and what it may only grow. *)
Definition pass_frame (att att' : mass_attacher) : Prop :=
  glob <$> deny_globs att' = glob <$> deny_globs att ∧
  glob <$> allow_globs att' = glob <$> allow_globs att ∧
  kprobes att' = kprobes att ∧
  max_func_cnt att' = max_func_cnt att ∧
  func_filter att' = func_filter att ∧
  ksyms att' = ksyms att ∧ vmlinux_btf att' = vmlinux_btf att ∧
  skel att' = skel att.

Definition rule_total (att : mass_attacher) : Z :=
  sum_matches (deny_globs att) + sum_matches (allow_globs att).

(** A template program as the arming loop leaves it, for an arity with a
    representative entry named [target] or with none. *)
Definition armed (target : option cbuf) (bp : bpf_program) : bpf_program :=
  match target with
  | Some nm => bpf_program__set_prep (bpf_program__set_attach_target nm bp)
  | None => bpf_program__set_autoload false bp
  end.

(** The name [prepare] arms the programs of arity [k] with. *)
Definition arm_target (att : mass_attacher) (k : nat) : option cbuf :=
  if array_get (func_info_cnts att) k =? 0 then None
  else name <$> func_infos att !! Z.to_nat (array_get (func_info_id_for_arg_cnt att) k).

End Phases.

(** * Facts *)

Import CStr Glob Run Attacher.

(** ** C strings *)

Section cstr_facts.
Import CStr.

Lemma NUL_eqb (c : ascii) : Ascii.eqb c NUL = true ↔ c = NUL.
Proof. apply Ascii.eqb_eq. Qed.

Lemma STAR_not_NUL : STAR ≠ NUL.
Proof. discriminate. Qed.

Lemma cstr_nonul (b : cbuf) : Forall (λ c, c ≠ NUL) (cstr b).
Proof.
  induction b as [|c b IH]; simpl; [constructor|].
  destruct (Ascii.eqb c NUL) eqn:E; [constructor|].
  constructor; [|exact IH]. intros ->. discriminate.
Qed.

Lemma cstr_id (g : list ascii) : Forall (λ c, c ≠ NUL) g → cstr g = g.
Proof.
  induction 1 as [|c g Hc _ IH]; simpl; [done|].
  destruct (Ascii.eqb c NUL) eqn:E; [by apply NUL_eqb in E|by rewrite IH].
Qed.

Lemma cstr_idemp (b : cbuf) : cstr (cstr b) = cstr b.
Proof. apply cstr_id, cstr_nonul. Qed.

Lemma cstr_take (b : cbuf) : cstr b = take (strlen b) b.
Proof.
  unfold strlen. induction b as [|c b IH]; simpl; [done|].
  destruct (Ascii.eqb c NUL); simpl; [done|by f_equal].
Qed.

Lemma strlen_le (b : cbuf) : (strlen b ≤ length b)%nat.
Proof.
  unfold strlen. rewrite (cstr_take b) at 1. rewrite length_take. lia.
Qed.

Lemma cstr_lookup (b : cbuf) (i : nat) :
  (i < strlen b)%nat → b !! i = cstr b !! i.
Proof.
  intros Hi. rewrite (cstr_take b). by rewrite lookup_take_lt.
Qed.

Lemma cstr_end (b : cbuf) : default NUL (b !! strlen b) = NUL.
Proof.
  unfold strlen. induction b as [|c b IH]; simpl; [done|].
  destruct (Ascii.eqb c NUL) eqn:E; simpl; [by apply NUL_eqb in E|exact IH].
Qed.

(** Reading a star at an index up to the terminator is reading it in the
    string. *)
Lemma char_at_star (b : cbuf) (i : Z) :
  i ≤ Z.of_nat (strlen b) →
  char_at b i = STAR ↔ 0 ≤ i ∧ cstr b !! Z.to_nat i = Some STAR.
Proof.
  intros Hi. unfold char_at. destruct (Z.ltb_spec i 0) as [Hn|Hn].
  - split; [discriminate|lia].
  - destruct (decide (Z.to_nat i = strlen b)) as [->|Hne].
    + rewrite cstr_end. split; [discriminate|].
      intros [_ H]. apply lookup_lt_Some in H. unfold strlen in H. lia.
    + rewrite cstr_lookup by lia.
      destruct (cstr b !! Z.to_nat i) as [c|] eqn:E; simpl.
      * split; [intros ->; done|]. by intros [_ [= ->]].
      * split; [discriminate|]. by intros [_ ?].
Qed.

Lemma cstr_drop (b : cbuf) (k : nat) :
  (k ≤ strlen b)%nat → cstr (drop k b) = drop k (cstr b).
Proof.
  unfold strlen. revert k. induction b as [|c b IH]; intros k Hk; simpl in *.
  - by rewrite !drop_nil.
  - destruct k as [|k]; [done|]. simpl.
    destruct (Ascii.eqb c NUL); simpl in *; [lia|]. apply IH. lia.
Qed.

Lemma cstr_insert_nul (b : cbuf) (k : nat) :
  (k < strlen b)%nat → cstr (<[k := NUL]> b) = take k (cstr b).
Proof.
  unfold strlen. revert k. induction b as [|c b IH]; intros k Hk; simpl in *; [lia|].
  destruct (Ascii.eqb c NUL) eqn:E; simpl in *; [lia|].
  destruct k as [|k]; simpl; [done|]. rewrite E. f_equal. apply IH. lia.
Qed.

Lemma code_eq (x y : ascii) : code x = code y ↔ x = y.
Proof.
  unfold code. split; [|by intros ->]. intros H.
  apply N2Z.inj in H. rewrite <- (ascii_N_embedding x), <- (ascii_N_embedding y).
  by rewrite H.
Qed.

Lemma code_nonzero (x : ascii) : x ≠ NUL → code x ≠ 0.
Proof. intros Hx H. apply Hx. apply code_eq. exact H. Qed.

Lemma bytes_cmp_eq (a b : list ascii) :
  Forall (λ c, c ≠ NUL) a → Forall (λ c, c ≠ NUL) b →
  bytes_cmp a b = 0 ↔ a = b.
Proof.
  intros Ha. revert b. induction Ha as [|x a Hx Ha IH]; intros b Hb.
  - destruct Hb as [|y b Hy Hb]; simpl; [done|].
    split; [|discriminate]. intros H. apply code_nonzero in Hy. lia.
  - destruct Hb as [|y b Hy Hb]; simpl.
    + split; [|discriminate]. intros H. by apply code_nonzero in Hx.
    + destruct (Z.eqb_spec (code x) (code y)) as [E|E].
      * apply code_eq in E as ->. rewrite IH by done. split; [by intros ->|by intros [= ->]].
      * split; [lia|]. intros [= -> _]. done.
Qed.

Lemma strcmp_eq (a b : cbuf) : strcmp a b = 0 ↔ cstr a = cstr b.
Proof. apply bytes_cmp_eq; apply cstr_nonul. Qed.

Lemma strncmp_eq (a b : cbuf) (n : nat) :
  strncmp a b n = 0 ↔ take n (cstr a) = take n (cstr b).
Proof.
  apply bytes_cmp_eq; (eapply Forall_take; apply cstr_nonul).
Qed.

Lemma is_prefix_spec (key s : list ascii) :
  is_prefix key s = true ↔ key `prefix_of` s.
Proof.
  revert s. induction key as [|k key IH]; intros s; simpl.
  - split; [intros _; apply prefix_nil|done].
  - destruct s as [|c s].
    + split; [discriminate|]. intros H. by apply prefix_nil_not in H.
    + rewrite andb_true_iff, Ascii.eqb_eq, IH. split.
      * intros [-> H]. by apply prefix_cons.
      * intros H. split; [by apply prefix_cons_inv_1 in H|by apply prefix_cons_inv_2 in H].
Qed.

Lemma find_sub_spec (key s : list ascii) :
  find_sub key s ≠ None ↔ ∃ pre post, s = pre ++ key ++ post.
Proof.
  induction s as [|c s IH]; simpl.
  - destruct (is_prefix key []) eqn:E.
    + apply is_prefix_spec in E as [post E]. split; [|done]. intros _.
      exists [], post. done.
    + split; [done|]. intros (pre & post & H). exfalso.
      symmetry in H. apply app_eq_nil in H as [-> H]. apply app_eq_nil in H as [-> ->].
      simpl in E. discriminate.
  - destruct (is_prefix key (c :: s)) eqn:E.
    + apply is_prefix_spec in E as [post E]. split; [|done]. intros _.
      exists [], post. done.
    + destruct (find_sub key s) as [i|] eqn:F; simpl.
      * split; [|done]. intros _. destruct IH as [IH _].
        destruct IH as (pre & post & ->); [done|]. by exists (c :: pre), post.
      * split; [done|]. intros (pre & post & H). destruct pre as [|c' pre].
        -- simpl in H. assert (is_prefix key (c :: s) = true) as E'.
           { apply is_prefix_spec. by exists post. }
           congruence.
        -- injection H as -> ->. destruct IH as [_ IH]. apply IH. by exists pre, post.
Qed.

Lemma to_int_small (z : Z) : 0 ≤ z ≤ INT_MAX → to_int z = z.
Proof.
  unfold to_int, INT_MAX. intros H.
  rewrite Z.mod_small by lia. lia.
Qed.

Lemma to_size_small (z : Z) : 0 ≤ z ≤ INT_MAX → to_size z = z.
Proof. unfold to_size, INT_MAX. intros H. apply Z.mod_small. lia. Qed.

End cstr_facts.

(** ** Glob engine *)

Section glob_facts.
Import CStr Glob.

Lemma star_scan_spec (glob : cbuf) (n i : Z) (steps : nat) :
  star_scan glob n i steps = true ↔
  ∀ j, i ≤ j < i + Z.of_nat steps → char_at glob j = STAR → j = 0 ∨ j = n - 1.
Proof.
  revert i. induction steps as [|k IH]; intros i; simpl star_scan.
  - split; [intros _ j Hj; lia|done].
  - destruct (Ascii.eqb (char_at glob i) STAR) eqn:E; simpl.
    + apply Ascii.eqb_eq in E.
      destruct (Z.eqb_spec i 0) as [E0|E0]; simpl.
      * rewrite IH. split.
        -- intros H j Hj Hs. destruct (decide (j = i)) as [->|]; [by left|].
           apply H; [lia|done].
        -- intros H j Hj Hs. apply H; [lia|done].
      * destruct (Z.eqb_spec i (n - 1)) as [E1|E1]; simpl.
        -- rewrite IH. split.
           ++ intros H j Hj Hs. destruct (decide (j = i)) as [->|]; [by right|].
              apply H; [lia|done].
           ++ intros H j Hj Hs. apply H; [lia|done].
        -- split; [discriminate|]. intros H. exfalso.
           destruct (H i) as [?|?]; [lia|done|done|done].
    + rewrite IH. split.
      * intros H j Hj Hs. destruct (decide (j = i)) as [->|].
        -- rewrite Hs in E. discriminate.
        -- apply H; [lia|done].
      * intros H j Hj Hs. apply H; [lia|done].
Qed.

Lemma is_valid_glob_spec (glob : cbuf) :
  Z.of_nat (strlen glob) ≤ INT_MAX →
  is_valid_glob (Some glob) = true ↔ spec_valid (cstr glob).
Proof.
  intros Hlen. unfold is_valid_glob, spec_valid.
  rewrite to_int_small by lia.
  assert (Hstar : star_scan glob (Z.of_nat (strlen glob)) 0 (Z.to_nat (Z.of_nat (strlen glob))) = true ↔
    ∀ i : nat, cstr glob !! i = Some STAR → i = 0%nat ∨ i = (length (cstr glob) - 1)%nat).
  { rewrite star_scan_spec. fold (strlen glob). split.
    - intros H i Hi. pose proof (lookup_lt_Some _ _ _ Hi) as Hlt. fold (strlen glob) in Hlt.
      destruct (H (Z.of_nat i)) as [?|?]; [lia| |lia|lia].
      apply char_at_star; [lia|]. rewrite Nat2Z.id. split; [lia|done].
    - intros H j Hj Hs. apply char_at_star in Hs as [_ Hs]; [|lia].
      apply H in Hs. lia. }
  assert (Hdd : strcmp glob (lit "**") = 0 ↔ cstr glob = [STAR; STAR]).
  { rewrite strcmp_eq. done. }
  destruct (Z.eqb_spec (Z.of_nat (strlen glob)) 0) as [E0|E0].
  { split. { intros HH. discriminate HH. } intros [H _]. unfold strlen in E0.
    destruct (cstr glob); [done|simpl in E0; lia]. }
  destruct (star_scan _ _ _ _) eqn:Es; cbn [negb].
  - destruct (Z.eqb_spec (strcmp glob (lit "**")) 0) as [Ed|Ed].
    + split; [done|]. intros (_ & _ & H). by apply Hdd in Ed.
    + split; [|done]. intros _. split; [|split].
      * intros H. unfold strlen in E0. rewrite H in E0. done.
      * by apply Hstar.
      * intros H. by apply Hdd in H.
  - split; [done|]. intros (_ & H & _). apply Hstar in H. discriminate.
Qed.

Lemma suffix_drop {A} (l1 l2 : list A) :
  (length l1 ≤ length l2)%nat →
  drop (length l2 - length l1) l2 = l1 ↔ l1 `suffix_of` l2.
Proof.
  intros Hl. split.
  - intros H. exists (take (length l2 - length l1) l2).
    rewrite <- (take_drop (length l2 - length l1) l2) at 1. by rewrite H.
  - intros [k ->]. rewrite length_app.
    replace (length k + length l1 - length l1)%nat with (length k) by lia.
    by rewrite drop_app_length.
Qed.

Lemma prefix_take {A} (p s : list A) :
  take (length p) s = p ↔ p `prefix_of` s.
Proof.
  split.
  - intros H. exists (drop (length p) s). rewrite <- H at 1. by rewrite take_drop.
  - intros [k ->]. by rewrite take_app_length.
Qed.

(** The pattern buffer of the substring branch, while its last star is
    overwritten, denotes from offset 1 the inner slice of the pattern. *)
Lemma glob_key_inner (glob : cbuf) :
  (2 ≤ strlen glob)%nat →
  cstr (drop 1 (glob_key glob (Z.of_nat (strlen glob)))) = inner (cstr glob).
Proof.
  intros Hn. unfold glob_key, store, inner.
  destruct (Z.ltb_spec (Z.of_nat (strlen glob) - 1) 0); [lia|].
  replace (Z.to_nat (Z.of_nat (strlen glob) - 1)) with (strlen glob - 1)%nat by lia.
  assert (cstr (<[(strlen glob - 1)%nat:=NUL]> glob) = take (strlen glob - 1) (cstr glob)) as Hk.
  { apply cstr_insert_nul. lia. }
  rewrite cstr_drop.
  - rewrite Hk. fold (strlen glob). rewrite take_drop_commute.
    do 2 f_equal. lia.
  - unfold strlen at 1. rewrite Hk, length_take. fold (strlen glob). lia.
Qed.

Lemma store_restore (glob : cbuf) (i : Z) (c : ascii) :
  char_at glob i = STAR → store (store glob i c) i STAR = glob.
Proof.
  unfold char_at, store. destruct (Z.ltb_spec i 0); [done|].
  destruct (glob !! Z.to_nat i) as [x|] eqn:E; simpl.
  - intros ->. rewrite list_insert_insert_eq. by apply list_insert_id.
  - intros Hs. discriminate.
Qed.

Lemma star_at_head (glob : cbuf) :
  Ascii.eqb (char_at glob 0) STAR = bool_decide (head (cstr glob) = Some STAR).
Proof.
  apply eq_true_iff_eq. rewrite Ascii.eqb_eq, bool_decide_eq_true.
  rewrite char_at_star by lia. rewrite head_lookup. simpl. intuition lia.
Qed.

Lemma star_at_last (glob : cbuf) :
  Ascii.eqb (char_at glob (Z.of_nat (strlen glob) - 1)) STAR
  = bool_decide (last (cstr glob) = Some STAR).
Proof.
  apply eq_true_iff_eq. rewrite Ascii.eqb_eq, bool_decide_eq_true.
  rewrite char_at_star by lia. rewrite last_lookup. fold (strlen glob).
  replace (Z.to_nat (Z.of_nat (strlen glob) - 1)) with (pred (strlen glob)) by lia.
  split; [by intros [_ ?]|]. intros H. split; [|done].
  apply lookup_lt_Some in H. fold (strlen glob) in H. lia.
Qed.

(** [glob_matches] never changes either buffer. *)
Lemma glob_matches_frame (glob s : cbuf) :
  snd (glob_matches glob s) = (glob, s).
Proof.
  unfold glob_matches.
  repeat match goal with
         | |- context [if ?b then _ else _] => destruct b eqn:?
         end; simpl; try done.
  unfold glob_key. rewrite store_restore; [done|].
  apply andb_true_iff in Heqb0 as [_ H]. by apply Ascii.eqb_eq in H.
Qed.

End glob_facts.

(** C3: for a validated pattern, [glob_matches] is the always-true match
    for the lone star, a substring match of the inner slice between two stars,
    a suffix match after a leading star, a prefix match before a trailing
    star, and byte-for-byte equality otherwise. *)
Theorem glob_matches_semantics (glob s : cbuf) :
  Z.of_nat (strlen glob) ≤ INT_MAX →
  is_valid_glob (Some glob) = true →
  let g := cstr glob in
  let subj := cstr s in
  (g = [STAR] → glob_accepts glob s = true) ∧
  (head g = Some STAR → last g = Some STAR → (1 < length g)%nat →
     (glob_accepts glob s = true ↔ infix_of (inner g) subj)) ∧
  (head g = Some STAR → last g ≠ Some STAR →
     (glob_accepts glob s = true ↔ drop 1 g `suffix_of` subj)) ∧
  (head g ≠ Some STAR → last g = Some STAR →
     (glob_accepts glob s = true ↔ take (length g - 1) g `prefix_of` subj)) ∧
  (head g ≠ Some STAR → last g ≠ Some STAR →
     (glob_accepts glob s = true ↔ subj = g)).
Proof.
  intros Hlen Hvalid.
  apply is_valid_glob_spec in Hvalid as (Hne & _ & _); [|done].
  assert (1 ≤ strlen glob)%nat as Hn1.
  { unfold strlen. destruct (cstr glob); [done|simpl; lia]. }
  intros g subj.
  unfold glob_accepts, glob_matches.
  rewrite to_int_small by lia.
  rewrite star_at_head, star_at_last. fold g.
  assert (Z.of_nat (strlen glob) = Z.of_nat (length g)) as Hng by done.
  repeat split.
  - intros Hg. rewrite Hng, Hg. simpl. done.
  - rename H into Hh, H0 into Hl, H1 into Hlt.
    rewrite (bool_decide_eq_true_2 _ Hh), (bool_decide_eq_true_2 _ Hl).
    destruct (Z.eqb_spec (Z.of_nat (strlen glob)) 1) as [E|E]; [lia|]. simpl.
    rewrite bool_decide_eq_true. unfold strstr.
    rewrite glob_key_inner by (unfold strlen; fold g; lia).
    fold g subj. intros Hs. by apply find_sub_spec.
  - rename H into Hh, H0 into Hl, H1 into Hlt.
    rewrite (bool_decide_eq_true_2 _ Hh), (bool_decide_eq_true_2 _ Hl).
    destruct (Z.eqb_spec (Z.of_nat (strlen glob)) 1) as [E|E]; [lia|]. simpl.
    rewrite bool_decide_eq_true. unfold strstr.
    rewrite glob_key_inner by (unfold strlen; fold g; lia).
    fold g subj. intros Hs. by apply find_sub_spec.
  - rename H into Hh, H0 into Hl.
    rewrite (bool_decide_eq_true_2 _ Hh), (bool_decide_eq_false_2 _ Hl).
    rewrite andb_false_r. simpl.
    destruct (Z.eqb_spec (Z.of_nat (strlen glob)) 1) as [E|E].
    { exfalso. assert (length g = 1%nat) as Eg by (unfold g; fold (strlen glob); lia).
      clearbody g. destruct g as [|x [|y l]]; simpl in *; done || lia. }
    simpl. rewrite to_size_small by lia.
    destruct (Z.ltb_spec (Z.of_nat (strlen s)) (Z.of_nat (strlen glob) - 1)) as [Hs|Hs]; simpl.
    + done.
    + rewrite Z.eqb_eq, strcmp_eq. rewrite !cstr_drop by lia.
      subst g subj. unfold strlen in *.
      intros Hd. apply suffix_drop; [rewrite length_drop; lia|].
      rewrite length_drop. rewrite <- Hd. f_equal. lia.
  - rename H into Hh, H0 into Hl.
    rewrite (bool_decide_eq_true_2 _ Hh), (bool_decide_eq_false_2 _ Hl).
    rewrite andb_false_r. simpl.
    destruct (Z.eqb_spec (Z.of_nat (strlen glob)) 1) as [E|E].
    { exfalso. assert (length g = 1%nat) as Eg by (unfold g; fold (strlen glob); lia).
      clearbody g. destruct g as [|x [|y l]]; simpl in *; done || lia. }
    simpl. rewrite to_size_small by lia.
    destruct (Z.ltb_spec (Z.of_nat (strlen s)) (Z.of_nat (strlen glob) - 1)) as [Hs|Hs]; simpl.
    + subst g subj. unfold strlen in *.
      intros Hsuf. apply suffix_length in Hsuf. rewrite length_drop in Hsuf. lia.
    + rewrite Z.eqb_eq, strcmp_eq. rewrite !cstr_drop by lia.
      subst g subj. unfold strlen in *.
      intros Hsuf. apply suffix_drop in Hsuf; [|rewrite length_drop; lia].
      rewrite length_drop in Hsuf. rewrite <- Hsuf. f_equal. lia.
  - rename H into Hh, H0 into Hl.
    rewrite (bool_decide_eq_false_2 _ Hh), (bool_decide_eq_true_2 _ Hl).
    rewrite andb_false_r. simpl. rewrite to_size_small by lia.
    rewrite Z.eqb_eq, strncmp_eq. subst g subj. unfold strlen in *.
    replace (Z.to_nat (Z.of_nat (length (cstr glob)) - 1))
      with (length (take (length (cstr glob) - 1) (cstr glob)))
      by (rewrite length_take; lia).
    intros Ht. apply prefix_take. rewrite Ht.
    rewrite length_take. f_equal. lia.
  - rename H into Hh, H0 into Hl.
    rewrite (bool_decide_eq_false_2 _ Hh), (bool_decide_eq_true_2 _ Hl).
    rewrite andb_false_r. simpl. rewrite to_size_small by lia.
    rewrite Z.eqb_eq, strncmp_eq. subst g subj. unfold strlen in *.
    replace (Z.to_nat (Z.of_nat (length (cstr glob)) - 1))
      with (length (take (length (cstr glob) - 1) (cstr glob)))
      by (rewrite length_take; lia).
    intros Hp. apply prefix_take in Hp. rewrite Hp.
    rewrite length_take. f_equal. lia.
  - rename H into Hh, H0 into Hl.
    rewrite (bool_decide_eq_false_2 _ Hh), (bool_decide_eq_false_2 _ Hl).
    rewrite andb_false_r. simpl. rewrite Z.eqb_eq, strcmp_eq. done.
  - rename H into Hh, H0 into Hl.
    rewrite (bool_decide_eq_false_2 _ Hh), (bool_decide_eq_false_2 _ Hl).
    rewrite andb_false_r. simpl. rewrite Z.eqb_eq, strcmp_eq. done.
Qed.


(** The theorem at the pattern "*abc*" and the subject "ababc". *)
Lemma glob_matches_semantics_witness :
  Z.of_nat (strlen (lit "*abc*")) ≤ INT_MAX ∧
  is_valid_glob (Some (lit "*abc*")) = true ∧
  (glob_accepts (lit "*abc*") (lit "ababc") = true
   ↔ infix_of (inner (cstr (lit "*abc*"))) (cstr (lit "ababc"))).
Proof.
  split; [by vm_compute|]. split; [reflexivity|].
  apply (glob_matches_semantics (lit "*abc*") (lit "ababc")).
  - by vm_compute.
  - reflexivity.
  - reflexivity.
  - reflexivity.
  - simpl. lia.
Defined.

(** The matcher honours no metacharacter besides the two stars and
    compares bytes exactly. *)
Example glob_matches_is_literal :
  glob_accepts (lit "a?c") (lit "abc") = false ∧
  glob_accepts (lit "[a]bc") (lit "abc") = false ∧
  glob_accepts (lit "abc") (lit "ABC") = false ∧
  glob_accepts (lit "Abc*") (lit "abcd") = false ∧
  glob_accepts (lit "a?c") (lit "a?c") = true.
Proof. repeat split; reflexivity. Qed.

(** The glob laws of the specification. *)
Example glob_laws :
  glob_accepts (lit "*") (lit "") = true ∧
  glob_accepts (lit "abc") (lit "abc") = true ∧
  glob_accepts (lit "abc") (lit "abcd") = false ∧
  glob_accepts (lit "abc*") (lit "abcdef") = true ∧
  glob_accepts (lit "abc*") (lit "abxdef") = false ∧
  glob_accepts (lit "*xyz") (lit "wwwxyz") = true ∧
  glob_accepts (lit "*xyz") (lit "xyzw") = false ∧
  glob_accepts (lit "*abc*") (lit "xxabcyy") = true ∧
  glob_accepts (lit "*abc*") (lit "ababc") = true ∧
  glob_accepts (lit "*abc*") (lit "ab") = false.
Proof. repeat split; reflexivity. Qed.

(** C10: [glob_matches] leaves the pattern buffer and the subject buffer as
    they were.  In the substring branch, which runs when the byte at [n - 1] is
    a star, the key buffer holds NUL at [n - 1] and the second store gives the
    pattern back. *)
Theorem glob_matches_leaves_buffers (glob s : cbuf) :
  snd (glob_matches glob s) = (glob, s) ∧
  ∀ n, char_at glob (n - 1) = STAR →
       char_at (glob_key glob n) (n - 1) = NUL ∧
       glob_key glob n ≠ glob ∧
       store (glob_key glob n) (n - 1) STAR = glob.
Proof.
  split; [apply glob_matches_frame|].
  intros n Hs. split; [|split].
  - unfold glob_key, store, char_at in *.
    destruct (Z.ltb_spec (n - 1) 0); [done|].
    destruct (glob !! Z.to_nat (n - 1)) as [c|] eqn:E; [|done].
    rewrite list_lookup_insert_eq; [done|]. by apply lookup_lt_Some in E.
  - intros Heq. unfold glob_key, store, char_at in *.
    destruct (Z.ltb_spec (n - 1) 0); [done|].
    destruct (glob !! Z.to_nat (n - 1)) as [c|] eqn:E; [|done].
    simpl in Hs. subst c.
    assert (<[Z.to_nat (n - 1):=NUL]> glob !! Z.to_nat (n - 1) = Some NUL) as Hk.
    { rewrite list_lookup_insert_eq; [done|]. by apply lookup_lt_Some in E. }
    rewrite Heq, E in Hk. done.
  - by apply store_restore.
Qed.

(** ** Rules *)

Section rule_facts.

Lemma allow_glob_invalid (h : heap) (att : mass_attacher) (pattern : option cbuf) :
  is_valid_glob pattern = false →
  mass_attacher__allow_glob h att pattern = (- EINVAL, att, h).
Proof. intros H. unfold mass_attacher__allow_glob. by rewrite H. Qed.

Lemma deny_glob_invalid (h : heap) (att : mass_attacher) (pattern : option cbuf) :
  is_valid_glob pattern = false →
  mass_attacher__deny_glob h att pattern = (- EINVAL, att, h).
Proof. intros H. unfold mass_attacher__deny_glob. by rewrite H. Qed.

Lemma alloc_generous (h : heap) :
  generous h → (alloc h).1 = true ∧ generous (alloc h).2.
Proof.
  intros H. destruct H as [|ok h -> H]; simpl; [split; [done|constructor]|done].
Qed.

Lemma deny_glob_valid (h : heap) (att : mass_attacher) (g : cbuf) :
  generous h → is_valid_glob (Some g) = true →
  ∃ h', generous h' ∧
    mass_attacher__deny_glob h att (Some g)
    = (0, set_deny_globs att (deny_globs att ++ [ fresh_rule g ]), h').
Proof.
  intros Hh Hv. unfold mass_attacher__deny_glob. rewrite Hv. simpl.
  destruct (alloc_generous h Hh) as [E1 Hh1]. destruct (alloc h) as [ok1 h1]. simpl in *. subst ok1.
  destruct (alloc_generous h1 Hh1) as [E2 Hh2]. destruct (alloc h1) as [ok2 h2]. simpl in *. subst ok2.
  simpl. by exists h2.
Qed.

Lemma allow_glob_valid (h : heap) (att : mass_attacher) (g : cbuf) :
  generous h → is_valid_glob (Some g) = true →
  ∃ h', generous h' ∧
    mass_attacher__allow_glob h att (Some g)
    = (0, set_allow_globs att (allow_globs att ++ [ fresh_rule g ]), h').
Proof.
  intros Hh Hv. unfold mass_attacher__allow_glob. rewrite Hv. simpl.
  destruct (alloc_generous h Hh) as [E1 Hh1]. destruct (alloc h) as [ok1 h1]. simpl in *. subst ok1.
  destruct (alloc_generous h1 Hh1) as [E2 Hh2]. destruct (alloc h1) as [ok2 h2]. simpl in *. subst ok2.
  simpl. by exists h2.
Qed.

Lemma deny_enforced_spec (globs : list cbuf) (h : heap) (att : mass_attacher) :
  generous h → Forall (λ g, is_valid_glob (Some g) = true) globs →
  ∃ h', generous h' ∧
    deny_enforced h att globs
    = (Some (set_deny_globs att (deny_globs att ++ (fresh_rule <$> globs))), h').
Proof.
  intros Hh Hv. revert h att Hh. induction Hv as [|g globs Hg Hv IH]; intros h att Hh.
  - exists h. split; [done|]. simpl. rewrite app_nil_r. by destruct att.
  - simpl. destruct (deny_glob_valid h att g Hh Hg) as (h1 & Hh1 & ->).
    cbv beta iota zeta. change (negb (0 =? 0)) with false. cbv iota.
    fold (fresh_rule g).
    destruct (IH h1 (set_deny_globs att (deny_globs att ++ [fresh_rule g])) Hh1)
      as (h2 & Hh2 & ->).
    exists h2. split; [done|]. simpl. by rewrite <- app_assoc.
Qed.

Lemma enforced_deny_globs_valid :
  Forall (λ g, is_valid_glob (Some g) = true) enforced_deny_globs.
Proof. repeat constructor. Qed.

(** With options, [mass_attacher__new] installs the enforced denies, in
    order, and nothing else. *)
Lemma new_with_opts (h : heap) (sk : skeleton) (opts : Opts.mass_attacher_opts) :
  generous h →
  ∃ att h', mass_attacher__new h (Some sk) (Some opts) = (Some att, h') ∧
    deny_globs att = fresh_rule <$> enforced_deny_globs ∧
    allow_globs att = [] ∧ func_infos att = [] ∧ skel att = sk.
Proof.
  intros Hh. unfold mass_attacher__new.
  destruct (alloc_generous h Hh) as [E1 Hh1]. destruct (alloc h) as [ok1 h1].
  simpl in E1, Hh1. subst ok1. cbv beta iota zeta. simpl negb. cbv iota.
  match goal with
  | |- context [deny_enforced h1 ?a _] =>
      destruct (deny_enforced_spec enforced_deny_globs h1 a Hh1 enforced_deny_globs_valid)
        as (h2 & Hh2 & ->)
  end.
  eexists _, h2. split; [done|]. done.
Qed.

End rule_facts.

(** C4: a pattern passes validation iff it is non-null, non-empty, has its
    stars only at the first and last position and is not "**"; the eight
    patterns of the specification validate as it says; and [allow_glob] and
    [deny_glob] answer an invalid pattern with [-EINVAL] and add no rule. *)
Theorem glob_validation (glob : cbuf) (bad : option cbuf) (h : heap) (att : mass_attacher) :
  Z.of_nat (strlen glob) ≤ INT_MAX →
  is_valid_glob bad = false →
  (is_valid_glob (Some glob) = true ↔ spec_valid (cstr glob)) ∧
  is_valid_glob None = false ∧
  (is_valid_glob (Some (lit "*")) = true ∧ is_valid_glob (Some (lit "*x")) = true ∧
   is_valid_glob (Some (lit "x*")) = true ∧ is_valid_glob (Some (lit "*x*")) = true ∧
   is_valid_glob (Some (lit "x")) = true) ∧
  (is_valid_glob (Some (lit "")) = false ∧ is_valid_glob (Some (lit "**")) = false ∧
   is_valid_glob (Some (lit "a*b")) = false) ∧
  mass_attacher__allow_glob h att bad = (- EINVAL, att, h) ∧
  mass_attacher__deny_glob h att bad = (- EINVAL, att, h).
Proof.
  intros Hlen Hbad.
  split; [by apply is_valid_glob_spec|].
  split; [reflexivity|].
  split; [repeat split; reflexivity|].
  split; [repeat split; reflexivity|].
  split; [by apply allow_glob_invalid|by apply deny_glob_invalid].
Qed.

(** The theorem at the pattern "*x*", with "a*b" as the invalid one. *)
Lemma glob_validation_witness :
  Z.of_nat (strlen (lit "*x*")) ≤ INT_MAX ∧
  is_valid_glob (Some (lit "a*b")) = false ∧
  (is_valid_glob (Some (lit "*x*")) = true ↔ spec_valid (cstr (lit "*x*"))) ∧
  mass_attacher__deny_glob [] (calloc_attacher Sample.template) (Some (lit "a*b"))
  = (- EINVAL, calloc_attacher Sample.template, []).
Proof.
  split; [by vm_compute|]. split; [reflexivity|].
  pose proof (glob_validation (lit "*x*") (Some (lit "a*b")) [] (calloc_attacher Sample.template))
    as H.
  destruct H as (H1 & _ & _ & _ & _ & H2); [by vm_compute|reflexivity|].
  split; [exact H1|exact H2].
Defined.

(** C1 (the code at the input where the claim fails): without options,
    [mass_attacher__new] returns an attacher that has no deny rule. *)
Theorem new_without_opts_has_no_deny (sk : skeleton) :
  mass_attacher__new [] (Some sk) None = (Some (calloc_attacher sk), []) ∧
  deny_globs (calloc_attacher sk) = [] ∧
  filter_func (calloc_attacher sk) (lit "bpf_get_smp_processor_id")
  = (true, calloc_attacher sk).
Proof. repeat split. Qed.

(** ** The filter *)

Section filter_facts.

Lemma rule_eta (r : glob_rule) : {| glob := glob r; matches := matches r |} = r.
Proof. by destruct r. Qed.

Lemma scan_globs_cases (rules : list glob_rule) (N : cbuf) :
  (¬ some_hit rules N ∧ scan_globs rules N = (false, rules)) ∨
  (∃ j r, first_hit rules N j r ∧ scan_globs rules N = (true, <[j := bump r]> rules)).
Proof.
  induction rules as [|r rules IH]; simpl.
  - left. split; [|done]. intros (r & Hr & _). by apply elem_of_nil in Hr.
  - pose proof (glob_matches_frame (glob r) N) as Hf.
    destruct (glob_matches (glob r) N) as [hit [pattern s]] eqn:E. simpl in Hf.
    injection Hf as -> ->.
    assert (glob_accepts (glob r) N = hit) as Hhit by (unfold glob_accepts; by rewrite E).
    destruct hit; simpl.
    + right. exists 0%nat, r. split; [|done].
      split; [done|]. split; [done|]. intros k r' Hk. lia.
    + destruct IH as [[Hno ->]|(j & r' & (Hj & Hh & Hfirst) & ->)].
      * left. rewrite rule_eta. split; [|done].
        intros (r' & Hr' & Hh). apply elem_of_cons in Hr' as [->|Hr'].
        -- unfold rule_hits in Hh. congruence.
        -- apply Hno. by exists r'.
      * right. exists (S j), r'. rewrite rule_eta. split; [|done].
        split; [done|]. split; [done|].
        intros [|k] r'' Hk Hl; simpl in Hl.
        -- injection Hl as <-. unfold rule_hits. congruence.
        -- apply (Hfirst k); [lia|done].
Qed.

Lemma first_hit_some (rules : list glob_rule) (N : cbuf) (j : nat) (r : glob_rule) :
  first_hit rules N j r → some_hit rules N.
Proof.
  intros (Hj & Hh & _). exists r. split; [|done]. by eapply list_elem_of_lookup_2.
Qed.

Lemma sum_matches_bump (rules : list glob_rule) (j : nat) (r : glob_rule) :
  rules !! j = Some r →
  sum_matches (<[j := bump r]> rules) = sum_matches rules + 1.
Proof.
  revert j. induction rules as [|x rules IH]; intros [|j] H; simpl in *; try done.
  - injection H as ->. lia.
  - rewrite (IH j H). lia.
Qed.

Lemma some_hit_nil (N : cbuf) : ¬ some_hit [] N.
Proof. intros (x & Hx & _). by apply elem_of_nil in Hx. Qed.

Lemma allow_globs_set_deny (att : mass_attacher) (v : list glob_rule) :
  allow_globs (set_deny_globs att v) = allow_globs att.
Proof. done. Qed.

End filter_facts.

(** C2: the filter on a candidate name [N].  If a deny rule matches, the
    first one that does has its counter incremented and [N] is rejected.
    Otherwise, with at least one allow rule, [N] is accepted iff an allow rule
    matches, and then the first one that does has its counter incremented.
    Otherwise [N] is accepted.  A candidate that matches a rule increments
    exactly one counter, by one; one that matches none increments none. *)
Theorem filter_resolution (att : mass_attacher) (N : cbuf) :
  let accepted := (filter_func att N).1 in
  let att' := (filter_func att N).2 in
  (some_hit (deny_globs att) N →
     accepted = false ∧
     allow_globs att' = allow_globs att ∧
     ∃ j r, first_hit (deny_globs att) N j r ∧
            deny_globs att' = <[j := bump r]> (deny_globs att)) ∧
  (¬ some_hit (deny_globs att) N → allow_globs att ≠ [] →
     deny_globs att' = deny_globs att ∧
     (accepted = true ↔ some_hit (allow_globs att) N) ∧
     (some_hit (allow_globs att) N →
        ∃ j r, first_hit (allow_globs att) N j r ∧
               allow_globs att' = <[j := bump r]> (allow_globs att)) ∧
     (¬ some_hit (allow_globs att) N → allow_globs att' = allow_globs att)) ∧
  (¬ some_hit (deny_globs att) N → allow_globs att = [] →
     accepted = true ∧ deny_globs att' = deny_globs att ∧ allow_globs att' = []) ∧
  (some_hit (deny_globs att) N ∨ some_hit (allow_globs att) N →
     sum_matches (deny_globs att') + sum_matches (allow_globs att')
     = sum_matches (deny_globs att) + sum_matches (allow_globs att) + 1 ∧
     ((∃ j r, deny_globs att !! j = Some r ∧
              deny_globs att' = <[j := bump r]> (deny_globs att) ∧
              allow_globs att' = allow_globs att) ∨
      (∃ j r, allow_globs att !! j = Some r ∧
              allow_globs att' = <[j := bump r]> (allow_globs att) ∧
              deny_globs att' = deny_globs att))) ∧
  (¬ some_hit (deny_globs att) N → ¬ some_hit (allow_globs att) N →
     deny_globs att' = deny_globs att ∧ allow_globs att' = allow_globs att).
Proof.
  intros accepted att'. subst accepted att'. unfold filter_func.
  destruct (scan_globs_cases (deny_globs att) N)
    as [[Hnd ->]|(j & r & Hfd & ->)].
  - (* no deny rule matches *)
    cbv beta iota zeta. rewrite allow_globs_set_deny.
    unfold allow_glob_cnt. rewrite allow_globs_set_deny.
    destruct (decide (allow_globs att = [])) as [Ea|Ea].
    + rewrite Ea. simpl. pose proof (some_hit_nil N) as Hnil.
      split; [done|]. split; [done|]. split; [done|].
      split; [intros [H|H]; done|done].
    + assert (negb (Z.of_nat (length (allow_globs att)) =? 0) = true) as ->.
      { destruct (allow_globs att); [done|]. simpl length.
        destruct (Z.eqb_spec (Z.of_nat (S (length l))) 0); [lia|done]. }
      destruct (scan_globs_cases (allow_globs att) N)
        as [[Hna ->]|(k & q & Hfa & ->)]; simpl.
      * split; [done|]. split.
        { intros _ _. split; [done|]. split; [split; [done|]|done].
          intros Hs. done. }
        split; [done|]. split; [intros [H|H]; done|done].
      * pose proof (first_hit_some _ _ _ _ Hfa) as Hsa.
        pose proof Hfa as (Hk & Hh & Hfirst).
        split; [done|]. split.
        { intros _ _. split; [done|]. split; [done|]. split; [|done].
          intros _. by exists k, q. }
        split; [done|]. split; [|done].
        intros _. split; [rewrite (sum_matches_bump _ _ _ Hk); lia|].
        right. by exists k, q.
  - (* a deny rule matches *)
    pose proof (first_hit_some _ _ _ _ Hfd) as Hsd.
    pose proof Hfd as (Hj & Hh & Hfirst). simpl.
    split.
    { intros _. split; [done|]. split; [done|]. by exists j, r. }
    split; [done|]. split; [done|]. split; [|done].
    intros _. split; [rewrite (sum_matches_bump _ _ _ Hj); lia|].
    left. by exists j, r.
Qed.

(** ** The ABI check *)

Section btf_facts.
Import Btf.

Lemma skip_mods_strips (b : btf) (t : btf_type) (d : nat) (u : btf_type) :
  strips_to b t d u → ∀ fuel, (d ≤ fuel)%nat → skip_mods fuel b (Some t) = Ret u.
Proof.
  induction 1 as [t Ht|t t' d u Ht Hl _ IH]; intros fuel Hf.
  - destruct fuel; simpl; by rewrite Ht.
  - destruct fuel as [|fuel]; [lia|]. simpl. rewrite Ht, Hl. apply IH. lia.
Qed.

Lemma skip_mods_ret (fuel : nat) (b : btf) (t : option btf_type) (u : btf_type) :
  skip_mods fuel b t = Ret u →
  ∃ t0 d, t = Some t0 ∧ (d ≤ fuel)%nat ∧ strips_to b t0 d u.
Proof.
  revert t. induction fuel as [|fuel IH]; intros [t|] H; simpl in H; try done.
  - destruct (btf_is_mod t || btf_is_typedef t) eqn:Ht; [done|].
    injection H as ->. exists u, 0%nat. split; [done|]. split; [lia|]. by constructor.
  - destruct (btf_is_mod t || btf_is_typedef t) eqn:Ht.
    + apply IH in H as (t' & d & Hl & Hd & Hs).
      exists t, (S d). split; [done|]. split; [lia|]. by econstructor.
    + injection H as ->. exists u, 0%nat. split; [done|]. split; [lia|]. by constructor.
Qed.

Lemma strips_to_end (b : btf) (t : btf_type) (d : nat) (u : btf_type) :
  strips_to b t d u → btf_is_mod u || btf_is_typedef u = false.
Proof. induction 1; done. Qed.

Lemma strips_to_det (b : btf) (t : btf_type) (d d' : nat) (u u' : btf_type) :
  strips_to b t d u → strips_to b t d' u' → d = d' ∧ u = u'.
Proof.
  intros H. revert d' u'. induction H as [t Ht|t t' d u Ht Hl _ IH]; intros d' u' H'.
  - inversion H'; subst; [done|congruence].
  - inversion H' as [|? t'' ? ? Ht' Hl' Hs']; subst; [congruence|].
    rewrite Hl in Hl'. injection Hl' as <-.
    destruct (IH _ _ Hs') as [-> ->]. done.
Qed.

Lemma kind_is (k : btf_kind) (t : btf_type) : btf_is_kind k t = true ↔ kind t = k.
Proof. unfold btf_is_kind. apply bool_decide_eq_true. Qed.

Lemma arg_verdict (u : btf_type) :
  negb (btf_is_int u) && negb (btf_is_ptr u) && negb (btf_is_enum u) = false ↔ spec_arg_ok u.
Proof.
  unfold spec_arg_ok, btf_is_int, btf_is_ptr, btf_is_enum, btf_is_kind.
  repeat case_bool_decide; simpl; intuition congruence.
Qed.

Lemma is_arg_type_ok_true (fuel : nat) (b : btf) (t : option btf_type) :
  is_arg_type_ok fuel b t = Ret true ↔
  ∃ t0 d u, t = Some t0 ∧ (d ≤ fuel)%nat ∧ strips_to b t0 d u ∧ spec_arg_ok u.
Proof.
  unfold is_arg_type_ok. split.
  - destruct (skip_mods fuel b t) as [u| |] eqn:E; simpl; try done.
    apply skip_mods_ret in E as (t0 & d & -> & Hd & Hs).
    destruct (negb (btf_is_int u) && _ && _) eqn:Hv; simpl; [done|].
    intros _. exists t0, d, u. repeat split; try done. by apply arg_verdict.
  - intros (t0 & d & u & -> & Hd & Hs & Hu).
    rewrite (skip_mods_strips _ _ _ _ Hs fuel Hd). simpl.
    apply arg_verdict in Hu. by rewrite Hu.
Qed.

Lemma ret_verdict (b : btf) (u : btf_type) :
  (if btf_is_int u || btf_is_enum u then mret true
   else if negb (btf_is_ptr u) then mret false
   else if bool_decide (type u = 0%nat) then mret true
   else match btf__type_by_id b (type u) with
        | None => Crash
        | Some t => if negb (btf_is_composite t) then mret false else mret true
        end) = Ret true
  ↔ code_ret_ok b u.
Proof.
  unfold code_ret_ok, btf_is_int, btf_is_enum, btf_is_ptr, btf_is_composite, btf_is_kind.
  unfold mret, run_ret.
  repeat case_bool_decide; simpl; try (intuition congruence).
  destruct (btf__type_by_id b (type u)) as [p|] eqn:Hp.
  - repeat case_bool_decide; simpl.
    + split; [|done]. intros _. right. right. split; [done|]. right. exists p. auto.
    + split; [|done]. intros _. right. right. split; [done|]. right. exists p. auto.
    + split; [|done]. intros _. right. right. split; [done|]. right. exists p. auto.
    + split; [done|]. intros [?|[?|[_ [?|(q & Hq & [?|?])]]]]; try congruence.
  - split; [done|]. intros [?|[?|[_ [?|(q & Hq & _)]]]]; congruence.
Qed.

Lemma is_ret_type_ok_true (fuel : nat) (b : btf) (t : option btf_type) :
  is_ret_type_ok fuel b t = Ret true ↔
  ∃ t0 d u, t = Some t0 ∧ (d ≤ fuel)%nat ∧ strips_to b t0 d u ∧ code_ret_ok b u.
Proof.
  unfold is_ret_type_ok. split.
  - destruct (skip_mods fuel b t) as [u| |] eqn:E; simpl; try done.
    apply skip_mods_ret in E as (t0 & d & -> & Hd & Hs).
    intros Hv. apply ret_verdict in Hv. by exists t0, d, u.
  - intros (t0 & d & u & -> & Hd & Hs & Hu).
    rewrite (skip_mods_strips _ _ _ _ Hs fuel Hd). simpl.
    by apply ret_verdict.
Qed.

Lemma params_ok_true (fuel : nat) (b : btf) (ps : list btf_param) :
  params_ok fuel b ps = Ret true ↔
  Forall (λ p, param_type p ≠ 0%nat ∧
               ∃ pt d u, btf__type_by_id b (param_type p) = Some pt ∧ (d ≤ fuel)%nat ∧
                         strips_to b pt d u ∧ spec_arg_ok u) ps.
Proof.
  induction ps as [|p ps IH]; simpl.
  - split; [constructor|done].
  - case_bool_decide as Hz; simpl.
    + split; [done|]. intros H. inversion H as [|? ? [Hp _] _]; subst. done.
    + destruct (is_arg_type_ok fuel b (btf__type_by_id b (param_type p))) as [[|]| |] eqn:E; simpl.
      * rewrite IH. apply is_arg_type_ok_true in E as (pt & d & u & Hl & Hd & Hs & Hu).
        split.
        -- intros H. constructor; [|done]. split; [done|]. by exists pt, d, u.
        -- intros H. by inversion H.
      * split; [done|]. intros H. inversion H as [|? ? [_ (pt & d & u & Hl & Hd & Hs & Hu)] _]; subst.
        assert (is_arg_type_ok fuel b (btf__type_by_id b (param_type p)) = Ret true) as E'.
        { apply is_arg_type_ok_true. by exists pt, d, u. }
        congruence.
      * split; [done|]. intros H. inversion H as [|? ? [_ (pt & d & u & Hl & Hd & Hs & Hu)] _]; subst.
        assert (is_arg_type_ok fuel b (btf__type_by_id b (param_type p)) = Ret true) as E'.
        { apply is_arg_type_ok_true. by exists pt, d, u. }
        congruence.
      * split; [done|]. intros H. inversion H as [|? ? [_ (pt & d & u & Hl & Hd & Hs & Hu)] _]; subst.
        assert (is_arg_type_ok fuel b (btf__type_by_id b (param_type p)) = Ret true) as E'.
        { apply is_arg_type_ok_true. by exists pt, d, u. }
        congruence.
Qed.

(** [is_func_type_ok] accepts with [fuel] iterations per strip loop iff
    the prototype meets the conditions of the code with chains of at most
    [fuel] steps. *)
Lemma is_func_type_ok_true (fuel : nat) (b : btf) (t : btf_type) :
  is_func_type_ok fuel b t = Ret true ↔
  ∃ proto, btf__type_by_id b (type t) = Some proto ∧
    (length (params proto) ≤ 11)%nat ∧ type proto ≠ 0%nat ∧
    (∃ rt d u, btf__type_by_id b (type proto) = Some rt ∧ (d ≤ fuel)%nat ∧
               strips_to b rt d u ∧ code_ret_ok b u) ∧
    Forall (λ p, param_type p ≠ 0%nat ∧
                 ∃ pt d u, btf__type_by_id b (param_type p) = Some pt ∧ (d ≤ fuel)%nat ∧
                           strips_to b pt d u ∧ spec_arg_ok u) (params proto).
Proof.
  unfold is_func_type_ok.
  destruct (btf__type_by_id b (type t)) as [proto|] eqn:Hp.
  2:{ split; [done|]. by intros (? & ? & _). }
  unfold btf_vlen, MAX_FUNC_ARG_CNT.
  case_bool_decide as Hlen; simpl.
  { split; [done|]. intros (? & [= <-] & ? & _). lia. }
  case_bool_decide as Hty; simpl.
  { split; [done|]. intros (? & [= <-] & _ & ? & _). done. }
  destruct (is_ret_type_ok fuel b (btf__type_by_id b (type proto))) as [[|]| |] eqn:E; simpl.
  - rewrite params_ok_true.
    apply is_ret_type_ok_true in E as (rt & d & u & Hl & Hd & Hs & Hu).
    split.
    + intros H. exists proto. repeat split; try done; [lia|]. by exists rt, d, u.
    + by intros (? & [= <-] & _ & _ & _ & H).
  - split; [done|]. intros (? & [= <-] & _ & _ & (rt & d & u & Hl & Hd & Hs & Hu) & _).
    assert (is_ret_type_ok fuel b (btf__type_by_id b (type proto)) = Ret true) as E'.
    { apply is_ret_type_ok_true. by exists rt, d, u. }
    congruence.
  - split; [done|]. intros (? & [= <-] & _ & _ & (rt & d & u & Hl & Hd & Hs & Hu) & _).
    assert (is_ret_type_ok fuel b (btf__type_by_id b (type proto)) = Ret true) as E'.
    { apply is_ret_type_ok_true. by exists rt, d, u. }
    congruence.
  - split; [done|]. intros (? & [= <-] & _ & _ & (rt & d & u & Hl & Hd & Hs & Hu) & _).
    assert (is_ret_type_ok fuel b (btf__type_by_id b (type proto)) = Ret true) as E'.
    { apply is_ret_type_ok_true. by exists rt, d, u. }
    congruence.
Qed.

(** Once a check has returned or faulted, more fuel changes nothing. *)
Lemma skip_mods_settled (fuel fuel' : nat) (b : btf) (t : option btf_type) :
  skip_mods fuel b t ≠ Timeout → (fuel ≤ fuel')%nat →
  skip_mods fuel' b t = skip_mods fuel b t.
Proof.
  revert fuel' t. induction fuel as [|fuel IH]; intros fuel' [t|] H Hf; simpl in *.
  - destruct fuel'; simpl; destruct (btf_is_mod t || btf_is_typedef t); done.
  - by destruct fuel'.
  - destruct fuel' as [|fuel']; [lia|]. simpl.
    destruct (btf_is_mod t || btf_is_typedef t); [|done]. apply IH; [done|lia].
  - by destruct fuel'.
Qed.

Lemma bind_not_timeout {A B} (m : run A) (f : A → run B) :
  m ≫= f ≠ Timeout → m ≠ Timeout.
Proof. by destruct m. Qed.

Lemma is_arg_type_ok_settled (fuel fuel' : nat) (b : btf) (t : option btf_type) :
  is_arg_type_ok fuel b t ≠ Timeout → (fuel ≤ fuel')%nat →
  is_arg_type_ok fuel' b t = is_arg_type_ok fuel b t.
Proof.
  unfold is_arg_type_ok. intros H Hf. apply bind_not_timeout in H.
  by rewrite (skip_mods_settled fuel fuel').
Qed.

Lemma is_ret_type_ok_settled (fuel fuel' : nat) (b : btf) (t : option btf_type) :
  is_ret_type_ok fuel b t ≠ Timeout → (fuel ≤ fuel')%nat →
  is_ret_type_ok fuel' b t = is_ret_type_ok fuel b t.
Proof.
  unfold is_ret_type_ok. intros H Hf. apply bind_not_timeout in H.
  by rewrite (skip_mods_settled fuel fuel').
Qed.

Lemma params_ok_settled (fuel fuel' : nat) (b : btf) (ps : list btf_param) :
  params_ok fuel b ps ≠ Timeout → (fuel ≤ fuel')%nat →
  params_ok fuel' b ps = params_ok fuel b ps.
Proof.
  intros H Hf. induction ps as [|p ps IH]; simpl in *; [done|].
  case_bool_decide; [done|].
  pose proof (bind_not_timeout _ _ H) as Ha.
  rewrite (is_arg_type_ok_settled fuel fuel') by done.
  destruct (is_arg_type_ok fuel b (btf__type_by_id b (param_type p))) as [[|]| |]; simpl in *;
    try done.
  by apply IH.
Qed.

Lemma is_func_type_ok_settled (fuel fuel' : nat) (b : btf) (t : btf_type) :
  is_func_type_ok fuel b t ≠ Timeout → (fuel ≤ fuel')%nat →
  is_func_type_ok fuel' b t = is_func_type_ok fuel b t.
Proof.
  unfold is_func_type_ok. intros H Hf.
  destruct (btf__type_by_id b (type t)) as [proto|]; [|done].
  case_bool_decide; [done|]. case_bool_decide; [done|].
  pose proof (bind_not_timeout _ _ H) as Hr. apply bind_not_timeout in Hr.
  rewrite (is_ret_type_ok_settled fuel fuel') by done.
  destruct (is_ret_type_ok fuel b (btf__type_by_id b (type proto))) as [[|]| |]; simpl in *;
    try done.
  by apply params_ok_settled.
Qed.

Lemma params_fuel (b : btf) (ps : list btf_param) :
  Forall (λ p, param_type p ≠ 0%nat ∧
               ∃ pt d u, btf__type_by_id b (param_type p) = Some pt ∧
                         strips_to b pt d u ∧ spec_arg_ok u) ps →
  ∃ fuel, ∀ fuel', (fuel ≤ fuel')%nat →
    Forall (λ p, param_type p ≠ 0%nat ∧
                 ∃ pt d u, btf__type_by_id b (param_type p) = Some pt ∧ (d ≤ fuel')%nat ∧
                           strips_to b pt d u ∧ spec_arg_ok u) ps.
Proof.
  induction 1 as [|p ps [Hz (pt & d & u & Hl & Hs & Hu)] _ [fuel IH]].
  - exists 0%nat. intros. constructor.
  - exists (d `max` fuel)%nat. intros fuel' Hf. constructor.
    + split; [done|]. exists pt, d, u. repeat split; try done. lia.
    + apply IH. lia.
Qed.

Lemma is_func_type_ok_accepts (b : btf) (t : btf_type) :
  (∃ fuel, is_func_type_ok fuel b t = Ret true) ↔
  ∃ proto, btf__type_by_id b (type t) = Some proto ∧ code_func_type_ok b proto.
Proof.
  split.
  - intros [fuel H]. apply is_func_type_ok_true in H
      as (proto & Hp & Hlen & Hty & (rt & d & u & Hl & _ & Hs & Hu) & Hps).
    exists proto. split; [done|]. repeat split; try done.
    + by exists rt, d, u.
    + eapply Forall_impl; [exact Hps|]. simpl.
      intros p [Hz (pt & d' & u' & Hl' & _ & Hs' & Hu')]. split; [done|]. by exists pt, d', u'.
  - intros (proto & Hp & Hlen & Hty & (rt & d & u & Hl & Hs & Hu) & Hps).
    apply params_fuel in Hps as [fuel Hps].
    exists (d `max` fuel)%nat. apply is_func_type_ok_true.
    exists proto. repeat split; try done.
    + exists rt, d, u. repeat split; try done. lia.
    + apply Hps. lia.
Qed.

(** What the code accepts the specification accepts: a target taken as
    declared is at the end of a chain of no step. *)
Lemma code_ret_ok_spec (b : btf) (u : btf_type) : code_ret_ok b u → spec_ret_ok b u.
Proof.
  intros [H|[H|[Hp H]]]; [by left|by right; left|]. right. right. split; [done|].
  destruct H as [Hz|(p & Hl & Hk)].
  - exists btf_void, 0%nat, btf_void. rewrite Hz. split; [done|].
    split; [by constructor|by left].
  - exists p, 0%nat, p. split; [done|]. split; [|by right].
    constructor. unfold btf_is_mod, btf_is_typedef, btf_is_kind.
    destruct Hk as [Hk|Hk]; rewrite Hk; done.
Qed.

Lemma code_func_type_ok_spec (b : btf) (proto : btf_type) :
  code_func_type_ok b proto → spec_func_type_ok b proto.
Proof.
  intros (Hlen & Hty & (rt & d & u & Hl & Hs & Hu) & Hps).
  repeat split; try done. exists rt, d, u. repeat split; try done.
  by apply code_ret_ok_spec.
Qed.

(** The checks return on the types [resolves] describes. *)
Lemma is_arg_type_ok_returns (b : btf) (pt : btf_type) (d : nat) (u : btf_type) (fuel : nat) :
  strips_to b pt d u → (d ≤ fuel)%nat →
  ∃ v, is_arg_type_ok fuel b (Some pt) = Ret v.
Proof.
  intros Hs Hf. unfold is_arg_type_ok. rewrite (skip_mods_strips _ _ _ _ Hs fuel Hf). simpl.
  destruct (negb (btf_is_int u) && _ && _); by eexists.
Qed.

Lemma is_ret_type_ok_returns (b : btf) (rt : btf_type) (d : nat) (u : btf_type) (fuel : nat) :
  strips_to b rt d u → (kind u = BTF_KIND_PTR → is_Some (btf__type_by_id b (type u))) →
  (d ≤ fuel)%nat →
  ∃ v, is_ret_type_ok fuel b (Some rt) = Ret v.
Proof.
  intros Hs Hp Hf. unfold is_ret_type_ok. rewrite (skip_mods_strips _ _ _ _ Hs fuel Hf). simpl.
  destruct (btf_is_int u || btf_is_enum u); [by eexists|].
  destruct (btf_is_ptr u) eqn:Hptr; simpl; [|by eexists].
  case_bool_decide; [by eexists|].
  apply kind_is in Hptr. destruct (Hp Hptr) as [p ->].
  destruct (negb (btf_is_composite p)); by eexists.
Qed.

Lemma params_ok_returns (b : btf) (ps : list btf_param) :
  Forall (λ p, ∃ pt d u, btf__type_by_id b (param_type p) = Some pt ∧ strips_to b pt d u) ps →
  ∃ fuel, ∀ fuel', (fuel ≤ fuel')%nat → ∃ v, params_ok fuel' b ps = Ret v.
Proof.
  induction 1 as [|p ps (pt & d & u & Hl & Hs) _ [fuel IH]].
  - exists 0%nat. intros fuel' _. by exists true.
  - exists (d `max` fuel)%nat. intros fuel' Hf. simpl.
    case_bool_decide; [by eexists|]. rewrite Hl.
    destruct (is_arg_type_ok_returns b pt d u fuel' Hs) as [v ->]; [lia|]. simpl.
    destruct v; simpl; [apply IH; lia|by eexists].
Qed.

Lemma is_func_type_ok_returns (b : btf) (t proto : btf_type) :
  btf__type_by_id b (type t) = Some proto → resolves b proto →
  ∃ fuel, ∀ fuel', (fuel ≤ fuel')%nat → ∃ v, is_func_type_ok fuel' b t = Ret v.
Proof.
  intros Hp [(rt & d & u & Hl & Hs & Hptr) Hps].
  apply params_ok_returns in Hps as [fuel Hps].
  exists (d `max` fuel)%nat. intros fuel' Hf. unfold is_func_type_ok. rewrite Hp.
  case_bool_decide; [by eexists|]. case_bool_decide; [by eexists|]. rewrite Hl.
  destruct (is_ret_type_ok_returns b rt d u fuel' Hs Hptr) as [v ->]; [lia|]. simpl.
  destruct v; simpl; [apply Hps; lia|by eexists].
Qed.

End btf_facts.

(** C5 (the claim at an input where it fails): for [const struct s
    *f(int)] the conditions of the specification hold, the returned pointer's
    target being a struct at the end of its chain; [is_func_type_ok] tests the
    target as declared, a [const], and returns false whatever the number of
    iterations it is given. *)
Lemma pointee_chain_not_followed :
  let db := Sample.pointer_returns in
  let f := Sample.mk_type "f" Btf.BTF_KIND_FUNC 5 [] in
  let proto := Sample.mk_type "" Btf.BTF_KIND_FUNC_PROTO 3 [4%nat] in
  Btf.btf__type_by_id db 6 = Some f ∧
  Btf.btf__type_by_id db (Btf.type f) = Some proto ∧
  Btf.spec_func_type_ok db proto ∧
  (∀ fuel, Btf.is_func_type_ok fuel db f = Ret false) ∧
  ¬ (∃ fuel, Btf.is_func_type_ok fuel db f = Ret true).
Proof.
  intros db f proto.
  assert (∀ fuel, Btf.is_func_type_ok fuel db f = Ret false) as Hrej
    by (intros [|fuel]; reflexivity).
  split; [done|]. split; [done|]. split; [|split; [done|]].
  - split; [simpl; lia|]. split; [done|]. split.
    + exists (Sample.mk_type "" Btf.BTF_KIND_PTR 2 []), 0%nat,
        (Sample.mk_type "" Btf.BTF_KIND_PTR 2 []).
      split; [done|]. split; [by constructor|]. right. right. split; [done|].
      exists (Sample.mk_type "" Btf.BTF_KIND_CONST 1 []), 1%nat,
        (Sample.mk_type "s" Btf.BTF_KIND_STRUCT 0 []).
      split; [done|]. split; [|by right; left].
      eapply Btf.strips_step; [done|done|]. by constructor.
    + apply Forall_singleton. split; [done|].
      exists (Sample.mk_type "int" Btf.BTF_KIND_INT 0 []), 0%nat,
        (Sample.mk_type "int" Btf.BTF_KIND_INT 0 []).
      split; [done|]. split; [by constructor|by left].
  - intros [fuel H]. rewrite Hrej in H. done.
Qed.

(** C5 (amended): [is_func_type_ok] accepts a function type iff its
    prototype has at most 11 parameters, a return type that is not void and
    that strips to an integer, an enum, or a pointer whose target as declared
    (no modifier or typedef stripped from it) is void or a struct or union, and
    only parameters whose type is not void and strips to an integer, a pointer
    or an enum.  Whenever the check returns, its verdict is that.  What it
    accepts meets the conditions of the specification.  A prototype of more
    than 11 parameters or of void return is rejected at once; on a database in
    which the types the check follows are present and their chains end, the
    check returns, and rejects every function type that does not meet the
    conditions. *)
Theorem func_type_ok_iff (b : Btf.btf) (t : Btf.btf_type) :
  ((∃ fuel, Btf.is_func_type_ok fuel b t = Ret true) ↔
   ∃ proto, Btf.btf__type_by_id b (Btf.type t) = Some proto ∧ Btf.code_func_type_ok b proto) ∧
  (∀ fuel verdict, Btf.is_func_type_ok fuel b t = Ret verdict →
     (verdict = true ↔
      ∃ proto, Btf.btf__type_by_id b (Btf.type t) = Some proto ∧
               Btf.code_func_type_ok b proto)) ∧
  (∀ proto, Btf.btf__type_by_id b (Btf.type t) = Some proto →
     (Btf.code_func_type_ok b proto → Btf.spec_func_type_ok b proto) ∧
     ((11 < length (Btf.params proto))%nat ∨ Btf.type proto = 0%nat →
      ∀ fuel, Btf.is_func_type_ok fuel b t = Ret false) ∧
     (Btf.resolves b proto →
      ∃ fuel, ∀ fuel', (fuel ≤ fuel')%nat →
        ∃ verdict, Btf.is_func_type_ok fuel' b t = Ret verdict ∧
                   (verdict = false ↔ ¬ Btf.code_func_type_ok b proto))).
Proof.
  assert (∀ fuel verdict, Btf.is_func_type_ok fuel b t = Ret verdict →
            (verdict = true ↔
             ∃ proto, Btf.btf__type_by_id b (Btf.type t) = Some proto ∧
                      Btf.code_func_type_ok b proto)) as Hverdict.
  { intros fuel verdict Hv. split.
    - intros ->. apply is_func_type_ok_accepts. by exists fuel.
    - intros H. apply is_func_type_ok_accepts in H as [fuel' H].
      assert (Btf.is_func_type_ok (fuel `max` fuel') b t = Ret verdict) as H1.
      { rewrite (is_func_type_ok_settled fuel); [done|by rewrite Hv|lia]. }
      assert (Btf.is_func_type_ok (fuel `max` fuel') b t = Ret true) as H2.
      { rewrite (is_func_type_ok_settled fuel'); [done|by rewrite H|lia]. }
      congruence. }
  split; [apply is_func_type_ok_accepts|]. split; [exact Hverdict|].
  intros proto Hp. split; [apply code_func_type_ok_spec|]. split.
  - intros Hearly fuel. unfold Btf.is_func_type_ok. rewrite Hp.
    case_bool_decide as Hlen; [done|]. case_bool_decide as Hvoid; [done|]. exfalso.
    unfold Btf.MAX_FUNC_ARG_CNT, Btf.btf_vlen in Hlen. destruct Hearly; [lia|done].
  - intros Hres. destruct (is_func_type_ok_returns b t proto Hp Hres) as [fuel Hret].
    exists fuel. intros fuel' Hf. destruct (Hret fuel' Hf) as [verdict Hv].
    exists verdict. split; [done|]. pose proof (Hverdict fuel' verdict Hv) as Hiff.
    split.
    + intros -> Hok. assert (false = true) as Habs; [|done].
      apply Hiff. by exists proto.
    + intros Hno. destruct verdict; [|done]. exfalso. apply Hno.
      destruct (proj1 Hiff eq_refl) as (proto' & Hp' & Hok). congruence.
Qed.

(** The theorem on [int *g(int)]: a pointer to something else than void, a
    struct or a union is rejected, and the rejection is returned. *)
Lemma func_type_ok_iff_witness :
  let db := Sample.pointer_returns in
  let g := Sample.mk_type "g" Btf.BTF_KIND_FUNC 8 [] in
  let proto := Sample.mk_type "" Btf.BTF_KIND_FUNC_PROTO 7 [4%nat] in
  Btf.btf__type_by_id db (Btf.type g) = Some proto ∧
  Btf.resolves db proto ∧
  ¬ Btf.code_func_type_ok db proto ∧
  Btf.is_func_type_ok 0 db g = Ret false.
Proof.
  intros db g proto.
  assert (Btf.btf__type_by_id db (Btf.type g) = Some proto) as Hp by reflexivity.
  assert (Btf.resolves db proto) as Hres.
  { split.
    - exists (Sample.mk_type "" Btf.BTF_KIND_PTR 4 []), 0%nat,
        (Sample.mk_type "" Btf.BTF_KIND_PTR 4 []).
      split; [done|]. split; [by constructor|]. intros _. by eexists.
    - apply Forall_singleton.
      exists (Sample.mk_type "int" Btf.BTF_KIND_INT 0 []), 0%nat,
        (Sample.mk_type "int" Btf.BTF_KIND_INT 0 []).
      split; [done|]. by constructor. }
  destruct (func_type_ok_iff db g) as (_ & _ & Hall).
  destruct (Hall proto Hp) as (_ & _ & Hrej).
  destruct (Hrej Hres) as [fuel Hret].
  destruct (Hret fuel (le_n _)) as (verdict & Hv & Hiff).
  assert (Btf.is_func_type_ok 0 db g = Ret false) as H0 by reflexivity.
  assert (verdict = false) as ->.
  { assert (Btf.is_func_type_ok fuel db g = Ret false) as H1.
    { rewrite (is_func_type_ok_settled 0 fuel); [done|by rewrite H0|lia]. }
    congruence. }
  split; [exact Hp|]. split; [exact Hres|]. split; [by apply Hiff|exact H0].
Defined.

(** The ABI scenarios of the specification: a void return and twelve
    parameters are rejected; [int f(int)] is accepted. *)
Example abi_scenarios :
  let int_t := Sample.mk_type "int" Btf.BTF_KIND_INT 0 [] in
  let f := Sample.mk_type "f" Btf.BTF_KIND_FUNC 2 [] in
  Btf.is_func_type_ok 0 [int_t; Sample.mk_type "" Btf.BTF_KIND_FUNC_PROTO 0 [1%nat]] f
  = Ret false ∧
  Btf.is_func_type_ok 0
    [int_t; Sample.mk_type "" Btf.BTF_KIND_FUNC_PROTO 1 (replicate 12 1%nat)] f
  = Ret false ∧
  Btf.is_func_type_ok 0
    [int_t; Sample.mk_type "" Btf.BTF_KIND_FUNC_PROTO 1 (replicate 11 1%nat)] f
  = Ret true ∧
  Btf.is_func_type_ok 0 [int_t; Sample.mk_type "" Btf.BTF_KIND_FUNC_PROTO 1 [0%nat]] f
  = Ret false.
Proof. repeat split; reflexivity. Qed.

(** On [const int] the loop takes one step: without fuel for it the model
    is still running, with it both checks accept. *)
Example strip_const_int :
  let t := Btf.btf__type_by_id Sample.const_int 2 in
  Btf.is_arg_type_ok 0 Sample.const_int t = Timeout ∧
  Btf.is_arg_type_ok 1 Sample.const_int t = Ret true ∧
  Btf.is_ret_type_ok 1 Sample.const_int t = Ret true.
Proof. repeat split. Qed.

(** C7 (counterexample): on a typedef of itself the strip loop of
    [is_arg_type_ok] and of [is_ret_type_ok] returns no verdict, whatever the
    number of iterations. *)
Lemma strip_loop_unbounded_on_cycle :
  ¬ (∃ fuel verdict,
       Btf.is_arg_type_ok fuel Sample.cyclic (Btf.btf__type_by_id Sample.cyclic 1)
       = Ret verdict) ∧
  ¬ (∃ fuel verdict,
       Btf.is_ret_type_ok fuel Sample.cyclic (Btf.btf__type_by_id Sample.cyclic 1)
       = Ret verdict).
Proof.
  assert (∀ fuel, Btf.skip_mods fuel Sample.cyclic (Btf.btf__type_by_id Sample.cyclic 1) = Timeout)
    as Hloop.
  { induction fuel as [|fuel IH]; [done|]. exact IH. }
  split; intros (fuel & verdict & H).
  - unfold Btf.is_arg_type_ok in H. rewrite Hloop in H. done.
  - unfold Btf.is_ret_type_ok in H. rewrite Hloop in H. done.
Qed.

(** C7 (amended): the strip loop has no bound of its own.  It ends exactly
    on the types whose modifier/typedef chain reaches, inside the database, a
    type that is neither; after the [d] steps of that chain both checks give
    the verdict of the type the chain ends at. *)
Theorem strip_loop_follows_chain (b : Btf.btf) (t : Btf.btf_type) :
  ((∃ fuel u, Btf.skip_mods fuel b (Some t) = Ret u) ↔ ∃ d u, Btf.strips_to b t d u) ∧
  (∀ d u, Btf.strips_to b t d u →
     (∀ fuel, (fuel < d)%nat → Btf.skip_mods fuel b (Some t) = Timeout) ∧
     (∀ fuel, (d ≤ fuel)%nat →
        Btf.skip_mods fuel b (Some t) = Ret u ∧
        Btf.is_arg_type_ok fuel b (Some t) = Btf.is_arg_type_ok 0 b (Some u) ∧
        Btf.is_ret_type_ok fuel b (Some t) = Btf.is_ret_type_ok 0 b (Some u) ∧
        Btf.is_arg_type_ok 0 b (Some u) ≠ Timeout ∧
        Btf.is_ret_type_ok 0 b (Some u) ≠ Timeout)).
Proof.
  split.
  - split.
    + intros (fuel & u & H). apply skip_mods_ret in H as (t0 & d & [= <-] & _ & Hs).
      by exists d, u.
    + intros (d & u & Hs). exists d, u. by apply (skip_mods_strips _ _ _ _ Hs).
  - intros d u Hs. split.
    + intros fuel Hf. destruct (Btf.skip_mods fuel b (Some t)) as [u'| |] eqn:E; [| |done].
      * apply skip_mods_ret in E as (t0 & d' & [= <-] & Hd' & Hs').
        destruct (strips_to_det _ _ _ _ _ _ Hs Hs') as [-> _]. lia.
      * exfalso. clear Hf. revert fuel E.
        induction Hs as [t Ht|t t' d u Ht Hl _ IH]; intros fuel E.
        -- destruct fuel; simpl in E; rewrite Ht in E; done.
        -- destruct fuel as [|fuel]; simpl in E; rewrite Ht in E; [done|].
           rewrite Hl in E. by apply (IH fuel).
    + intros fuel Hf.
      pose proof (strips_to_end _ _ _ _ Hs) as Hu.
      assert (Btf.skip_mods 0 b (Some u) = Ret u) as H0 by (simpl; by rewrite Hu).
      unfold Btf.is_arg_type_ok, Btf.is_ret_type_ok.
      rewrite (skip_mods_strips _ _ _ _ Hs fuel Hf), H0. simpl.
      repeat split; try done.
      * by destruct (negb _ && _ && _).
      * destruct (Btf.btf_is_int u || Btf.btf_is_enum u); [done|].
        destruct (negb (Btf.btf_is_ptr u)); [done|].
        case_bool_decide; [done|].
        destruct (Btf.btf__type_by_id b (Btf.type u)) as [p|]; [|done].
        by destruct (negb (Btf.btf_is_composite p)).
Qed.

(** ** The attach plan *)

Section plan_facts.

Lemma array_get_insert (a : list Z) (i k : nat) (v : Z) :
  (i < length a)%nat →
  array_get (<[i := v]> a) k = if decide (k = i) then v else array_get a k.
Proof.
  intros Hi. unfold array_get. case_decide as E.
  - subst k. by rewrite list_lookup_insert_eq.
  - by rewrite list_lookup_insert_ne.
Qed.

Lemma arity_count_snoc (k : nat) (l : list mass_attacher_func_info) (e : mass_attacher_func_info) :
  arity_count k (l ++ [e]) = (arity_count k l + if decide (arg_cnt e = k) then 1 else 0)%nat.
Proof.
  unfold arity_count. rewrite filter_app, length_app. f_equal.
  rewrite filter_cons, filter_nil. by case_decide.
Qed.

Lemma first_later_snoc (k : nat) (l : list mass_attacher_func_info) (e : mass_attacher_func_info) :
  first_later k (l ++ [e]) =
  if decide (first_later k l = 0%nat)
  then (if decide (arg_cnt e = k) then length l else 0%nat)
  else first_later k l.
Proof.
  unfold first_later. destruct l as [|x l]; simpl.
  - by case_decide.
  - destruct (list_find (λ e0, arg_cnt e0 = k) l) as [[j y]|] eqn:E.
    + erewrite list_find_app_l by done. done.
    + simpl. apply list_find_None in E.
      destruct (decide (arg_cnt e = k)) as [Hk|Hk].
      * assert (list_find (λ e0, arg_cnt e0 = k) (l ++ [e]) = Some (length l, e)) as ->; [|done].
        apply list_find_Some. split; [by rewrite lookup_app_r, Nat.sub_diag|].
        split; [done|]. intros i y Hy Hi. rewrite lookup_app_l in Hy by done.
        rewrite Forall_forall in E. apply E. by eapply list_elem_of_lookup_2.
      * assert (list_find (λ e0, arg_cnt e0 = k) (l ++ [e]) = None) as ->; [|done].
        apply list_find_None. apply Forall_app. split; [done|]. by constructor.
Qed.

Lemma first_later_lt (k : nat) (l : list mass_attacher_func_info) :
  first_later k l = 0%nat ∨
  ∃ e, l !! first_later k l = Some e ∧ arg_cnt e = k ∧ (0 < first_later k l)%nat.
Proof.
  unfold first_later. destruct (list_find _ (tail l)) as [[j y]|] eqn:E; [|by left].
  right. apply list_find_Some in E as (Hj & Hy & _). exists y.
  destruct l as [|x l]; simpl in *; [done|]. split; [done|]. split; [done|lia].
Qed.

Lemma plan_inv_fields (next : nat) (att att' : mass_attacher) :
  func_infos att' = func_infos att →
  func_info_cnts att' = func_info_cnts att →
  func_info_id_for_arg_cnt att' = func_info_id_for_arg_cnt att →
  plan_inv next att → plan_inv next att'.
Proof.
  intros E1 E2 E3 [H1 H2 H3 H4 H5 H6 H7].
  constructor; rewrite ?E1, ?E2, ?E3; done.
Qed.

Lemma plan_inv_weaken (next next' : nat) (att : mass_attacher) :
  (next ≤ next')%nat → plan_inv next att → plan_inv next' att.
Proof.
  intros Hn [H1 H2 H3 H4 H5 H6 H7]. constructor; try done.
  eapply Forall_impl; [exact H7|]. simpl. intros. lia.
Qed.

Lemma plan_inv_calloc (sk : skeleton) : plan_inv 0 (calloc_attacher sk).
Proof.
  constructor; simpl; try done.
  - intros k Hk. do 12 (destruct k as [|k]; [done|]). lia.
  - intros k Hk. do 12 (destruct k as [|k]; [done|]). lia.
  - constructor.
Qed.

Lemma add_func_inv (next i arity : nat) (att : mass_attacher) (ksym : Ksyms.ksym) :
  plan_inv next att → (next ≤ i)%nat → (arity ≤ 11)%nat →
  plan_inv (S i) (add_func att ksym arity i).
Proof.
  intros [H1 H2 H3 H4 H5 H6 H7] Hi Ha. unfold add_func.
  constructor; simpl.
  - by rewrite length_insert.
  - case_match; [by rewrite length_insert|done].
  - apply Forall_app. split; [done|]. by apply Forall_singleton.
  - intros k Hk. rewrite array_get_insert by lia. rewrite arity_count_snoc. simpl.
    rewrite (H4 arity) by lia.
    repeat case_decide; subst; try congruence; rewrite ?H4 by done; lia.
  - intros k Hk. rewrite first_later_snoc. simpl.
    destruct (Z.eqb_spec (array_get (func_info_id_for_arg_cnt att) arity) 0) as [E|E];
      rewrite (H5 arity) in E by lia.
    + rewrite array_get_insert by lia. unfold func_cnt.
      repeat case_decide; subst; rewrite ?H5 by done; try lia; try done.
    + repeat case_decide; subst; rewrite ?H5 by done; try lia; try done.
  - rewrite fmap_app. simpl. apply NoDup_app. split; [done|]. split; [|apply NoDup_singleton].
    intros x Hx Hx'. apply list_elem_of_singleton in Hx'. subst x.
    apply list_elem_of_fmap in Hx as (e & He & Hin).
    rewrite Forall_forall in H7. specialize (H7 e Hin). lia.
  - apply Forall_app. split.
    + eapply Forall_impl; [exact H7|]. simpl. intros. lia.
    + apply Forall_singleton. simpl. lia.
Qed.

Lemma filter_func_fields (att : mass_attacher) (N : cbuf) :
  ∃ d a, (filter_func att N).2 = set_allow_globs (set_deny_globs att d) a.
Proof.
  unfold filter_func.
  destruct (scan_globs (deny_globs att) N) as [denied d]. simpl.
  destruct denied; simpl.
  - exists d, (allow_globs att). by destruct att.
  - destruct (negb _).
    + destruct (scan_globs _ N) as [allowed a].
      exists d, a. by destruct allowed.
    + exists d, (allow_globs att). by destruct att.
Qed.

Lemma func_arg_cnt_le (fuel : nat) (b : Btf.btf) (i arity : nat) (t : Btf.btf_type) :
  Btf.btf__type_by_id b i = Some t →
  Btf.is_func_type_ok fuel b t = Ret true →
  Btf.func_arg_cnt b i = Ret arity → (arity ≤ 11)%nat.
Proof.
  intros Ht Hok Ha. apply is_func_type_ok_true in Hok as (proto & Hp & Hlen & _).
  unfold Btf.func_arg_cnt in Ha. rewrite Ht, Hp in Ha. injection Ha as <-. done.
Qed.

(** What an iteration of the pass does to the attacher: it changes rule
    counters, and may append one entry of arity at most 11. *)
Lemma prepare_func_cases (fuel : nat) (b : Btf.btf) (ks : list Ksyms.ksym) (i : nat)
    (st st' : pass_state) (fl : flow) :
  prepare_func fuel b ks i st = Ret (fl, st') →
  ∃ d a, let att0 := set_allow_globs (set_deny_globs (pass_att st) d) a in
    pass_att st' = att0 ∨
    ∃ ksym arity, (arity ≤ 11)%nat ∧ fl = Next ∧ pass_att st' = add_func att0 ksym arity i.
Proof.
  unfold prepare_func. intros H.
  assert (∃ d a, pass_att st = set_allow_globs (set_deny_globs (pass_att st) d) a) as Hsame.
  { exists (deny_globs (pass_att st)), (allow_globs (pass_att st)). by destruct (pass_att st). }
  destruct (Btf.btf__type_by_id b i) as [t|] eqn:Ht; [|done].
  destruct (negb (Btf.btf_is_func t)).
  { injection H as <- <-. destruct Hsame as (d & a & Hs). exists d, a. by left. }
  destruct (Ksyms.ksyms__get_symbol ks (Btf.name t)) as [ksym|].
  2:{ injection H as <- <-. destruct Hsame as (d & a & Hs). exists d, a. by left. }
  destruct (filter_func_fields (pass_att st) (Btf.name t)) as (d & a & Hf).
  destruct (filter_func (pass_att st) (Btf.name t)) as [proceed att1]. simpl in Hf. subst att1.
  exists d, a. cbv zeta.
  destruct (negb proceed); [injection H as <- <-; by left|].
  destruct (is_kprobe_ok _ _) as [[|]| |]; simpl in H; try done.
  2:{ injection H as <- <-. by left. }
  destruct (Btf.is_func_type_ok fuel b t) as [[|]| |] eqn:Hok; simpl in H; try done.
  2:{ injection H as <- <-. by left. }
  destruct (negb _ && _); [injection H as <- <-; by left|].
  match type of H with (if ?c then _ else _) = _ => destruct c end;
    [injection H as <- <-; by left|].
  destruct (Btf.func_arg_cnt b i) as [arity| |] eqn:Ha; simpl in H; try done.
  destruct (alloc (pass_heap st)) as [tmp h]. destruct tmp; simpl in H.
  - injection H as <- <-. right. exists ksym, arity. split; [|done].
    by eapply func_arg_cnt_le.
  - injection H as <- <-. by left.
Qed.

Lemma same_slots_refl (att : mass_attacher) : same_slots att att.
Proof. by repeat split. Qed.

Lemma same_slots_trans (a b c : mass_attacher) :
  same_slots a b → same_slots b c → same_slots a c.
Proof.
  intros (H1 & H2 & H3 & H4 & H5) (G1 & G2 & G3 & G4 & G5).
  repeat split; congruence.
Qed.

Lemma prepare_func_inv (fuel : nat) (b : Btf.btf) (ks : list Ksyms.ksym) (next i : nat)
    (st st' : pass_state) (fl : flow) :
  plan_inv next (pass_att st) → (next ≤ i)%nat →
  prepare_func fuel b ks i st = Ret (fl, st') →
  plan_inv (S i) (pass_att st') ∧ same_slots (pass_att st) (pass_att st').
Proof.
  intros Hinv Hi H. apply prepare_func_cases in H as (d & a & H). cbv zeta in H.
  assert (plan_inv next (set_allow_globs (set_deny_globs (pass_att st) d) a)) as Hinv0.
  { by eapply plan_inv_fields; [| | |exact Hinv]. }
  destruct H as [->|(ksym & arity & Ha & -> & ->)].
  - split; [eapply plan_inv_weaken; [|exact Hinv0]; lia|by repeat split].
  - split; [by eapply add_func_inv|by repeat split].
Qed.

Lemma prepare_pass_inv (fuel : nat) (b : Btf.btf) (ks : list Ksyms.ksym) (n start : nat)
    (st st' : pass_state) (fl : flow) :
  plan_inv start (pass_att st) →
  prepare_pass fuel b ks (seq start n) st = Ret (fl, st') →
  plan_inv (start + n) (pass_att st') ∧ same_slots (pass_att st) (pass_att st').
Proof.
  revert start st. induction n as [|n IH]; intros start st Hinv H; simpl in H.
  - injection H as <- <-. rewrite Nat.add_0_r. split; [done|apply same_slots_refl].
  - destruct (prepare_func fuel b ks start st) as [[fl1 st1]| |] eqn:E; simpl in H; try done.
    destruct (prepare_func_inv _ _ _ start start _ _ _ Hinv (le_n _) E) as [Hinv1 Hs1].
    destruct fl1.
    + destruct (IH (S start) st1 Hinv1 H) as [Hinv2 Hs2].
      split; [by rewrite <- Nat.add_succ_comm|by eapply same_slots_trans].
    + injection H as <- <-. split; [|done]. eapply plan_inv_weaken; [|exact Hinv1]. lia.
    + injection H as <- <-. split; [|done]. eapply plan_inv_weaken; [|exact Hinv1]. lia.
Qed.

(** A candidate the filter rejects is skipped: the pass counts it and adds
    no entry. *)
Lemma prepare_func_rejected (fuel : nat) (b : Btf.btf) (ks : list Ksyms.ksym) (i : nat)
    (st : pass_state) (t : Btf.btf_type) (ksym : Ksyms.ksym) :
  Btf.btf__type_by_id b i = Some t → Btf.btf_is_func t = true →
  Ksyms.ksyms__get_symbol ks (Btf.name t) = Some ksym →
  (filter_func (pass_att st) (Btf.name t)).1 = false →
  prepare_func fuel b ks i st
  = Ret (Next, skipped st (filter_func (pass_att st) (Btf.name t)).2) ∧
  func_infos (filter_func (pass_att st) (Btf.name t)).2 = func_infos (pass_att st).
Proof.
  intros Ht Hf Hk Hrej. unfold prepare_func. rewrite Ht, Hf, Hk. simpl.
  destruct (filter_func_fields (pass_att st) (Btf.name t)) as (d & a & Hfields).
  destruct (filter_func (pass_att st) (Btf.name t)) as [proceed att1].
  simpl in *. subst. done.
Qed.

(** With the plan invariant, an arity that has entries has its index in
    range, at an entry of that arity. *)
Lemma plan_inv_first_index (next : nat) (att : mass_attacher) (k : nat) :
  plan_inv next att → (k < 12)%nat →
  0 < array_get (func_info_cnts att) k →
  ∃ e, func_infos att !! Z.to_nat (array_get (func_info_id_for_arg_cnt att) k) = Some e ∧
       arg_cnt e = k.
Proof.
  intros [H1 H2 H3 H4 H5 H6 H7] Hk Hc.
  rewrite H4 in Hc by done. rewrite H5 by done. rewrite Nat2Z.id.
  destruct (first_later_lt k (func_infos att)) as [E|(e & He & Hek & _)]; [|by exists e].
  rewrite E. unfold first_later in E. unfold arity_count in Hc.
  destruct (func_infos att) as [|x l]; simpl in *; [lia|].
  exists x. split; [done|].
  destruct (list_find (λ e, arg_cnt e = k) l) as [[j y]|] eqn:Ef; [done|].
  apply list_find_None in Ef.
  rewrite filter_cons in Hc. case_decide as Hx; [done|]. exfalso.
  assert (filter (λ e, arg_cnt e = k) l = []) as Hnil.
  { clear -Ef. induction Ef as [|y l Hy _ IH]; [done|]. rewrite filter_cons. by case_decide. }
  rewrite Hnil in Hc. simpl in Hc. lia.
Qed.

Lemma read_kprobes_fields (names : list cbuf) (h : heap) (att : mass_attacher) :
  ∃ kp, (read_kprobes h att names).1.2 = set_kprobes att kp.
Proof.
  revert h att. induction names as [|nm names IH]; intros h att; simpl.
  - exists (kprobes att). by destruct att.
  - destruct (alloc h) as [tmp h1]. destruct tmp; simpl.
    2:{ exists (kprobes att). by destruct att. }
    destruct (alloc h1) as [s h2]. destruct s; simpl.
    2:{ by eexists. }
    destruct (IH h2 (set_kprobes att (kprobes att ++ [Some (strdup nm)]))) as [kp ->].
    by exists kp.
Qed.

Lemma load_available_kprobes_fields (hst : host) (h h' : heap) (att att' : mass_attacher)
    (err : Z) :
  load_available_kprobes hst h att = Ret (err, att', h') →
  ∃ kp, att' = set_kprobes att kp.
Proof.
  unfold load_available_kprobes. intros H.
  destruct (available_filter_functions hst) as [errno|names].
  { injection H as _ <- _. exists (kprobes att). by destruct att. }
  destruct (read_kprobes_fields names h att) as [kp Hkp].
  destruct (read_kprobes h att names) as [[err1 att2] h2]. simpl in Hkp. subst att2.
  destruct (negb (err1 =? 0)); [injection H as _ <- _; by eexists|].
  destruct (sort_kprobes _) as [sorted| |]; simpl in H; try done.
  injection H as _ <- _. by eexists.
Qed.

(** A successful setup binds the slots and the sources and leaves the
    plan, the rules and the template alone. *)
Lemma prepare_setup_ok (hst : host) (h h1 : heap) (att att1 : mass_attacher) :
  prepare_setup hst h att = Ret (0, att1, h1) →
  (∃ ks b, ksyms att1 = Some ks ∧ vmlinux_btf att1 = Some b ∧ kernel_btf hst = inr b) ∧
  slots_bound att1 ∧
  func_infos att1 = func_infos att ∧
  func_info_cnts att1 = func_info_cnts att ∧
  func_info_id_for_arg_cnt att1 = func_info_id_for_arg_cnt att ∧
  deny_globs att1 = deny_globs att ∧ allow_globs att1 = allow_globs att ∧
  skel att1 = skel att.
Proof.
  unfold prepare_setup. intros H.
  destruct (kallsyms hst) as [ks|]; [|by injection H].
  destruct (Z.eqb_spec (bump_rlimit hst RLIMIT_MEMLOCK RLIM_INFINITY) 0) as [E1|E1];
    simpl negb in H; cbv iota in H; [|injection H as ? _ _; congruence].
  match type of H with
  | (if negb (?e =? 0) then _ else _) = _ =>
      destruct (Z.eqb_spec e 0) as [E2|E2]; simpl negb in H; cbv iota in H;
        [|injection H as ? _ _; congruence]
  end.
  destruct (load_available_kprobes hst h (set_ksyms att (Some ks))) as [[[err att2] h2]| |]
    eqn:Hload; simpl in H; try done.
  apply load_available_kprobes_fields in Hload as [kp ->].
  destruct (Z.eqb_spec err 0) as [E3|E3]; simpl negb in H; cbv iota in H;
    [|injection H as ? _ _; congruence].
  destruct (kernel_btf hst) as [e|b]; [by injection H|].
  injection H as <- <-.
  split; [by exists ks, b|]. by repeat split.
Qed.

Lemma arm_total (next : nat) (arities : list nat) (att : mass_attacher) :
  plan_inv next att → slots_bound att → Forall (λ i, (i < 12)%nat) arities →
  ∃ sk, arm att arities = Ret (set_skel att sk).
Proof.
  intros Hinv Hb Hall. revert att Hinv Hb.
  induction Hall as [|i arities Hi _ IH]; intros att Hinv Hb; simpl.
  - exists (skel att). by destruct att.
  - assert (∃ sk, arm_arity att i = Ret (set_skel att sk)) as [sk ->].
    { unfold arm_arity. destruct Hb as [-> ->].
      rewrite !list_lookup_fmap, !lookup_seq_lt by done. simpl.
      destruct (Z.eqb_spec (array_get (func_info_cnts att) i) 0) as [E|E]; simpl.
      - by eexists.
      - destruct (plan_inv_first_index next att i Hinv Hi) as (e & -> & _).
        + rewrite (inv_cnts _ _ Hinv) in * by done. lia.
        + by eexists. }
    simpl. destruct (IH (set_skel att sk)) as [sk' ->].
    + by eapply plan_inv_fields; [| | |exact Hinv].
    + done.
    + by exists sk'.
Qed.

Lemma arm_fields (arities : list nat) (att att' : mass_attacher) :
  arm att arities = Ret att' → ∃ sk, att' = set_skel att sk.
Proof.
  revert att. induction arities as [|i arities IH]; intros att H; simpl in H.
  - injection H as <-. exists (skel att). by destruct att.
  - destruct (arm_arity att i) as [att1| |] eqn:E; simpl in H; try done.
    apply IH in H as [sk ->].
    unfold arm_arity in E.
    repeat case_match; try done; injection E as <-; by eexists.
Qed.

End plan_facts.

(** C9: when the pass over the type database has ended (not by an error
    return) with no entry, [prepare] returns [-ENOENT]; with an entry it goes on
    to arm the template and any result it returns is 0, and it does return 0
    when the attacher entered [prepare] with a consistent plan, as the one
    [mass_attacher__new] returns. *)
Theorem prepare_empty_plan_is_enoent (fuel : nat) (hst : host) (h h1 : heap)
    (att att1 : mass_attacher) (fl : flow) (st : pass_state) :
  prepare_setup hst h att = Ret (0, att1, h1) →
  type_pass fuel att1 h1 = Ret (fl, st) →
  (∀ err, fl ≠ Return err) →
  (func_cnt (pass_att st) = 0 →
     mass_attacher__prepare fuel hst h att = Ret (- ENOENT, pass_att st, pass_heap st) ∧
     - ENOENT < 0) ∧
  (func_cnt (pass_att st) ≠ 0 →
     (∀ err att' h', mass_attacher__prepare fuel hst h att = Ret (err, att', h') →
        err = 0 ∧ func_infos att' = func_infos (pass_att st)) ∧
     (plan_inv 0 att →
        ∃ att', mass_attacher__prepare fuel hst h att = Ret (0, att', pass_heap st) ∧
                func_infos att' = func_infos (pass_att st))).
Proof.
  intros Hsetup Hpass Hfl.
  assert (mass_attacher__prepare fuel hst h att = prepare_finish (pass_att st) (pass_heap st))
    as Hprep.
  { unfold mass_attacher__prepare. rewrite Hsetup. simpl. rewrite Hpass. simpl.
    destruct fl; try done. by destruct (Hfl err). }
  rewrite Hprep. unfold prepare_finish. split.
  - intros ->. done.
  - intros Hne. destruct (Z.eqb_spec (func_cnt (pass_att st)) 0) as [E|_]; [done|].
    split.
    + intros err att' h' H.
      destruct (arm (pass_att st) _) as [att2| |] eqn:Ea; simpl in H; try done.
      injection H as <- <- <-. split; [done|].
      apply arm_fields in Ea as [sk ->]. done.
    + intros Hinv.
      apply prepare_setup_ok in Hsetup as ((ks & b & Hks & Hb & _) & Hbound & E1 & E2 & E3 & _).
      assert (plan_inv 0 att1) as Hinv1 by (by eapply plan_inv_fields; [| | |exact Hinv]).
      unfold type_pass in Hpass. rewrite Hks, Hb in Hpass.
      apply prepare_pass_inv in Hpass as [Hinv2 Hslots];
        [|simpl; eapply plan_inv_weaken; [|exact Hinv1]; lia].
      simpl in Hslots.
      assert (slots_bound (pass_att st)) as Hbound2.
      { destruct Hslots as (F1 & F2 & _). destruct Hbound as [G1 G2].
        split; congruence. }
      destruct (arm_total _ (seq 0 (S Btf.MAX_FUNC_ARG_CNT)) _ Hinv2 Hbound2) as [sk ->].
      { apply Forall_forall. intros i Hi. apply elem_of_seq in Hi.
        unfold Btf.MAX_FUNC_ARG_CNT in Hi. lia. }
      simpl. by eexists.
Qed.

(** The theorem on a host whose type database is empty. *)
Lemma prepare_empty_plan_is_enoent_witness :
  let att := calloc_attacher Sample.template in
  let att1 := match prepare_setup Sample.empty_host [] att with
              | Ret (_, att1, _) => att1
              | _ => att
              end in
  let st := {| pass_att := att1; func_skip := 0; pass_heap := [] |} in
  prepare_setup Sample.empty_host [] att = Ret (0, att1, []) ∧
  type_pass 0 att1 [] = Ret (Next, st) ∧
  (∀ err, Next ≠ Return err) ∧
  mass_attacher__prepare 0 Sample.empty_host [] att = Ret (- ENOENT, att1, []) ∧
  - ENOENT < 0.
Proof.
  intros att att1 st.
  assert (prepare_setup Sample.empty_host [] att = Ret (0, att1, [])) as H1 by reflexivity.
  assert (type_pass 0 att1 [] = Ret (Next, st)) as H2 by reflexivity.
  assert (∀ err, Next ≠ Return err) as H3 by done.
  split; [exact H1|]. split; [exact H2|]. split; [exact H3|].
  apply (proj1 (prepare_empty_plan_is_enoent 0 Sample.empty_host [] [] att att1 Next st H1 H2 H3)).
  reflexivity.
Defined.

(** Scenarios of the specification on the three functions [foo], [bar]
    and [baz]: a deny rule [ba*] leaves [foo] and has matched twice; an allow
    rule [ba*] leaves [bar] and [baz]; a limit of two functions leaves [foo] and
    [bar]; with no function left [prepare] returns [-ENOENT]. *)
Example prepare_scenarios :
  (λ a, name <$> func_infos a) <$>
    Sample.prepared_with Sample.three_funcs_host Sample.default_opts [lit "ba*"] []
  = Some [lit "foo"] ∧
  (λ a, matches <$> deny_globs a) <$>
    Sample.prepared_with Sample.three_funcs_host Sample.default_opts [lit "ba*"] []
  = Some [0; 0; 0; 0; 0; 0; 0; 0; 0; 0; 2] ∧
  (λ a, name <$> func_infos a) <$>
    Sample.prepared_with Sample.three_funcs_host Sample.default_opts [] [lit "ba*"]
  = Some [lit "bar"; lit "baz"] ∧
  (λ a, name <$> func_infos a) <$>
    Sample.prepared_with Sample.three_funcs_host Sample.at_most_two [] []
  = Some [lit "foo"; lit "bar"] ∧
  Sample.prepared_with Sample.three_funcs_host Sample.default_opts [lit "*"] [] = None.
Proof. repeat match goal with |- _ ∧ _ => split end; vm_compute; reflexivity. Qed.

(** C6 (the code at an input where the claim fails): with [foo] and [bar]
    of arity 1 accepted as entries 0 and 1, and [baz] of arity 2 as entry 2, the
    bucket of arity 1 counts two entries and its first index is 1, although the
    first entry of arity 1 is entry 0; the template programs of arity 1 are armed
    with [bar]. *)
Theorem first_index_skips_entry_zero :
  let att := Sample.three_prepared in
  Sample.prepared 5 Sample.three_funcs_host (Some Sample.default_opts) = Some att ∧
  name <$> func_infos att = [lit "foo"; lit "bar"; lit "baz"] ∧
  arg_cnt <$> func_infos att = [1; 1; 2]%nat ∧
  array_get (func_info_cnts att) 1 = 2 ∧
  first_of_arity 1 (func_infos att) = Some 0%nat ∧
  array_get (func_info_id_for_arg_cnt att) 1 = 1 ∧
  (attach_target <$> prog_at (skel att) (fentry 1)) = Some (Some (lit "bar")).
Proof.
  intros att.
  repeat match goal with |- _ ∧ _ => split end; vm_compute; reflexivity.
Qed.

(** ** Load *)

Section load_facts.

Lemma load_frame_refl (att : mass_attacher) : load_frame att att.
Proof. by repeat split. Qed.


Lemma expected_clones_frame (att att' : mass_attacher) (arity id : nat) :
  load_frame att att' → expected_clones att' arity id = expected_clones att arity id.
Proof.
  intros (H1 & H2 & H3 & H4 & H5 & _). unfold expected_clones.
  rewrite H1, H2, H3, H4.
  destruct (fentries att !! arity) as [[pe|]|]; try done.
  destruct (fexits att !! arity) as [[px|]|]; try done.
  destruct (fentries_insns att !! arity) as [ie|]; try done.
  destruct (fexits_insns att !! arity) as [ix|]; try done.
  by rewrite !H5.
Qed.

Lemma hijack_prog_fields (att att' : mass_attacher) (h h' : heap) (p : prog_ptr)
    (insns : list bpf_insn) :
  hijack_prog att h p insns = Ret (att', h') →
  ∃ a b, att' = set_fexits_insns (set_fentries_insns att a) b.
Proof.
  unfold hijack_prog. intros H.
  destruct (prog_arg_cnt att p) as [n|]; [|done].
  destruct (prog_at (skel att) p) as [bp|]; [|done].
  destruct (alloc h) as [ok h1]. destruct ok; simpl in H; [|done].
  destruct (strncmp _ _ _ =? 0); injection H as <- <-.
  - exists (fentries_insns att), (<[n := Some insns]> (fexits_insns att)). by destruct att.
  - exists (<[n := Some insns]> (fentries_insns att)), (fexits_insns att). by destruct att.
Qed.

Lemma run_prep_hooks_fields (k : kernel) (ps : list prog_ptr) (att att' : mass_attacher)
    (h h' : heap) :
  run_prep_hooks k att h ps = Ret (att', h') →
  ∃ a b, att' = set_fexits_insns (set_fentries_insns att a) b.
Proof.
  revert att h. induction ps as [|p ps IH]; intros att h H; simpl in H.
  - injection H as <- <-. exists (fentries_insns att), (fexits_insns att). by destruct att.
  - destruct (prog_at (skel att) p) as [bp|]; [|by apply IH in H].
    destruct (autoload bp && prep bp); [|by apply IH in H].
    destruct (hijack_prog att h p (prog_insns k p)) as [[att1 h1]| |] eqn:E; simpl in H;
      try done.
    apply hijack_prog_fields in E as (a1 & b1 & ->).
    apply IH in H as (a & b & ->). by exists a, b.
Qed.





Lemma clone_prog_ret (k : kernel) (sk : skeleton) (calls calls' : list LoadAttr.t)
    (prog : option (option prog_ptr)) (insns : option (option (list bpf_insn)))
    (id : nat) (r : Z) :
  clone_prog k sk calls prog insns id = Ret (r, calls') →
  ∃ p ins bp, prog = Some (Some p) ∧ insns = Some ins ∧ prog_at sk p = Some bp ∧
    r = clone_result k (length calls) (clone_attr bp ins id) ∧
    calls' = calls ++ [clone_attr bp ins id].
Proof.
  unfold clone_prog. intros H.
  destruct prog as [[p|]|]; try done. destruct insns as [ins|]; try done.
  destruct (prog_at sk p) as [bp|] eqn:Hbp; [|done].
  injection H as <- <-. by exists p, ins, bp.
Qed.

Lemma prog_at_map_put (a b : Z) (sk : skeleton) (p : prog_ptr) :
  prog_at (map_put a b sk) p = prog_at sk p.
Proof. by destruct p. Qed.

Lemma entry_key_insert (l : list mass_attacher_func_info) (i : nat)
    (e e' : mass_attacher_func_info) :
  l !! i = Some e → entry_key e' = entry_key e →
  entry_key <$> <[i := e']> l = entry_key <$> l.
Proof.
  intros Hl He. rewrite list_fmap_insert, He. apply list_insert_id.
  by rewrite list_lookup_fmap, Hl.
Qed.

(** One iteration of the loop of [load]: it appends at most the two calls
    expected for its entry, all of them when it runs to its end; a call with a
    negative result is the last one and ends the load with that result. *)
Lemma load_func_spec (k : kernel) (i : nat) (st st' : load_state) (ret : option Z) :
  load_func k i st = Ret (ret, st') →
  load_frame (load_att st) (load_att st') ∧
  ∃ new, load_calls st' = load_calls st ++ new ∧
    (ret = None →
       ∃ e, func_infos (load_att st) !! i = Some e ∧
            expected_clones (load_att st) (arg_cnt e) (btf_id e) = Some new) ∧
    (∀ j attr, new !! j = Some attr →
       clone_result k (length (load_calls st) + j) attr < 0 →
       ret = Some (clone_result k (length (load_calls st) + j) attr) ∧
       S j = length new) ∧
    (∀ e, ret = Some e → e < 0).
Proof.
  unfold load_func. intros H.
  destruct (func_infos (load_att st) !! i) as [finfo|] eqn:Hi; [|done].
  destruct (bpf_map_update_elem k (addr finfo) (Z.of_nat i)) as [errno|].
  { injection H as <- <-. split; [apply load_frame_refl|].
    exists []. rewrite app_nil_r. repeat split; try done. intros e [= <-]. lia. }
  cbv zeta in H.
  match type of H with
  | (?c ≫= _) = _ => destruct c as [[r1 calls1]| |] eqn:E1; simpl in H; try done
  end.
  apply clone_prog_ret in E1 as (pe & ie & bpe & Hpe & Hie & Hbpe & -> & ->).
  simpl in Hpe, Hie, Hbpe. rewrite prog_at_map_put in Hbpe.
  set (a1 := clone_attr bpe ie (btf_id finfo)) in *.
  destruct (Z.ltb_spec (clone_result k (length (load_calls st)) a1) 0) as [Hr1|Hr1].
  { injection H as <- <-. simpl. split; [by repeat split|].
    exists [a1]. split; [done|]. split; [done|]. split; [|by intros e [= <-]].
    intros [|j] attr Hj Hneg; simpl in Hj; [|done]. injection Hj as <-.
    rewrite Nat.add_0_r in *. done. }
  match type of H with
  | (?c ≫= _) = _ => destruct c as [[r2 calls2]| |] eqn:E2; simpl in H; try done
  end.
  apply clone_prog_ret in E2 as (px & ix & bpx & Hpx & Hix & Hbpx & -> & ->).
  simpl in Hpx, Hix, Hbpx. rewrite prog_at_map_put in Hbpx.
  set (a2 := clone_attr bpx ix (btf_id finfo)) in *.
  assert (length (load_calls st ++ [a1]) = (length (load_calls st) + 1)%nat) as Hlen
    by (rewrite length_app; simpl; lia).
  rewrite Hlen in *.
  assert (∀ v w, entry_key <$> <[i := w]> (<[i := v]> (func_infos (load_att st)))
                 = entry_key <$> func_infos (load_att st)
                 ∨ entry_key w ≠ entry_key finfo ∨ entry_key v ≠ entry_key finfo) as Hkeys.
  { intros v w. destruct (decide (entry_key w = entry_key finfo)) as [Hw|]; [|by right; left].
    destruct (decide (entry_key v = entry_key finfo)) as [Hv|]; [|by right; right].
    left. rewrite list_insert_insert_eq. by apply (entry_key_insert _ _ finfo). }
  assert (expected_clones (load_att st) (arg_cnt finfo) (btf_id finfo) = Some [a1; a2]) as Hexp.
  { unfold expected_clones. rewrite Hpe, Hpx, Hie, Hix. by rewrite Hbpe, Hbpx. }
  destruct (Z.ltb_spec (clone_result k (length (load_calls st) + 1) a2) 0) as [Hr2|Hr2].
  - injection H as <- <-. simpl. split.
    { repeat split; try done. by apply (entry_key_insert _ _ finfo). }
    exists [a1; a2]. rewrite <- app_assoc. split; [done|]. split; [done|].
    split; [|by intros e [= <-]].
    intros [|[|j]] attr Hj Hneg; simpl in Hj; try done; injection Hj as <-.
    + rewrite Nat.add_0_r in Hneg. lia.
    + done.
  - injection H as <- <-. simpl. split.
    { repeat split; try done.
      destruct (Hkeys (set_fds finfo (clone_result k (length (load_calls st)) a1)
                               (fexit_prog_fd finfo))
                      (set_fds (set_fds finfo (clone_result k (length (load_calls st)) a1)
                                        (fexit_prog_fd finfo))
                               (clone_result k (length (load_calls st)) a1)
                               (clone_result k (length (load_calls st) + 1) a2)))
        as [Hk|[Hk|Hk]]; done. }
    exists [a1; a2]. rewrite <- app_assoc. split; [done|]. split; [|split].
    + intros _. by exists finfo.
    + intros [|[|j]] attr Hj Hneg; simpl in Hj; try done; injection Hj as <-.
      * rewrite Nat.add_0_r in Hneg. lia.
      * lia.
    + done.
Qed.



End load_facts.

Section pipeline_facts.

Lemma deny_enforced_fields (globs : list cbuf) (h h' : heap) (att att' : mass_attacher) :
  deny_enforced h att globs = (Some att', h') → ∃ d, att' = set_deny_globs att d.
Proof.
  revert h att. induction globs as [|g globs IH]; intros h att H; simpl in H.
  - injection H as <- <-. exists (deny_globs att). by destruct att.
  - unfold mass_attacher__deny_glob in H.
    destruct (negb (is_valid_glob (Some g))); [done|].
    destruct (alloc h) as [tmp h1]. destruct tmp; simpl in H; [|done].
    destruct (alloc h1) as [s h2]. destruct s; simpl in H; [|done].
    apply IH in H as [d ->]. by exists d.
Qed.

(** The attacher [mass_attacher__new] returns has an empty, consistent
    plan. *)
Lemma plan_inv_new (h h' : heap) (sk : option skeleton)
    (opts : option (Opts.mass_attacher_opts)) (att : mass_attacher) :
  mass_attacher__new h sk opts = (Some att, h') → plan_inv 0 att.
Proof.
  unfold mass_attacher__new. intros H.
  destruct sk as [sk|]; [|done].
  destruct (alloc h) as [ok h1]. destruct ok; cbv beta iota zeta in H; simpl negb in H;
    cbv iota in H; [|done].
  destruct opts as [opts|].
  - apply deny_enforced_fields in H as [d ->].
    eapply plan_inv_fields; [| | |apply (plan_inv_calloc sk)]; done.
  - injection H as <- <-. apply plan_inv_calloc.
Qed.

(** Adding a rule leaves the plan alone. *)
Lemma plan_inv_rules (n : nat) (h : heap) (att : mass_attacher) (pattern : option cbuf) :
  plan_inv n att →
  plan_inv n (mass_attacher__deny_glob h att pattern).1.2 ∧
  plan_inv n (mass_attacher__allow_glob h att pattern).1.2.
Proof.
  intros Hinv. unfold mass_attacher__deny_glob, mass_attacher__allow_glob.
  destruct (negb (is_valid_glob pattern)); [done|].
  destruct (alloc h) as [tmp h1]. destruct tmp; [|done].
  destruct (alloc h1) as [s h2]. destruct s; [|done].
  split; by eapply plan_inv_fields; [| | |exact Hinv].
Qed.

(** After a successful [prepare] of an attacher with a consistent plan, the
    plan is consistent and the slots are bound. *)
Lemma prepare_plan (fuel : nat) (hst : host) (h0 h : heap) (att0 att : mass_attacher) :
  plan_inv 0 att0 →
  mass_attacher__prepare fuel hst h0 att0 = Ret (0, att, h) →
  (∃ n, plan_inv n att) ∧ slots_bound att.
Proof.
  intros Hinv H. unfold mass_attacher__prepare in H.
  destruct (prepare_setup hst h0 att0) as [[[err att1] h1]| |] eqn:Hsetup; simpl in H;
    try done.
  destruct (Z.eqb_spec err 0) as [->|Hne]; simpl negb in H; cbv iota in H;
    [|injection H as ? _ _; congruence].
  apply prepare_setup_ok in Hsetup as ((ks & b & Hks & Hb & _) & Hbound & E1 & E2 & E3 & _).
  assert (plan_inv 1 att1) as Hinv1.
  { eapply plan_inv_weaken; [|eapply plan_inv_fields; [| | |exact Hinv]; done]. lia. }
  unfold type_pass in H. rewrite Hks, Hb in H.
  destruct (prepare_pass _ _ _ _ _) as [[fl st]| |] eqn:Hpass; simpl in H; try done.
  apply prepare_pass_inv in Hpass as [Hinv2 Hslots]; [|done]. simpl in Hslots.
  assert (slots_bound (pass_att st)) as Hbound2.
  { destruct Hslots as (F1 & F2 & _). destruct Hbound as [G1 G2]. split; congruence. }
  assert (∃ n sk, plan_inv n att ∧ att = set_skel (pass_att st) sk) as (n & sk & Hn & ->).
  { destruct fl.
    - unfold prepare_finish in H. destruct (func_cnt (pass_att st) =? 0); [by injection H|].
      destruct (arm (pass_att st) _) as [att2| |] eqn:Ea; simpl in H; try done.
      apply arm_fields in Ea as [sk ->]. injection H as <- _.
      eexists _, _. split; [|reflexivity].
      by eapply plan_inv_fields; [| | |exact Hinv2].
    - unfold prepare_finish in H. destruct (func_cnt (pass_att st) =? 0); [by injection H|].
      destruct (arm (pass_att st) _) as [att2| |] eqn:Ea; simpl in H; try done.
      apply arm_fields in Ea as [sk ->]. injection H as <- _.
      eexists _, _. split; [|reflexivity].
      by eapply plan_inv_fields; [| | |exact Hinv2].
    - injection H as _ <- _. exists (1 + Btf.btf__get_nr_types b)%nat, (skel (pass_att st)).
      split; [|by destruct (pass_att st)]. done. }
  split; [by exists n|]. done.
Qed.

(** The buckets after a successful [prepare]: the count of an arity is the
    number of its entries; its index is that of its first entry after entry 0
    (0 when there is none), and is the index of an entry of that arity whenever
    the arity has entries. *)
Lemma prepared_buckets (fuel : nat) (hst : host) (h0 h : heap) (att0 att : mass_attacher)
    (k : nat) :
  plan_inv 0 att0 →
  mass_attacher__prepare fuel hst h0 att0 = Ret (0, att, h) →
  (k < 12)%nat →
  array_get (func_info_cnts att) k = Z.of_nat (arity_count k (func_infos att)) ∧
  array_get (func_info_id_for_arg_cnt att) k = Z.of_nat (first_later k (func_infos att)) ∧
  (0 < array_get (func_info_cnts att) k →
   ∃ e, func_infos att !! Z.to_nat (array_get (func_info_id_for_arg_cnt att) k) = Some e ∧
        arg_cnt e = k).
Proof.
  intros Hinv Hprep Hk.
  destruct (prepare_plan _ _ _ _ _ _ Hinv Hprep) as [[n Hplan] _].
  split; [by apply (inv_cnts _ _ Hplan)|]. split; [by apply (inv_ids _ _ Hplan)|].
  by apply (plan_inv_first_index n).
Qed.

End pipeline_facts.

Section clone_facts.




End clone_facts.


(** * Further properties of the code *)

Import Phases.

(** ** Construction and rules *)

Section construction_facts.

Lemma deny_enforced_result (globs : list cbuf) (h h' : heap) (att att' : mass_attacher) :
  deny_enforced h att globs = (Some att', h') →
  att' = set_deny_globs att (deny_globs att ++ (fresh_rule <$> globs)).
Proof.
  revert h att. induction globs as [|g globs IH]; intros h att H; simpl in H.
  - injection H as <- <-. rewrite app_nil_r. by destruct att.
  - unfold mass_attacher__deny_glob in H.
    destruct (negb (is_valid_glob (Some g))); [done|].
    destruct (alloc h) as [tmp h1]. destruct tmp; simpl in H; [|done].
    destruct (alloc h1) as [s h2]. destruct s; simpl in H; [|done].
    apply IH in H as ->. simpl. by rewrite <- app_assoc.
Qed.

Lemma enforced_copies : strdup <$> enforced_deny_globs = enforced_deny_globs.
Proof. reflexivity. Qed.

Lemma some_hit_by_globs (rules rules' : list glob_rule) (N : cbuf) :
  glob <$> rules' = glob <$> rules → some_hit rules N → some_hit rules' N.
Proof.
  intros Hg (r & Hr & Hh). apply list_elem_of_lookup in Hr as [i Hi].
  assert ((glob <$> rules') !! i = Some (glob r)) as H.
  { by rewrite Hg, list_lookup_fmap, Hi. }
  rewrite list_lookup_fmap in H. destruct (rules' !! i) as [r'|] eqn:Hi'; [|done].
  injection H as H. exists r'. split; [by eapply list_elem_of_lookup_2|].
  unfold rule_hits in *. by rewrite H.
Qed.

(** The verdict of the filter is read off the rule lists; the filter keeps
    the patterns and raises the total of the counters by at most one. *)
Lemma filter_func_verdict (att : mass_attacher) (N : cbuf) :
  ((filter_func att N).1 = true ↔ filter_passes att N) ∧
  glob <$> deny_globs (filter_func att N).2 = glob <$> deny_globs att ∧
  glob <$> allow_globs (filter_func att N).2 = glob <$> allow_globs att ∧
  rule_total att ≤ rule_total (filter_func att N).2 ≤ rule_total att + 1.
Proof.
  unfold filter_func, filter_passes, rule_total.
  assert (∀ (rules : list glob_rule) (j : nat) (r : glob_rule), rules !! j = Some r →
            glob <$> <[j := bump r]> rules = glob <$> rules) as Hbump.
  { intros rules j r Hj. rewrite list_fmap_insert. simpl.
    apply list_insert_id. by rewrite list_lookup_fmap, Hj. }
  destruct (scan_globs_cases (deny_globs att) N) as [[Hnd ->]|(j & r & Hfd & ->)].
  - cbv beta iota zeta. unfold allow_glob_cnt. rewrite !allow_globs_set_deny.
    destruct (decide (allow_globs att = [])) as [Ea|Ea].
    + rewrite Ea. simpl. rewrite ?Ea. simpl. split; [|split; [done|split; [done|lia]]].
      split; [intros _; split; [done|by left]|done].
    + assert (negb (Z.of_nat (length (allow_globs att)) =? 0) = true) as ->.
      { destruct (allow_globs att); [done|]. simpl length.
        destruct (Z.eqb_spec (Z.of_nat (S (length l))) 0); [lia|done]. }
      destruct (scan_globs_cases (allow_globs att) N) as [[Hna ->]|(k & q & Hfa & ->)]; simpl.
      * split; [|split; [done|split; [done|lia]]].
        split; [done|]. intros [_ [?|?]]; done.
      * pose proof (first_hit_some _ _ _ _ Hfa) as Hsa. destruct Hfa as (Hk & _ & _).
        split; [|split; [done|split; [by apply Hbump|]]].
        -- split; [intros _; split; [done|by right]|done].
        -- rewrite (sum_matches_bump _ _ _ Hk). lia.
  - pose proof (first_hit_some _ _ _ _ Hfd) as Hsd. destruct Hfd as (Hj & _ & _). simpl.
    split; [|split; [by apply Hbump|split; [done|]]].
    + split; [done|]. by intros [? _].
    + rewrite (sum_matches_bump _ _ _ Hj). lia.
Qed.

Lemma add_rule_denies (st : mass_attacher * heap) (op : rule_op) :
  deny_globs st.1 `prefix_of` deny_globs (add_rule st op).1.
Proof.
  destruct op as [pattern|pattern]; simpl;
    unfold mass_attacher__allow_glob, mass_attacher__deny_glob;
    destruct (negb (is_valid_glob pattern)); simpl; try done;
    destruct (alloc st.2) as [tmp h1]; destruct tmp; simpl; try done;
    destruct (alloc h1) as [s h2]; destruct s; simpl; try done.
  by apply prefix_app_r.
Qed.

Lemma add_rules_denies (ops : list rule_op) (st : mass_attacher * heap) :
  deny_globs st.1 `prefix_of` deny_globs (add_rules st ops).1.
Proof.
  revert st. induction ops as [|op ops IH]; intros st; simpl; [done|].
  etrans; [apply (add_rule_denies st op)|apply IH].
Qed.

End construction_facts.

(** X1: with options, whenever [mass_attacher__new] returns an attacher it
    is for the given template, holds the ten enforced deny rules in their
    order with counters 0, no allow rule and no entry, and carries the options,
    [verbose] being set when [debug] is; it does return one when every
    allocation succeeds, and returns null without a template. *)
Theorem new_with_options_result (h : heap) (sk : option skeleton)
    (opts : Opts.mass_attacher_opts) :
  (∀ att h', mass_attacher__new h sk (Some opts) = (Some att, h') →
     sk = Some (skel att) ∧
     deny_globs att = fresh_rule <$> enforced_deny_globs ∧
     glob <$> deny_globs att = enforced_deny_globs ∧
     matches <$> deny_globs att = replicate 10 0 ∧
     allow_globs att = [] ∧ func_infos att = [] ∧
     max_func_cnt att = Opts.max_func_cnt opts ∧
     max_fileno_rlimit att = Opts.max_fileno_rlimit opts ∧
     func_filter att = Opts.func_filter opts ∧
     debug att = Opts.debug opts ∧ debug_extra att = Opts.debug_extra opts ∧
     verbose att = Opts.debug opts || Opts.verbose opts) ∧
  (generous h → is_Some sk → is_Some (mass_attacher__new h sk (Some opts)).1) ∧
  (sk = None → mass_attacher__new h sk (Some opts) = (None, h)).
Proof.
  split; [|split].
  - intros att h' H. unfold mass_attacher__new in H.
    destruct sk as [sk|]; [|done].
    destruct (alloc h) as [ok h1]. destruct ok; cbv beta iota zeta in H; simpl negb in H;
      cbv iota in H; [|done].
    apply deny_enforced_result in H as ->. simpl.
    repeat split; done.
  - intros Hh [s ->]. destruct (new_with_opts h s opts Hh) as (att & h' & -> & _). by eexists.
  - by intros ->.
Qed.

(** X2: [mass_attacher__deny_glob] and [mass_attacher__allow_glob] return 0
    exactly when they append one rule, at the end of their list, holding a copy
    of the pattern and the counter 0; otherwise they return [-EINVAL] (the
    pattern is invalid, no allocation is made) or [-ENOMEM], and the attacher is
    as before.  The other list is never touched. *)
Theorem add_glob_outcome (h : heap) (att : mass_attacher) (pattern : option cbuf) :
  let d := mass_attacher__deny_glob h att pattern in
  let a := mass_attacher__allow_glob h att pattern in
  ((d.1.1 = 0 ∧ is_valid_glob pattern = true ∧
    d.1.2 = set_deny_globs att (deny_globs att ++ [fresh_rule (default [] pattern)])) ∨
   (d.1.1 = - EINVAL ∧ is_valid_glob pattern = false ∧ d.1.2 = att ∧ d.2 = h) ∨
   (d.1.1 = - ENOMEM ∧ is_valid_glob pattern = true ∧ d.1.2 = att)) ∧
  ((a.1.1 = 0 ∧ is_valid_glob pattern = true ∧
    a.1.2 = set_allow_globs att (allow_globs att ++ [fresh_rule (default [] pattern)])) ∨
   (a.1.1 = - EINVAL ∧ is_valid_glob pattern = false ∧ a.1.2 = att ∧ a.2 = h) ∨
   (a.1.1 = - ENOMEM ∧ is_valid_glob pattern = true ∧ a.1.2 = att)) ∧
  allow_globs d.1.2 = allow_globs att ∧ deny_globs a.1.2 = deny_globs att ∧
  glob (fresh_rule (default [] pattern)) = cstr (default [] pattern) ∧
  matches (fresh_rule (default [] pattern)) = 0.
Proof.
  intros d a. subst d a. unfold mass_attacher__deny_glob, mass_attacher__allow_glob.
  destruct (is_valid_glob pattern) eqn:Hv; simpl.
  2:{ repeat split; try done; right; left; done. }
  destruct (alloc h) as [tmp h1]. destruct tmp; simpl.
  2:{ repeat split; try done; right; right; done. }
  destruct (alloc h1) as [s h2]. destruct s; simpl.
  2:{ repeat split; try done; right; right; done. }
  repeat split; try done; left; done.
Qed.

(** X3: the enforced denies stay in force.  After [mass_attacher__new] with
    options and any sequence of [allow_glob] and [deny_glob] calls, whatever
    they return, the filter rejects every name that one of the ten enforced
    patterns matches. *)
Theorem enforced_denies_stay_in_force (h h1 h2 : heap) (sk : option skeleton)
    (opts : Opts.mass_attacher_opts) (att : mass_attacher) (ops : list rule_op)
    (g N : cbuf) :
  mass_attacher__new h sk (Some opts) = (Some att, h1) →
  g ∈ enforced_deny_globs →
  glob_accepts g N = true →
  (filter_func (add_rules (att, h2) ops).1 N).1 = false.
Proof.
  intros Hnew Hg Hacc.
  assert (deny_globs att = fresh_rule <$> enforced_deny_globs) as Hd.
  { unfold mass_attacher__new in Hnew. destruct sk as [sk|]; [|done].
    destruct (alloc h) as [ok h0]. destruct ok; cbv beta iota zeta in Hnew;
      simpl negb in Hnew; cbv iota in Hnew; [|done].
    by apply deny_enforced_result in Hnew as ->. }
  destruct (add_rules_denies ops (att, h2)) as [more Hmore]. simpl in Hmore.
  destruct ((filter_func (add_rules (att, h2) ops).1 N).1) eqn:Hf; [|done].
  apply filter_func_verdict in Hf as [Hnd _]. exfalso. apply Hnd.
  exists (fresh_rule g). split.
  - rewrite Hmore, Hd. apply elem_of_app. left. by apply list_elem_of_fmap_2.
  - unfold rule_hits, fresh_rule. simpl.
    assert (strdup g = g) as ->; [|done].
    apply list_elem_of_lookup in Hg as [i Hi].
    assert ((strdup <$> enforced_deny_globs) !! i = Some (strdup g)) as H
      by (by rewrite list_lookup_fmap, Hi).
    rewrite enforced_copies, Hi in H. by injection H.
Qed.

(** The theorem at name "rcu_read_lock_held", after a user's allow rule
    "rcu*". *)
Lemma enforced_denies_stay_in_force_witness :
  mass_attacher__new [] (Some Sample.template) (Some Sample.default_opts)
  = (Some Sample.fresh, []) ∧
  lit "rcu_read_lock*" ∈ enforced_deny_globs ∧
  glob_accepts (lit "rcu_read_lock*") (lit "rcu_read_lock_held") = true ∧
  (filter_func (add_rules (Sample.fresh, []) [allow (Some (lit "rcu*"))]).1
               (lit "rcu_read_lock_held")).1 = false.
Proof.
  assert (mass_attacher__new [] (Some Sample.template) (Some Sample.default_opts)
          = (Some Sample.fresh, [])) as H1 by (vm_compute; reflexivity).
  assert (lit "rcu_read_lock*" ∈ enforced_deny_globs) as H2.
  { apply list_elem_of_lookup. by exists 3%nat. }
  assert (glob_accepts (lit "rcu_read_lock*") (lit "rcu_read_lock_held") = true) as H3
    by reflexivity.
  split; [exact H1|]. split; [exact H2|]. split; [exact H3|].
  exact (enforced_denies_stay_in_force [] [] [] (Some Sample.template) Sample.default_opts
           Sample.fresh [allow (Some (lit "rcu*"))] _ _ H1 H2 H3).
Defined.

(** ** The pass of [prepare], step by step *)

Section pass_facts.

Lemma pass_frame_refl (att : mass_attacher) : pass_frame att att.
Proof. by repeat split. Qed.

Lemma pass_frame_trans (a b c : mass_attacher) :
  pass_frame a b → pass_frame b c → pass_frame a c.
Proof.
  intros (H1 & H2 & H3 & H4 & H5 & H6 & H7 & H8) (G1 & G2 & G3 & G4 & G5 & G6 & G7 & G8).
  repeat split; congruence.
Qed.

Lemma filter_passes_frame (att att' : mass_attacher) (N : cbuf) :
  glob <$> deny_globs att' = glob <$> deny_globs att →
  glob <$> allow_globs att' = glob <$> allow_globs att →
  filter_passes att N → filter_passes att' N.
Proof.
  intros Hd Ha [Hnd Hal]. split.
  - intros Hs. apply Hnd. by apply (some_hit_by_globs (deny_globs att')).
  - destruct Hal as [E|Hs].
    + left. rewrite E in Ha. by apply fmap_nil_inv in Ha.
    + right. by apply (some_hit_by_globs (allow_globs att)).
Qed.

Lemma entry_checked_frame (b : Btf.btf) (ks : list Ksyms.ksym) (att att' : mass_attacher)
    (idx : nat) (e : mass_attacher_func_info) :
  pass_frame att att' → entry_checked b ks att idx e → entry_checked b ks att' idx e.
Proof.
  intros (Hd & Ha & Hk & _ & Hf & _ & _)
    (t & ksym & H1 & H2 & H3 & H4 & H5 & H6 & H7 & H8 & H9 & H10).
  exists t, ksym. repeat split; try done.
  - unfold is_kprobe_ok in *. by rewrite Hk.
  - by apply (filter_passes_frame att).
  - by apply (filter_passes_frame att).
  - rewrite Hf. apply H9.
  - apply H10.
  - apply H10.
  - apply H10.
  - apply H10.
Qed.

(** One iteration of the pass: it keeps the patterns, the traceable names
    and the options; it raises the total of the rule counters by at most one;
    and either it leaves the entries alone, counting at most one skip, or it
    appends one checked entry for the type id it visits, which it does only
    below the limit on the number of entries. *)
Lemma prepare_func_step (fuel : nat) (b : Btf.btf) (ks : list Ksyms.ksym) (i : nat)
    (st st' : pass_state) (fl : flow) :
  prepare_func fuel b ks i st = Ret (fl, st') →
  pass_frame (pass_att st) (pass_att st') ∧
  rule_total (pass_att st) ≤ rule_total (pass_att st') ≤ rule_total (pass_att st) + 1 ∧
  ((func_infos (pass_att st') = func_infos (pass_att st) ∧
    func_skip st ≤ func_skip st' ≤ func_skip st + 1 ∧
    (fl = Return (- ENOMEM) ∨ fl = Next ∨ fl = Break)) ∨
   (∃ e, func_infos (pass_att st') = func_infos (pass_att st) ++ [e] ∧
         entry_checked b ks (pass_att st') (length (func_infos (pass_att st))) e ∧
         btf_id e = i ∧ fl = Next ∧ func_skip st' = func_skip st ∧
         (max_func_cnt (pass_att st) = 0 ∨
          func_cnt (pass_att st) < max_func_cnt (pass_att st)))).
Proof.
  unfold prepare_func. intros H.
  pose proof (pass_frame_refl (pass_att st)) as Hfr0.
  assert (rule_total (pass_att st) ≤ rule_total (pass_att st) ≤ rule_total (pass_att st) + 1)
    as Hrt0 by lia.
  destruct (Btf.btf__type_by_id b i) as [t|] eqn:Ht; [|done].
  destruct (Btf.btf_is_func t) eqn:Hfunc; simpl negb in H; cbv iota in H.
  2:{ injection H as <- <-. split; [done|]. split; [done|]. left.
      split; [done|]. split; [lia|]. by right; left. }
  destruct (Ksyms.ksyms__get_symbol ks (Btf.name t)) as [ksym|] eqn:Hks.
  2:{ injection H as <- <-. simpl. split; [done|]. split; [done|]. left.
      split; [done|]. split; [lia|]. by right; left. }
  destruct (filter_func_fields (pass_att st) (Btf.name t)) as (d & a & Hfields).
  destruct (filter_func_verdict (pass_att st) (Btf.name t)) as (Hverdict & Hgd & Hga & Hrt).
  destruct (filter_func (pass_att st) (Btf.name t)) as [proceed att1].
  simpl in Hfields, Hverdict, Hgd, Hga, Hrt.
  assert (pass_frame (pass_att st) att1) as Hfr1.
  { subst att1. by repeat split. }
  assert (func_infos att1 = func_infos (pass_att st)) as Hinfos by (by subst att1).
  assert (max_func_cnt att1 = max_func_cnt (pass_att st)) as Hmax by (by subst att1).
  clear Hfields. cbv zeta in H.
  destruct proceed; simpl negb in H; cbv iota in H.
  2:{ injection H as <- <-. simpl. split; [done|]. split; [done|]. left.
      split; [done|]. split; [lia|]. by right; left. }
  destruct (is_kprobe_ok att1 (Btf.name t)) as [[|]| |] eqn:Hkp; simpl in H; try done.
  2:{ injection H as <- <-. simpl. split; [done|]. split; [done|]. left.
      split; [done|]. split; [lia|]. by right; left. }
  destruct (Btf.is_func_type_ok fuel b t) as [[|]| |] eqn:Hok; simpl in H; try done.
  2:{ injection H as <- <-. simpl. split; [done|]. split; [done|]. left.
      split; [done|]. split; [lia|]. by right; left. }
  destruct (negb (max_func_cnt att1 =? 0) && (max_func_cnt att1 <=? func_cnt att1)) eqn:Hcap.
  { injection H as <- <-. simpl. split; [done|]. split; [done|]. left.
    split; [done|]. split; [lia|]. by right; right. }
  destruct (match func_filter att1 with
            | Some f => negb (f b i (Btf.name t) (func_cnt att1))
            | None => false
            end) eqn:Hff.
  { injection H as <- <-. simpl. split; [done|]. split; [done|]. left.
    split; [done|]. split; [lia|]. by right; left. }
  destruct (Btf.func_arg_cnt b i) as [arity| |] eqn:Harity; simpl in H; try done.
  destruct (alloc (pass_heap st)) as [tmp h]. destruct tmp; simpl in H.
  2:{ injection H as <- <-. simpl. split; [done|]. split; [done|]. left.
      split; [done|]. split; [lia|]. by left. }
  injection H as <- <-. simpl.
  assert (pass_frame att1 (add_func att1 ksym arity i)) as Hfr2 by (by repeat split).
  split; [by eapply pass_frame_trans|]. split; [done|]. right.
  eexists. rewrite Hinfos. split; [reflexivity|].
  split; [|split; [done|split; [done|split; [done|]]]].
  - apply (entry_checked_frame b ks att1); [done|].
    exists t, ksym. simpl. rewrite Ht.
    repeat split; try done.
    + by exists fuel.
    + eapply filter_passes_frame; [exact Hgd|exact Hga|]. by apply Hverdict.
    + eapply filter_passes_frame; [exact Hgd|exact Hga|]. by apply Hverdict.
    + intros f Hf. rewrite Hf in Hff. unfold func_cnt in Hff. rewrite Hinfos in Hff.
      by destruct (f b i (Btf.name t) _).
    + by eapply func_arg_cnt_le.
  - rewrite <- Hmax. unfold func_cnt in *. rewrite <- Hinfos.
    apply andb_false_iff in Hcap as [Hc|Hc].
    + left. apply negb_false_iff in Hc. by apply Z.eqb_eq in Hc.
    + right. apply Z.leb_gt in Hc. done.
Qed.

End pass_facts.

Section prepare_facts.

(** The pass over the ids [start .. start + n - 1]: it only appends
    entries, in increasing order of type id, each of them checked; a limit on
    the number of entries is respected by every entry it appends. *)
Lemma prepare_pass_steps (fuel : nat) (b : Btf.btf) (ks : list Ksyms.ksym) (n start : nat)
    (st st' : pass_state) (fl : flow) :
  prepare_pass fuel b ks (seq start n) st = Ret (fl, st') →
  pass_frame (pass_att st) (pass_att st') ∧
  rule_total (pass_att st) ≤ rule_total (pass_att st')
    ≤ rule_total (pass_att st) + Z.of_nat n ∧
  func_skip st ≤ func_skip st' ∧
  (fl = Next ∨ fl = Break ∨ fl = Return (- ENOMEM)) ∧
  ∃ new, func_infos (pass_att st') = func_infos (pass_att st) ++ new ∧
    func_skip st' - func_skip st + Z.of_nat (length new) ≤ Z.of_nat n ∧
    Forall (λ e, (start ≤ btf_id e < start + n)%nat) new ∧
    StronglySorted lt (btf_id <$> new) ∧
    (∀ j e, new !! j = Some e →
       entry_checked b ks (pass_att st') (length (func_infos (pass_att st)) + j) e) ∧
    (new ≠ [] → max_func_cnt (pass_att st) = 0 ∨
                func_cnt (pass_att st') ≤ max_func_cnt (pass_att st)).
Proof.
  revert start st. induction n as [|n IH]; intros start st H; simpl in H.
  { injection H as <- <-. split; [apply pass_frame_refl|]. split; [lia|]. split; [lia|].
    split; [by left|]. exists []. rewrite app_nil_r. split; [done|]. split; [simpl; lia|].
    split; [constructor|]. split; [constructor|]. split; [done|done]. }
  destruct (prepare_func fuel b ks start st) as [[fl1 st1]| |] eqn:E; simpl in H; try done.
  destruct (prepare_func_step _ _ _ _ _ _ _ E) as (Hfr & Hrt & Hcase).
  assert (max_func_cnt (pass_att st1) = max_func_cnt (pass_att st)) as Hmax by apply Hfr.
  destruct Hcase as [(Hinf & Hsk & Hfl)|(e & Hinf & Hchk & Hid & -> & Hsk & Hcap)].
  - assert (fl1 ≠ Next → fl = fl1 ∧ st' = st1) as Hstop.
    { intros Hne. destruct fl1; [done| |]; by injection H as <- <-. }
    destruct fl1.
    + destruct (IH _ _ H) as (Hfr2 & Hrt2 & Hsk2 & Hfl2 & new & Hinf2 & Hcnt & Hrange & Hsorted
                              & Hchk & Hcap).
      split; [by eapply pass_frame_trans|]. split; [lia|]. split; [lia|]. split; [done|].
      exists new. rewrite Hinf2, Hinf. split; [done|]. split; [lia|].
      split; [eapply Forall_impl; [exact Hrange|]; simpl; lia|]. split; [done|].
      split; [by rewrite <- Hinf|]. by rewrite <- Hmax.
    + destruct Hstop as [-> ->]; [done|].
      split; [done|]. split; [lia|]. split; [lia|]. split; [by right; left|].
      exists []. rewrite app_nil_r. split; [done|]. split; [simpl; lia|].
      split; [constructor|]. split; [constructor|]. split; [done|done].
    + destruct Hstop as [-> ->]; [done|].
      split; [done|]. split; [lia|]. split; [lia|].
      split; [destruct Hfl as [?|[?|?]]; [by right; right|done|done]|].
      exists []. rewrite app_nil_r. split; [done|]. split; [simpl; lia|].
      split; [constructor|]. split; [constructor|]. split; [done|done].
  - destruct (IH _ _ H) as (Hfr2 & Hrt2 & Hsk2 & Hfl2 & new & Hinf2 & Hcnt & Hrange & Hsorted
                            & Hchk2 & Hcap2).
    split; [by eapply pass_frame_trans|]. split; [lia|]. split; [lia|]. split; [done|].
    exists (e :: new). rewrite Hinf2, Hinf, <- app_assoc. split; [done|].
    split; [simpl length; lia|].
    split.
    { constructor; [lia|]. eapply Forall_impl; [exact Hrange|]. simpl. lia. }
    split.
    { rewrite fmap_cons. constructor; [done|]. rewrite Forall_fmap.
      eapply Forall_impl; [exact Hrange|]. simpl. lia. }
    split.
    { intros [|j] e' Hj.
      - injection Hj as <-. rewrite Nat.add_0_r. by eapply entry_checked_frame.
      - specialize (Hchk2 j e' Hj). rewrite Hinf, length_app in Hchk2. simpl in Hchk2.
        by rewrite <- Nat.add_assoc in Hchk2. }
    intros _. destruct Hcap as [Hz|Hlt]; [by left|]. right.
    destruct new as [|e2 new].
    + unfold func_cnt in *. rewrite Hinf2, Hinf, app_nil_r, length_app. simpl. lia.
    + rewrite Hmax in Hcap2. destruct Hcap2 as [?|?]; [done| |done].
      unfold func_cnt in *. lia.
Qed.

End prepare_facts.

(** ** The traceable names *)

Section kprobe_facts.

Lemma bytes_cmp_swap (a b : list ascii) : bytes_cmp b a = - bytes_cmp a b.
Proof.
  revert b. induction a as [|x a IH]; intros [|y b]; simpl; try lia.
  rewrite (Z.eqb_sym (code y) (code x)).
  destruct (code x =? code y); [apply IH|lia].
Qed.

Lemma str_cmp_swap (a b : cbuf) : str_cmp b a = - str_cmp a b.
Proof. apply bytes_cmp_swap. Qed.

Lemma str_le_total : Total str_le.
Proof. intros a b. unfold str_le. rewrite (str_cmp_swap a b). lia. Qed.

Lemma strings_Some (a : list (option cbuf)) (l : list cbuf) :
  strings a = Some l ↔ a = Some <$> l.
Proof.
  unfold strings. split.
  - intros H. symmetry. apply (mapM_fmap_Some_inv id Some _ _ H). intros x y Hx.
    unfold id in Hx. by subst x.
  - intros ->. by apply mapM_fmap_Some.
Qed.

Lemma strings_None (a : list (option cbuf)) : strings a = None ↔ None ∈ a.
Proof.
  unfold strings. rewrite mapM_None, Exists_exists. split.
  - intros (x & Hx & E). unfold id in E. by subst x.
  - intros H. by exists None.
Qed.

(** The array after the [fscanf] loop: the entries held before, then
    copies of the names read, all of them on 0; on [-ENOMEM] those read before
    the failure, and a null entry when it was [strdup] that failed. *)
Lemma read_kprobes_spec (names : list cbuf) (h h' : heap) (att att' : mass_attacher) (err : Z) :
  read_kprobes h att names = (err, att', h') →
  ((err = 0 ∧ kprobes att' = kprobes att ++ (Some <$> (strdup <$> names))) ∨
   (err = - ENOMEM ∧
    ∃ k, (k < length names)%nat ∧
      (kprobes att' = kprobes att ++ (Some <$> (strdup <$> take k names)) ∨
       kprobes att' = kprobes att ++ (Some <$> (strdup <$> take k names)) ++ [None]))) ∧
  (generous h → err = 0).
Proof.
  revert h att. induction names as [|nm names IH]; intros h att H; simpl in H.
  { injection H as <- <- <-. split; [|done]. left. by rewrite app_nil_r. }
  pose proof (alloc_generous h) as Hg1.
  destruct (alloc h) as [tmp h1]. destruct tmp; simpl in H.
  2:{ injection H as <- <- <-. split.
      - right. split; [done|]. exists 0%nat. simpl. split; [lia|]. left.
        by rewrite app_nil_r.
      - intros Hg. by destruct (Hg1 Hg). }
  pose proof (alloc_generous h1) as Hg2.
  destruct (alloc h1) as [s h2]. destruct s; simpl in H.
  2:{ injection H as <- <- <-. split.
      - right. split; [done|]. exists 0%nat. simpl. split; [lia|]. by right.
      - intros Hg. destruct (Hg1 Hg) as [_ Hg']. by destruct (Hg2 Hg'). }
  apply IH in H as [H Hgen]. simpl in H. split.
  - destruct H as [[-> ->]|[-> (k & Hk & [->| ->])]].
    + left. by rewrite <- app_assoc.
    + right. split; [done|]. exists (S k). simpl. split; [lia|]. left.
      by rewrite <- app_assoc.
    + right. split; [done|]. exists (S k). simpl. split; [lia|]. right.
      by rewrite <- !app_assoc.
  - intros Hg. apply Hgen. destruct (Hg1 Hg) as [_ Hg']. by destruct (Hg2 Hg').
Qed.

(** The sort: an array without a null entry comes out sorted; one with a
    null entry is left alone when that entry is all it holds, and faults
    otherwise. *)
Lemma sort_kprobes_spec (a : list (option cbuf)) :
  (∀ l, a = Some <$> l → sort_kprobes a = Ret (Some <$> qsort l)) ∧
  (None ∈ a → (length a ≤ 1)%nat → a = [None] ∧ sort_kprobes a = Ret a) ∧
  (None ∈ a → (2 ≤ length a)%nat → sort_kprobes a = Crash).
Proof.
  unfold sort_kprobes. split; [|split].
  - intros l Hl. apply strings_Some in Hl. by rewrite Hl.
  - intros Hn Hlen. pose proof Hn as Hs. apply strings_None in Hs. rewrite Hs.
    destruct a as [|x [|y a]]; simpl in Hlen; [by apply elem_of_nil in Hn| |lia].
    apply list_elem_of_singleton in Hn as <-. done.
  - intros Hn Hlen. apply strings_None in Hn. rewrite Hn.
    destruct (Nat.leb_spec (length a) 1); [lia|done].
Qed.

Lemma is_kprobe_ok_elem (att : mass_attacher) (l : list cbuf) (nm : cbuf) :
  kprobes att = Some <$> l →
  is_kprobe_ok att nm = Ret (existsb (λ k, str_cmp nm k =? 0) l) ∧
  (is_kprobe_ok att nm = Ret true ↔ ∃ k, k ∈ l ∧ cstr k = cstr nm).
Proof.
  intros Hl. apply strings_Some in Hl. unfold is_kprobe_ok. rewrite Hl. split; [done|].
  split.
  - intros [= H]. apply existsb_exists in H as (k & Hin & Hk).
    exists k. split; [by apply list_elem_of_In|].
    apply Z.eqb_eq in Hk. by apply strcmp_eq in Hk.
  - intros (k & Hin & Hk). f_equal. apply existsb_exists.
    exists k. split; [by apply list_elem_of_In|].
    apply Z.eqb_eq. by apply strcmp_eq.
Qed.

Lemma is_kprobe_ok_null (att : mass_attacher) (nm : cbuf) :
  None ∈ kprobes att → is_kprobe_ok att nm = Crash.
Proof. intros H. apply strings_None in H. unfold is_kprobe_ok. by rewrite H. Qed.

(** The results of [load_available_kprobes] and the array it leaves. *)
Lemma load_available_kprobes_spec (hst : host) (h h' : heap) (att att' : mass_attacher)
    (err : Z) :
  load_available_kprobes hst h att = Ret (err, att', h') →
  (∀ errno, available_filter_functions hst = inl errno →
     err = - Z.pos errno ∧ att' = att ∧ h' = h) ∧
  (∀ names, available_filter_functions hst = inr names →
     (err = 0 ∨ err = - ENOMEM) ∧
     (generous h → err = 0) ∧
     (err = 0 →
        sort_kprobes (kprobes att ++ (Some <$> (strdup <$> names))) = Ret (kprobes att')) ∧
     (err = - ENOMEM →
        ∃ k, (k < length names)%nat ∧
          (kprobes att' = kprobes att ++ (Some <$> (strdup <$> take k names)) ∨
           kprobes att' = kprobes att ++ (Some <$> (strdup <$> take k names)) ++ [None]))).
Proof.
  unfold load_available_kprobes. intros H.
  destruct (available_filter_functions hst) as [errno|names].
  { injection H as <- <- <-. split; [|done]. intros ? [= <-]. done. }
  split; [done|]. intros ? [= <-].
  destruct (read_kprobes h att names) as [[err1 att1] h1] eqn:Hread.
  apply read_kprobes_spec in Hread as [Hread Hgen].
  destruct (Z.eqb_spec err1 0) as [->|Hne]; simpl negb in H; cbv iota in H.
  - destruct Hread as [[_ Hkp]|[? _]]; [|done].
    destruct (sort_kprobes (kprobes att1)) as [sorted| |] eqn:Hsort; simpl in H; try done.
    injection H as <- <- <-.
    split; [by left|]. split; [done|]. split; [|done]. intros _. simpl. by rewrite <- Hkp.
  - injection H as <- <- <-. destruct Hread as [[? _]|[-> Hk]]; [done|].
    split; [by right|]. split; [done|]. split; [done|]. done.
Qed.

(** The names [is_kprobe_ok] accepts after a [load_available_kprobes] that
    returned 0. *)
Lemma is_kprobe_ok_loaded (a a' : mass_attacher) (names : list cbuf) (nm : cbuf) :
  sort_kprobes (kprobes a ++ (Some <$> (strdup <$> names))) = Ret (kprobes a') →
  is_kprobe_ok a' nm = Ret true ↔
  ∃ k, (Some k ∈ kprobes a ∨ k ∈ names) ∧ cstr k = cstr nm.
Proof.
  intros Hsort.
  destruct (strings (kprobes a)) as [old|] eqn:Hold.
  - apply strings_Some in Hold.
    destruct (sort_kprobes_spec (kprobes a ++ (Some <$> (strdup <$> names)))) as [Hs _].
    rewrite (Hs (old ++ (strdup <$> names))) in Hsort by (by rewrite fmap_app, Hold).
    injection Hsort as Hkp. symmetry in Hkp.
    destruct (is_kprobe_ok_elem a' _ nm Hkp) as [_ ->]. unfold qsort. split.
    + intros (k & Hin & Hk). rewrite merge_sort_Permutation in Hin.
      apply elem_of_app in Hin as [Hin|Hin].
      * exists k. split; [|done]. left. rewrite Hold. by apply list_elem_of_fmap_2.
      * apply list_elem_of_fmap in Hin as (k0 & -> & Hin).
        exists k0. split; [by right|]. unfold strdup in Hk. by rewrite cstr_idemp in Hk.
    + intros (k & [Hin|Hin] & Hk).
      * exists k. split; [|done]. rewrite merge_sort_Permutation. apply elem_of_app. left.
        rewrite Hold in Hin. apply list_elem_of_fmap in Hin as (k0 & [= ->] & Hin). done.
      * exists (strdup k). split.
        -- rewrite merge_sort_Permutation. apply elem_of_app. right.
           by apply list_elem_of_fmap_2.
        -- unfold strdup. by rewrite cstr_idemp.
  - apply strings_None in Hold.
    assert (None ∈ kprobes a ++ (Some <$> (strdup <$> names))) as Hnull
      by (apply elem_of_app; by left).
    destruct (sort_kprobes_spec (kprobes a ++ (Some <$> (strdup <$> names))))
      as (_ & Hone & Hcrash).
    destruct (decide (length (kprobes a ++ (Some <$> (strdup <$> names))) ≤ 1)%nat)
      as [Hlen|Hlen].
    2:{ rewrite Hcrash in Hsort by (done || lia). done. }
    destruct (Hone Hnull Hlen) as [Hall Hsame]. rewrite Hsame in Hsort.
    injection Hsort as Hkp. rewrite Hall in Hkp.
    rewrite is_kprobe_ok_null by (rewrite <- Hkp; apply list_elem_of_singleton; done).
    split; [done|]. intros (k & [Hin|Hin] & _).
    + assert (Some k ∈ kprobes a ++ (Some <$> (strdup <$> names))) as Hin'
        by (apply elem_of_app; by left).
      rewrite Hall in Hin'. by apply list_elem_of_singleton in Hin'.
    + assert (Some (strdup k) ∈ kprobes a ++ (Some <$> (strdup <$> names))) as Hin'.
      { apply elem_of_app. right. by do 2 apply list_elem_of_fmap_2. }
      rewrite Hall in Hin'. by apply list_elem_of_singleton in Hin'.
Qed.

End kprobe_facts.

(** X4: [load_available_kprobes].  When the file cannot be opened it
    returns the negated errno and nothing has changed.  Otherwise, whenever it
    returns, the result is 0 or [-ENOMEM], and not [-ENOMEM] when no allocation
    fails.  On [-ENOMEM] the array holds the entries held before, then copies
    of the names read before the failure, and then a null entry when it was
    [strdup] that failed.  On 0, from an array without a null entry, the array
    holds the names held before and copies of the names read, sorted by
    [str_cmp] (as the binary search of [is_kprobe_ok] needs), and
    [is_kprobe_ok] accepts a name exactly when it is one of them.  From an
    array without a null entry the call does return.  From an array with a null
    entry, as a failed [strdup] of an earlier call leaves it, a call in which no
    allocation fails faults in the sort as soon as there are two entries to
    sort; with the null entry alone it returns 0 and the search then faults. *)
Theorem available_kprobes_sorted (hst : host) (h : heap) (att : mass_attacher) :
  (∀ errno, available_filter_functions hst = inl errno →
     load_available_kprobes hst h att = Ret (- Z.pos errno, att, h)) ∧
  (∀ names, available_filter_functions hst = inr names →
     (∀ err att' h', load_available_kprobes hst h att = Ret (err, att', h') →
        (err = 0 ∨ err = - ENOMEM) ∧
        (generous h → err = 0) ∧
        (err = - ENOMEM →
           ∃ k, (k < length names)%nat ∧
             (kprobes att' = kprobes att ++ (Some <$> (strdup <$> take k names)) ∨
              kprobes att' =
                kprobes att ++ (Some <$> (strdup <$> take k names)) ++ [None])) ∧
        (err = 0 →
           (∀ old, kprobes att = Some <$> old →
              ∃ new, kprobes att' = Some <$> new ∧ Sorted str_le new ∧
                     new ≡ₚ old ++ (strdup <$> names) ∧
                     ∀ nm, is_kprobe_ok att' nm = Ret true ↔
                           ∃ k, k ∈ old ++ names ∧ cstr k = cstr nm) ∧
           (None ∈ kprobes att →
              kprobes att = [None] ∧ names = [] ∧ kprobes att' = [None] ∧
              ∀ nm, is_kprobe_ok att' nm = Crash))) ∧
     (∀ old, kprobes att = Some <$> old →
        ∃ r, load_available_kprobes hst h att = Ret r) ∧
     (None ∈ kprobes att → generous h →
      (2 ≤ length (kprobes att) + length names)%nat →
      load_available_kprobes hst h att = Crash)).
Proof.
  split.
  { intros errno He. unfold load_available_kprobes. by rewrite He. }
  intros names Hnames. split; [|split].
  - intros err att' h' H.
    apply load_available_kprobes_spec in H as [_ Hread].
    destruct (Hread names Hnames) as (Herr & Hgen & Hok & Hfail).
    split; [exact Herr|]. split; [exact Hgen|]. split; [exact Hfail|].
    intros Hz. specialize (Hok Hz).
    destruct (sort_kprobes_spec (kprobes att ++ (Some <$> (strdup <$> names))))
      as (Hs & Hone & Hcrash).
    split.
    + intros old Hold.
      rewrite (Hs (old ++ (strdup <$> names))) in Hok by (by rewrite fmap_app, Hold).
      injection Hok as Hkp. symmetry in Hkp.
      exists (qsort (old ++ (strdup <$> names))). split; [done|]. split; [|split].
      * pose proof str_le_total as Htot. apply (Sorted_merge_sort str_le).
      * apply merge_sort_Permutation.
      * intros nm. destruct (is_kprobe_ok_elem att' _ nm Hkp) as [_ ->].
        unfold qsort. split; intros (k & Hin & Hk).
        -- rewrite merge_sort_Permutation in Hin. apply elem_of_app in Hin as [Hin|Hin].
           ++ exists k. split; [apply elem_of_app; by left|done].
           ++ apply list_elem_of_fmap in Hin as (k0 & -> & Hin).
              exists k0. split; [apply elem_of_app; by right|].
              unfold strdup in Hk. by rewrite cstr_idemp in Hk.
        -- apply elem_of_app in Hin as [Hin|Hin].
           ++ exists k. split; [|done]. rewrite merge_sort_Permutation.
              apply elem_of_app. by left.
           ++ exists (strdup k). split.
              ** rewrite merge_sort_Permutation. apply elem_of_app. right.
                 by apply list_elem_of_fmap_2.
              ** unfold strdup. by rewrite cstr_idemp.
    + intros Hnull.
      assert (None ∈ kprobes att ++ (Some <$> (strdup <$> names))) as Hnull'
        by (apply elem_of_app; by left).
      destruct (decide (length (kprobes att ++ (Some <$> (strdup <$> names))) ≤ 1)%nat)
        as [Hlen|Hlen].
      2:{ rewrite Hcrash in Hok by (done || lia). done. }
      destruct (Hone Hnull' Hlen) as [Hall Hsame]. rewrite Hsame in Hok.
      injection Hok as Hkp. rewrite Hall in Hkp.
      rewrite length_app, !length_fmap in Hlen.
      assert (names = []) as -> by (destruct names; [done|];
        apply list_elem_of_lookup in Hnull as [j Hj]; apply lookup_lt_Some in Hj;
        simpl in Hlen; lia).
      rewrite app_nil_r in Hall. do 3 (split; [done|]).
      intros nm. apply is_kprobe_ok_null. rewrite <- Hkp.
      by apply list_elem_of_singleton.
  - intros old Hold. unfold load_available_kprobes. rewrite Hnames.
    destruct (read_kprobes h att names) as [[err1 att1] h1] eqn:Hread.
    apply read_kprobes_spec in Hread as [Hread _].
    destruct (Z.eqb_spec err1 0) as [->|Hne]; simpl negb; cbv iota; [|by eexists].
    destruct Hread as [[_ Hkp]|[? _]]; [|done].
    destruct (sort_kprobes_spec (kprobes att1)) as [Hs _].
    rewrite (Hs (old ++ (strdup <$> names))) by (by rewrite Hkp, fmap_app, Hold).
    by eexists.
  - intros Hnull Hgen Hlen. unfold load_available_kprobes. rewrite Hnames.
    destruct (read_kprobes h att names) as [[err1 att1] h1] eqn:Hread.
    apply read_kprobes_spec in Hread as [Hread Hz]. specialize (Hz Hgen). subst err1.
    destruct Hread as [[_ Hkp]|[? _]]; [|done].
    simpl negb. cbv iota.
    destruct (sort_kprobes_spec (kprobes att1)) as (_ & _ & Hcrash).
    rewrite Hcrash; [done| |].
    + rewrite Hkp. apply elem_of_app. by left.
    + rewrite Hkp, length_app, !length_fmap. lia.
Qed.

(** The theorem on the names [foo], [bar] and [baz]: read into an empty
    array they come out sorted; when the [strdup] of the first name fails the
    call returns [-ENOMEM] with a null entry, and the next call faults. *)
Lemma available_kprobes_sorted_witness :
  let hst := Sample.three_funcs_host in
  let failed := set_kprobes Sample.fresh [None] in
  load_available_kprobes hst [] Sample.fresh
  = Ret (0, set_kprobes Sample.fresh (Some <$> [lit "bar"; lit "baz"; lit "foo"]), []) ∧
  load_available_kprobes hst [true; false] Sample.fresh = Ret (- ENOMEM, failed, []) ∧
  load_available_kprobes hst [] failed = Crash.
Proof.
  intros hst failed.
  split; [vm_compute; reflexivity|]. split; [vm_compute; reflexivity|].
  destruct (available_kprobes_sorted hst [] failed) as [_ Hread].
  destruct (Hread _ eq_refl) as (_ & _ & Hcrash).
  apply Hcrash.
  - by apply list_elem_of_singleton.
  - constructor.
  - simpl. lia.
Defined.

(** ** [prepare] as a whole *)

Section setup_facts.

Lemma bump_rlimit_le (hst : host) (r : rlimit_resource) (m : Z) : bump_rlimit hst r m ≤ 0.
Proof. unfold bump_rlimit. destruct (setrlimit hst r m); lia. Qed.

(** Whatever the setup returns, the code is not positive and the rules, the
    entries, the options and the template are as before; on 0 the attacher
    holds the host's symbols, type database and traceable names. *)
Lemma prepare_setup_any (hst : host) (h h1 : heap) (att att1 : mass_attacher) (err : Z) :
  prepare_setup hst h att = Ret (err, att1, h1) →
  err ≤ 0 ∧
  deny_globs att1 = deny_globs att ∧ allow_globs att1 = allow_globs att ∧
  func_infos att1 = func_infos att ∧ max_func_cnt att1 = max_func_cnt att ∧
  func_filter att1 = func_filter att ∧ skel att1 = skel att ∧
  (err = 0 →
     ∃ ks b names,
       kallsyms hst = Some ks ∧ ksyms att1 = Some ks ∧
       kernel_btf hst = inr b ∧ vmlinux_btf att1 = Some b ∧
       available_filter_functions hst = inr names ∧
       ∀ nm, is_kprobe_ok att1 nm = Ret true ↔
             ∃ k, (Some k ∈ kprobes att ∨ k ∈ names) ∧ cstr k = cstr nm).
Proof.
  unfold prepare_setup. intros H.
  destruct (kallsyms hst) as [ks|].
  2:{ injection H as <- <- <-. by repeat (split; [done|]). }
  pose proof (bump_rlimit_le hst RLIMIT_MEMLOCK RLIM_INFINITY) as Hle1.
  destruct (Z.eqb_spec (bump_rlimit hst RLIMIT_MEMLOCK RLIM_INFINITY) 0) as [E1|E1];
    simpl negb in H; cbv iota in H.
  2:{ injection H as <- <- <-. by repeat (split; [done|]). }
  match type of H with
  | (if negb (?e =? 0) then _ else _) = _ =>
      assert (e ≤ 0) as Hle2 by apply bump_rlimit_le;
      destruct (Z.eqb_spec e 0) as [E2|E2]; simpl negb in H; cbv iota in H
  end.
  2:{ injection H as <- <- <-. by repeat (split; [done|]). }
  destruct (load_available_kprobes hst h (set_ksyms att (Some ks))) as [[[err2 att2] h2]| |]
    eqn:Hload; simpl in H; try done.
  destruct (load_available_kprobes_fields _ _ _ _ _ _ Hload) as [kp Hkp].
  apply load_available_kprobes_spec in Hload as [Hopen Hread].
  assert (err2 ≤ 0) as Hle3.
  { destruct (available_filter_functions hst) as [errno|names].
    - destruct (Hopen _ eq_refl) as (-> & _). lia.
    - destruct (Hread _ eq_refl) as (Hc & _). destruct Hc; subst err2; [done|].
      unfold ENOMEM. lia. }
  destruct (Z.eqb_spec err2 0) as [E3|E3]; simpl negb in H; cbv iota in H.
  2:{ injection H as <- <- <-. subst att2. by repeat (split; [done|]). }
  destruct (kernel_btf hst) as [e|b].
  { injection H as <- <- <-. subst att2. by repeat (split; [done|]). }
  injection H as <- <- <-. split; [done|]. subst err2.
  destruct (available_filter_functions hst) as [errno|names].
  { destruct (Hopen _ eq_refl) as (? & _). lia. }
  destruct (Hread _ eq_refl) as (_ & _ & Hok & _). specialize (Hok eq_refl).
  do 6 (split; [by rewrite Hkp|]). intros _.
  exists ks, b, names. do 5 (split; [by rewrite ?Hkp|]).
  intros nm. rewrite <- (is_kprobe_ok_loaded (set_ksyms att (Some ks)) att2 names nm Hok).
  unfold is_kprobe_ok. by rewrite Hkp.
Qed.

(** The ways [prepare] returns: with the error of the setup; with
    [-ENOMEM] from the pass; or after a pass that ended, with [-ENOENT] and no
    entry, or with 0, some entry and the template armed. *)
Lemma prepare_cases (fuel : nat) (hst : host) (h0 h : heap) (att0 att : mass_attacher)
    (err : Z) :
  mass_attacher__prepare fuel hst h0 att0 = Ret (err, att, h) →
  (err < 0 ∧ prepare_setup hst h0 att0 = Ret (err, att, h)) ∨
  ∃ att1 h1 fl st,
    prepare_setup hst h0 att0 = Ret (0, att1, h1) ∧
    type_pass fuel att1 h1 = Ret (fl, st) ∧
    ((fl = Return (- ENOMEM) ∧ err = - ENOMEM ∧ att = pass_att st) ∨
     (fl ≠ Return (- ENOMEM) ∧ func_cnt (pass_att st) = 0 ∧ err = - ENOENT ∧
      att = pass_att st) ∨
     (fl ≠ Return (- ENOMEM) ∧ func_cnt (pass_att st) ≠ 0 ∧ err = 0 ∧
      ∃ att2, arm (pass_att st) (seq 0 (S Btf.MAX_FUNC_ARG_CNT)) = Ret att2 ∧
              att = set_skel att2 (bpf_map__set_max_entries (func_cnt att2) (skel att2)))).
Proof.
  unfold mass_attacher__prepare. intros H.
  destruct (prepare_setup hst h0 att0) as [[[err1 att1] h1]| |] eqn:Hsetup; simpl in H;
    try done.
  pose proof (prepare_setup_any _ _ _ _ _ _ Hsetup) as (Hle & _).
  destruct (Z.eqb_spec err1 0) as [->|Hne]; simpl negb in H; cbv iota in H.
  2:{ injection H as <- <- <-. left. split; [lia|done]. }
  right. destruct (type_pass fuel att1 h1) as [[fl st]| |] eqn:Hpass; simpl in H; try done.
  exists att1, h1, fl, st. split; [done|]. split; [done|].
  assert (fl = Next ∨ fl = Break ∨ fl = Return (- ENOMEM)) as Hfl.
  { unfold type_pass in Hpass. destruct (ksyms att1); [|done]. destruct (vmlinux_btf att1); [|done].
    by apply prepare_pass_steps in Hpass as (_ & _ & _ & Hfl & _). }
  assert (fl ≠ Return (- ENOMEM) →
          prepare_finish (pass_att st) (pass_heap st) = Ret (err, att, h)) as Hfin.
  { intros Hne. by destruct Hfl as [ -> | [ -> | -> ] ]. }
  destruct Hfl as [Hfl|[Hfl|Hfl]].
  3:{ subst fl. injection H as <- <- <-. by left. }
  all: right; assert (fl ≠ Return (- ENOMEM)) as Hne by (by subst fl);
    specialize (Hfin Hne); unfold prepare_finish in Hfin;
    destruct (Z.eqb_spec (func_cnt (pass_att st)) 0) as [E|E];
    [injection Hfin as <- <- <-; by left|];
    destruct (arm (pass_att st) _) as [att2| |] eqn:Ea; simpl in Hfin; try done;
    injection Hfin as <- <- <-; right; do 3 (split; [done|]); by exists att2.
Qed.

Lemma set_skel_same (att : mass_attacher) : set_skel att (skel att) = att.
Proof. by destruct att. Qed.

(** [prepare] seen from its result: the setup failed, or the pass ran over
    the host's type database and the attacher is the one the pass left, with
    the template armed when the result is 0. *)
Lemma prepare_view (fuel : nat) (hst : host) (h0 h : heap) (att0 att : mass_attacher)
    (err : Z) :
  mass_attacher__prepare fuel hst h0 att0 = Ret (err, att, h) →
  (err < 0 ∧ prepare_setup hst h0 att0 = Ret (err, att, h)) ∨
  ∃ att1 h1 fl st ks b sk,
    prepare_setup hst h0 att0 = Ret (0, att1, h1) ∧
    ksyms att1 = Some ks ∧ vmlinux_btf att1 = Some b ∧
    prepare_pass fuel b ks (seq 1 (Btf.btf__get_nr_types b))
      {| pass_att := att1; func_skip := 0; pass_heap := h1 |} = Ret (fl, st) ∧
    att = set_skel (pass_att st) sk ∧
    (err ≠ 0 → err < 0 ∧ sk = skel (pass_att st)) ∧
    (err = 0 →
       func_cnt (pass_att st) ≠ 0 ∧
       ∃ att2, arm (pass_att st) (seq 0 (S Btf.MAX_FUNC_ARG_CNT)) = Ret att2 ∧
               sk = bpf_map__set_max_entries (func_cnt att2) (skel att2)).
Proof.
  intros H. apply prepare_cases in H as [H|(att1 & h1 & fl & st & Hsetup & Hpass & H)];
    [by left|right].
  destruct (prepare_setup_any _ _ _ _ _ _ Hsetup) as (_ & _ & _ & _ & _ & _ & _ & Hok).
  destruct (Hok eq_refl) as (ks & b & names & _ & Hks & _ & Hb & _).
  unfold type_pass in Hpass. rewrite Hks, Hb in Hpass.
  exists att1, h1, fl, st, ks, b.
  destruct H as [(_ & -> & ->)|[(_ & _ & -> & ->)|(_ & Hne & -> & att2 & Harm & ->)]].
  - exists (skel (pass_att st)). do 4 (split; [done|]). rewrite set_skel_same.
    split; [done|]. split; [|done]. intros _. unfold ENOMEM. split; [lia|done].
  - exists (skel (pass_att st)). do 4 (split; [done|]). rewrite set_skel_same.
    split; [done|]. split; [|done]. intros _. unfold ENOENT. split; [lia|done].
  - exists (bpf_map__set_max_entries (func_cnt att2) (skel att2)).
    do 4 (split; [done|]). split.
    { destruct (arm_fields _ _ _ Harm) as [sk ->]. done. }
    split; [done|]. intros _. split; [done|]. by exists att2.
Qed.

End setup_facts.

(** X5: what [prepare] returns and what it leaves alone.  The result is
    never positive.  Whatever it is, the patterns of the rules, the limit on
    the number of entries and the user's predicate are as before, and the
    entries held before are still there, in place: [prepare] only appends.  When
    it appends under a limit (a non-zero [max_func_cnt]), the number of entries
    ends at most at the limit.  On an error the template is untouched; on 0
    there is at least one entry and the capacity of the [ip_to_id] map is the
    number of entries. *)
Theorem prepare_outcome (fuel : nat) (hst : host) (h0 h : heap) (att0 att : mass_attacher)
    (err : Z) :
  mass_attacher__prepare fuel hst h0 att0 = Ret (err, att, h) →
  err ≤ 0 ∧
  glob <$> deny_globs att = glob <$> deny_globs att0 ∧
  glob <$> allow_globs att = glob <$> allow_globs att0 ∧
  max_func_cnt att = max_func_cnt att0 ∧ func_filter att = func_filter att0 ∧
  (∃ new, func_infos att = func_infos att0 ++ new ∧
          (new ≠ [] → max_func_cnt att0 = 0 ∨ func_cnt att ≤ max_func_cnt att0)) ∧
  (err ≠ 0 → skel att = skel att0) ∧
  (err = 0 → 0 < func_cnt att ∧ ip_to_id_max_entries (skel att) = func_cnt att).
Proof.
  intros H. apply prepare_view in H
    as [[Hlt Hsetup]|(att1 & h1 & fl & st & ks & b & sk & Hsetup & Hks & Hb & Hpass & -> & Herr & Hok)].
  - apply prepare_setup_any in Hsetup as (_ & -> & -> & -> & -> & -> & -> & _).
    split; [lia|]. do 4 (split; [done|]).
    split; [exists []; by rewrite app_nil_r|]. split; [done|]. lia.
  - apply prepare_setup_any in Hsetup as (_ & Hd & Ha & Hi & Hm & Hf & Hs & _).
    apply prepare_pass_steps in Hpass
      as ((Fd & Fa & _ & Fm & Ff & _ & _ & Fs) & _ & _ & _ & new & Hnew & _ & _ & _ & _ & Hcap).
    simpl in Fd, Fa, Fm, Ff, Fs, Hnew, Hcap. rewrite Hd in Fd. rewrite Ha in Fa.
    rewrite Hm in Fm, Hcap.
    rewrite Hf in Ff. rewrite Hi in Hnew. rewrite Hs in Fs.
    split.
    { destruct (Z.eq_dec err 0) as [->|Hne]; [done|]. destruct (Herr Hne). lia. }
    do 4 (split; [done|]). split; [by exists new|]. split.
    + intros Hne. destruct (Herr Hne) as [_ ->]. done.
    + intros ->. destruct (Hok eq_refl) as (Hcnt & att2 & Harm & ->).
      apply arm_fields in Harm as [sk2 ->]. simpl. unfold func_cnt in *. simpl. lia.
Qed.

(** The theorem on the three functions [foo], [bar] and [baz] under a limit
    of two entries. *)
Lemma prepare_outcome_witness :
  let att0 := (mass_attacher__new [] (Some Sample.template) (Some Sample.at_most_two)).1 in
  let att0 := default Sample.fresh att0 in
  let r := mass_attacher__prepare 5 Sample.three_funcs_host [] att0 in
  let att := match r with Ret (_, att, _) => att | _ => att0 end in
  r = Ret (0, att, []) ∧
  func_cnt att = 2 ∧ ip_to_id_max_entries (skel att) = 2 ∧ max_func_cnt att = 2.
Proof.
  intros att0' att0 r att.
  assert (r = Ret (0, att, [])) as H by (vm_compute; reflexivity).
  split; [exact H|].
  destruct (prepare_outcome 5 Sample.three_funcs_host [] [] att0 att 0 H)
    as (_ & _ & _ & Hmax & _ & (new & Hnew & Hcap) & _ & Hok).
  destruct (Hok eq_refl) as [_ Hentries].
  assert (func_cnt att = 2) as Hcnt by (vm_compute; reflexivity).
  split; [exact Hcnt|]. split; [by rewrite Hentries|].
  rewrite Hmax. vm_compute. reflexivity.
Defined.



(** ** Arming the template *)

Section arm_facts.

Lemma arm_arity_spec (att att' : mass_attacher) (i : nat) :
  slots_bound att → (i < 12)%nat →
  arm_arity att i = Ret att' →
  ∃ sk, att' = set_skel att sk ∧
    fentry_progs sk = alter (armed (arm_target att i)) i (fentry_progs (skel att)) ∧
    fexit_progs sk = alter (armed (arm_target att i)) i (fexit_progs (skel att)) ∧
    ready sk = ready (skel att) ∧ ip_to_id sk = ip_to_id (skel att) ∧
    ip_to_id_max_entries sk = ip_to_id_max_entries (skel att).
Proof.
  intros [Hfe Hfx] Hi H. unfold arm_arity in H. rewrite Hfe, Hfx in H.
  rewrite !list_lookup_fmap, !lookup_seq_lt in H by done. simpl in H.
  unfold arm_target.
  destruct (array_get (func_info_cnts att) i =? 0); simpl in H.
  - injection H as <-. eexists. split; [reflexivity|]. done.
  - destruct (func_infos att !! _) as [finfo|]; [|done].
    injection H as <-. eexists. split; [reflexivity|]. done.
Qed.

(** The arming loop over distinct arities: the programs of these arities
    are armed, each by what the buckets say of its arity, and nothing else of
    the attacher changes. *)
Lemma arm_spec (arities : list nat) (att att' : mass_attacher) :
  slots_bound att → NoDup arities → Forall (λ i, (i < 12)%nat) arities →
  arm att arities = Ret att' →
  ∃ sk, att' = set_skel att sk ∧
    ready sk = ready (skel att) ∧ ip_to_id sk = ip_to_id (skel att) ∧
    ip_to_id_max_entries sk = ip_to_id_max_entries (skel att) ∧
    ∀ k,
      fentry_progs sk !! k =
        (if decide (k ∈ arities) then armed (arm_target att k) <$> fentry_progs (skel att) !! k
         else fentry_progs (skel att) !! k) ∧
      fexit_progs sk !! k =
        (if decide (k ∈ arities) then armed (arm_target att k) <$> fexit_progs (skel att) !! k
         else fexit_progs (skel att) !! k).
Proof.
  intros Hb Hnd Hall. revert att Hb.
  induction Hnd as [|i arities Hni Hnd IH]; intros att Hb H; simpl in H.
  { injection H as <-. exists (skel att). rewrite set_skel_same. do 4 (split; [done|]).
    intros k. rewrite decide_False by apply not_elem_of_nil. done. }
  apply Forall_cons in Hall as [Hi Hall].
  destruct (arm_arity att i) as [att1| |] eqn:E; simpl in H; try done.
  apply arm_arity_spec in E as (sk1 & -> & F1 & F2 & F3 & F4 & F5); [|done|done].
  apply (IH Hall) in H as (sk & -> & G3 & G4 & G5 & G); [|done].
  simpl in G3, G4, G5, G. exists sk. split; [done|].
  split; [congruence|]. split; [congruence|]. split; [congruence|].
  intros k. destruct (G k) as [Ge Gx]. rewrite Ge, Gx.
  change (arm_target (set_skel att sk1) k) with (arm_target att k).
  rewrite F1, F2. destruct (decide (k = i)) as [->|Hne].
  - rewrite !(decide_False (P := i ∈ arities)) by done.
    rewrite !(decide_True (P := i ∈ i :: arities)) by (apply elem_of_cons; by left).
    by rewrite !list_lookup_alter_eq.
  - rewrite !list_lookup_alter_ne by done.
    destruct (decide (k ∈ arities)) as [Hin|Hnin].
    + rewrite !(decide_True (P := k ∈ i :: arities)) by (apply elem_of_cons; by right).
      done.
    + assert (k ∉ i :: arities) as Hnin'.
      { intros Hin. apply elem_of_cons in Hin as [?|?]; done. }
      by rewrite !(decide_False (P := k ∈ i :: arities)) by done.
Qed.

(** What the buckets say of an arity: no entry, or the name of one of its
    entries. *)
Lemma arm_target_spec (n : nat) (att : mass_attacher) (k : nat) :
  plan_inv n att → (k < 12)%nat →
  match arm_target att k with
  | None => arity_count k (func_infos att) = 0%nat
  | Some nm => ∃ e, e ∈ func_infos att ∧ arg_cnt e = k ∧ name e = nm
  end.
Proof.
  intros Hplan Hk. unfold arm_target. pose proof (inv_cnts _ _ Hplan k Hk) as Hc.
  destruct (Z.eqb_spec (array_get (func_info_cnts att) k) 0) as [E|E].
  - lia.
  - destruct (plan_inv_first_index n att k Hplan Hk) as (e & He & Hek); [lia|].
    rewrite He. simpl. exists e. split; [by eapply list_elem_of_lookup_2|done].
Qed.

Lemma setup_keeps_insns (hst : host) (h h1 : heap) (att att1 : mass_attacher) (err : Z) :
  prepare_setup hst h att = Ret (err, att1, h1) →
  fentries_insns att1 = fentries_insns att ∧ fexits_insns att1 = fexits_insns att.
Proof.
  unfold prepare_setup. intros H.
  destruct (kallsyms hst) as [ks|]; [|by injection H as <- <- <-].
  destruct (negb (bump_rlimit hst RLIMIT_MEMLOCK RLIM_INFINITY =? 0));
    [by injection H as <- <- <-|].
  match type of H with
  | (if negb (?e =? 0) then _ else _) = _ => destruct (negb (e =? 0))
  end; [by injection H as <- <- <-|].
  destruct (load_available_kprobes hst h (set_ksyms att (Some ks))) as [[[err2 att2] h2]| |]
    eqn:Hload; simpl in H; try done.
  apply load_available_kprobes_fields in Hload as [kp ->].
  destruct (negb (err2 =? 0)); [by injection H as <- <- <-|].
  destruct (kernel_btf hst) as [e|b]; by injection H as <- <- <-.
Qed.

(** The attacher after a successful [prepare] of an attacher with a
    consistent plan: the plan is consistent, the slots are bound, the bytecode
    slots are as before, and every template program of an arity up to 11 is the
    program held before, armed by what the buckets say of its arity. *)
Lemma prepare_template (fuel : nat) (hst : host) (h0 h : heap) (att0 att : mass_attacher) :
  plan_inv 0 att0 →
  mass_attacher__prepare fuel hst h0 att0 = Ret (0, att, h) →
  (∃ n, plan_inv n att) ∧ slots_bound att ∧
  fentries_insns att = fentries_insns att0 ∧ fexits_insns att = fexits_insns att0 ∧
  ready (skel att) = ready (skel att0) ∧ ip_to_id (skel att) = ip_to_id (skel att0) ∧
  ∀ p, prog_at (skel att) p =
       if decide (arity_of p < 12)%nat
       then armed (arm_target att (arity_of p)) <$> prog_at (skel att0) p
       else prog_at (skel att0) p.
Proof.
  intros Hinv H.
  destruct (prepare_plan _ _ _ _ _ _ Hinv H) as [[n Hplan] Hbound].
  split; [by exists n|]. split; [done|].
  apply prepare_view in H
    as [[Hlt _]|(att1 & h1 & fl & st & ks & b & sk & Hsetup & Hks & Hb & Hpass & -> & _ & Hok)];
    [lia|].
  destruct (Hok eq_refl) as (_ & att2 & Harm & ->).
  destruct (setup_keeps_insns _ _ _ _ _ _ Hsetup) as [Hi1 Hi2].
  pose proof Hsetup as Hsetup'.
  apply prepare_setup_any in Hsetup as (_ & _ & _ & _ & _ & _ & Hs & _).
  apply prepare_setup_ok in Hsetup' as (_ & _ & E1 & E2 & E3 & _).
  assert (plan_inv 1 att1) as Hinv1.
  { eapply plan_inv_weaken; [|eapply plan_inv_fields; [| | |exact Hinv]; done]. lia. }
  pose proof Hpass as Hpass'.
  apply prepare_pass_inv in Hpass' as [_ (_ & _ & Fs & Fi1 & Fi2)]; [|done].
  simpl in Fs, Fi1, Fi2. rewrite Hs in Fs. clear Hpass.
  apply arm_spec in Harm as (sk2 & -> & G3 & G4 & G5 & G); [|done| |].
  2:{ apply NoDup_seq. }
  2:{ apply Forall_forall. intros i Hin. apply elem_of_seq in Hin.
      unfold Btf.MAX_FUNC_ARG_CNT in Hin. lia. }
  simpl. rewrite G3, G4, Fs. split; [congruence|]. split; [congruence|].
  do 2 (split; [done|]).
  assert (∀ k, k ∈ seq 0 (S Btf.MAX_FUNC_ARG_CNT) ↔ (k < 12)%nat) as Hseq.
  { intros k. rewrite elem_of_seq. unfold Btf.MAX_FUNC_ARG_CNT. lia. }
  rewrite Fs in G.
  intros [k|k]; simpl; destruct (G k) as [Ge Gx].
  - rewrite Ge. destruct (decide (k < 12)%nat) as [Hk|Hk].
    + by rewrite decide_True by (by apply Hseq).
    + by rewrite decide_False by (by rewrite Hseq).
  - rewrite Gx. destruct (decide (k < 12)%nat) as [Hk|Hk].
    + by rewrite decide_True by (by apply Hseq).
    + by rewrite decide_False by (by rewrite Hseq).
Qed.

End arm_facts.

(** X7: the template after a successful [prepare] of an attacher with a
    consistent plan.  For every arity [k] up to 11 the entry and the exit
    program of the arity are the programs held before, changed in one of two
    ways: with no entry of arity [k], only autoload is switched off; otherwise
    the attach target is the name of an entry of arity [k] and the prep hook
    is set.  The readiness flag and the contents of the [ip_to_id] map are as
    before. *)
Theorem prepare_arms_template (fuel : nat) (hst : host) (h0 h : heap)
    (att0 att : mass_attacher) (k : nat) :
  plan_inv 0 att0 →
  mass_attacher__prepare fuel hst h0 att0 = Ret (0, att, h) →
  (k < 12)%nat →
  (∃ target,
     prog_at (skel att) (fentry k) = armed target <$> prog_at (skel att0) (fentry k) ∧
     prog_at (skel att) (fexit k) = armed target <$> prog_at (skel att0) (fexit k) ∧
     match target with
     | None => arity_count k (func_infos att) = 0%nat
     | Some nm => ∃ e, e ∈ func_infos att ∧ arg_cnt e = k ∧ name e = nm
     end) ∧
  ready (skel att) = ready (skel att0) ∧
  ip_to_id (skel att) = ip_to_id (skel att0).
Proof.
  intros Hinv H Hk.
  destruct (prepare_template _ _ _ _ _ _ Hinv H)
    as ([n Hplan] & _ & _ & _ & Hready & Hmap & Hprogs).
  split; [|done].
  exists (arm_target att k). split; [|split].
  - rewrite (Hprogs (fentry k)). simpl. by rewrite decide_True.
  - rewrite (Hprogs (fexit k)). simpl. by rewrite decide_True.
  - by apply (arm_target_spec n).
Qed.

(** The theorem on the three functions [foo], [bar] and [baz], at arity 2:
    [baz] is the attach target. *)
Lemma prepare_arms_template_witness :
  let att := Sample.three_prepared in
  plan_inv 0 Sample.fresh ∧
  mass_attacher__prepare 5 Sample.three_funcs_host [] Sample.fresh = Ret (0, att, []) ∧
  (2 < 12)%nat ∧
  ready (skel att) = ready (skel Sample.fresh) ∧
  attach_target <$> prog_at (skel att) (fentry 2) = Some (Some (lit "baz")).
Proof.
  intros att.
  assert (plan_inv 0 Sample.fresh) as H1.
  { apply (plan_inv_new [] [] (Some Sample.template) (Some Sample.default_opts)).
    vm_compute. reflexivity. }
  assert (mass_attacher__prepare 5 Sample.three_funcs_host [] Sample.fresh = Ret (0, att, []))
    as H2 by (vm_compute; reflexivity).
  assert (2 < 12)%nat as H3 by lia.
  split; [exact H1|]. split; [exact H2|]. split; [exact H3|].
  destruct (prepare_arms_template 5 Sample.three_funcs_host [] [] Sample.fresh att 2 H1 H2 H3)
    as (_ & Hready & _).
  split; [exact Hready|vm_compute; reflexivity].
Defined.

(** ** What [load] leaves in the entries and in the map *)

Section load_effects.

(** One iteration of the loop of [load] that runs to its end: the map has
    the entry's address and index, the two clone calls have been made, with
    results that are not negative, and these results are the entry's
    descriptors. *)
Lemma load_func_effect (k : kernel) (i : nat) (st st' : load_state) :
  load_func k i st = Ret (None, st') →
  ∃ e a1 a2,
    func_infos (load_att st) !! i = Some e ∧
    bpf_map_update_elem k (addr e) (Z.of_nat i) = None ∧
    load_calls st' = load_calls st ++ [a1; a2] ∧
    0 ≤ clone_result k (length (load_calls st)) a1 ∧
    0 ≤ clone_result k (S (length (load_calls st))) a2 ∧
    func_infos (load_att st') =
      <[i := set_fds e (clone_result k (length (load_calls st)) a1)
                       (clone_result k (S (length (load_calls st))) a2)]>
        (func_infos (load_att st)) ∧
    ip_to_id (skel (load_att st')) =
      ip_to_id (skel (load_att st)) ++ [(addr e, Z.of_nat i)] ∧
    ready (skel (load_att st')) = ready (skel (load_att st)).
Proof.
  unfold load_func. intros H.
  destruct (func_infos (load_att st) !! i) as [finfo|] eqn:Hi; [|done].
  destruct (bpf_map_update_elem k (addr finfo) (Z.of_nat i)) as [errno|] eqn:Hmap; [done|].
  cbv zeta in H.
  match type of H with
  | (?c ≫= _) = _ => destruct c as [[r1 calls1]| |] eqn:E1; simpl in H; try done
  end.
  apply clone_prog_ret in E1 as (pe & ie & bpe & _ & _ & _ & -> & ->).
  set (a1 := clone_attr bpe ie (btf_id finfo)) in *.
  destruct (Z.ltb_spec (clone_result k (length (load_calls st)) a1) 0) as [Hr1|Hr1]; [done|].
  match type of H with
  | (?c ≫= _) = _ => destruct c as [[r2 calls2]| |] eqn:E2; simpl in H; try done
  end.
  apply clone_prog_ret in E2 as (px & ix & bpx & _ & _ & _ & -> & ->).
  simpl btf_id in *.
  set (a2 := clone_attr bpx ix (btf_id finfo)) in *.
  assert (length (load_calls st ++ [a1]) = S (length (load_calls st))) as Hlen
    by (rewrite length_app; simpl; lia).
  rewrite Hlen in *.
  destruct (Z.ltb_spec (clone_result k (S (length (load_calls st))) a2) 0) as [Hr2|Hr2];
    [done|].
  injection H as <-. exists finfo, a1, a2. simpl.
  split; [done|]. split; [done|]. split; [by rewrite <- app_assoc|].
  split; [done|]. split; [done|]. split; [|done].
  by rewrite list_insert_insert_eq.
Qed.

(** The loop of [load] over the entries [s .. s + m - 1], when it returns
    0. *)
Lemma load_funcs_effect (k : kernel) (m s : nat) (st st' : load_state) :
  load_funcs k (seq s m) st = Ret (0, st') →
  length (func_infos (load_att st')) = length (func_infos (load_att st)) ∧
  ready (skel (load_att st')) = ready (skel (load_att st)) ∧
  (∀ i, ¬ (s ≤ i < s + m)%nat →
     func_infos (load_att st') !! i = func_infos (load_att st) !! i) ∧
  ∃ new newip,
    load_calls st' = load_calls st ++ new ∧ length new = (2 * m)%nat ∧
    ip_to_id (skel (load_att st')) = ip_to_id (skel (load_att st)) ++ newip ∧
    length newip = m ∧
    ∀ i e, (s ≤ i < s + m)%nat → func_infos (load_att st) !! i = Some e →
      ∃ a1 a2,
        new !! (2 * (i - s))%nat = Some a1 ∧ new !! (2 * (i - s) + 1)%nat = Some a2 ∧
        0 ≤ clone_result k (length (load_calls st) + 2 * (i - s)) a1 ∧
        0 ≤ clone_result k (length (load_calls st) + 2 * (i - s) + 1) a2 ∧
        func_infos (load_att st') !! i =
          Some (set_fds e (clone_result k (length (load_calls st) + 2 * (i - s)) a1)
                          (clone_result k (length (load_calls st) + 2 * (i - s) + 1) a2)) ∧
        newip !! (i - s)%nat = Some (addr e, Z.of_nat i) ∧
        bpf_map_update_elem k (addr e) (Z.of_nat i) = None ∧
        expected_clones (load_att st) (arg_cnt e) (btf_id e) = Some [a1; a2].
Proof.
  revert s st. induction m as [|m IH]; intros s st H; simpl in H.
  { injection H as <-. split; [done|]. split; [done|]. split; [done|].
    exists [], []. rewrite !app_nil_r. do 4 (split; [done|]). intros i e Hi. lia. }
  destruct (load_func k s st) as [[ret st1]| |] eqn:E; simpl in H; try done.
  destruct ret as [e1|].
  { apply load_func_spec in E as (_ & _ & _ & _ & _ & Hneg). injection H as -> _.
    specialize (Hneg 0 eq_refl). lia. }
  pose proof E as E'. apply load_func_spec in E' as (Hf1 & new1 & Hc1' & Hall1 & _).
  destruct (Hall1 eq_refl) as (e0 & He0 & Hexp).
  apply load_func_effect in E
    as (e & a1 & a2 & He & Hmap & Hc1 & Hr1 & Hr2 & Hi1 & Hip1 & Hrd1).
  assert (e0 = e) as -> by congruence.
  assert (new1 = [a1; a2]) as -> by (rewrite Hc1 in Hc1'; by apply app_inv_head in Hc1').
  apply IH in H as (Hlen & Hrd & Hout & new & newip & Hc & Hnl & Hip & Hipl & Hin).
  assert (s < length (func_infos (load_att st)))%nat as Hs by (by eapply lookup_lt_Some).
  rewrite Hi1, length_insert in Hlen. split; [done|]. split; [congruence|]. split.
  { intros i Hi. rewrite Hout by lia. rewrite Hi1. apply list_lookup_insert_ne. lia. }
  exists ([a1; a2] ++ new), ((addr e, Z.of_nat s) :: newip).
  split; [by rewrite Hc, Hc1, <- app_assoc|]. split; [simpl; lia|].
  split; [by rewrite Hip, Hip1, <- app_assoc|]. split; [simpl; lia|].
  intros i e' Hi He'. destruct (decide (i = s)) as [->|Hne].
  - assert (e' = e) as -> by congruence.
    exists a1, a2. replace (s - s)%nat with 0%nat by lia. rewrite !Nat.add_0_r. simpl.
    do 2 (split; [done|]). split; [done|]. split; [by rewrite Nat.add_1_r|].
    split; [|done]. rewrite Hout by lia. rewrite Hi1, Nat.add_1_r.
    by apply list_lookup_insert_eq.
  - assert (func_infos (load_att st1) !! i = Some e') as He1.
    { rewrite Hi1. rewrite list_lookup_insert_ne by lia. done. }
    destruct (Hin i e') as (b1 & b2 & Hb1 & Hb2 & Hq1 & Hq2 & Hfd & Hnew & Hm & Hexp');
      [lia|done|].
    rewrite (expected_clones_frame _ _ _ _ Hf1) in Hexp'.
    assert (length (load_calls st1) = length (load_calls st) + 2)%nat as Hl1
      by (rewrite Hc1, length_app; simpl; lia).
    exists b1, b2.
    replace (length (load_calls st) + 2 * (i - s))%nat
      with (length (load_calls st1) + 2 * (i - S s))%nat by lia.
    split.
    { rewrite lookup_app_r by (simpl; lia).
      replace (2 * (i - s) - length [a1; a2])%nat with (2 * (i - S s))%nat
        by (simpl; lia).
      done. }
    split.
    { rewrite lookup_app_r by (simpl; lia).
      replace (2 * (i - s) + 1 - length [a1; a2])%nat with (2 * (i - S s) + 1)%nat
        by (simpl; lia).
      done. }
    do 3 (split; [done|]). split; [|done].
    replace (i - s)%nat with (S (i - S s)) by lia. done.
Qed.

End load_effects.

(** X8: a [load] that returns 0.  Every entry has been handled, in order:
    the [ip_to_id] map has received the entry's address with its index, the
    calls number [2 i] and [2 i + 1] of [bpf_load_program_xattr] are the
    entry's, both have returned a descriptor that is not negative, and these
    two are the entry's [fentry_prog_fd] and [fexit_prog_fd]; the rest of the
    entry is as before.  There are no more entries, calls or map updates than
    that, and the readiness flag is as before. *)
Theorem load_fills_descriptors (k : kernel) (h h' : heap) (att att' : mass_attacher)
    (calls : list LoadAttr.t) :
  mass_attacher__load k h att = Ret (0, att', calls, h') →
  length calls = (2 * length (func_infos att))%nat ∧
  length (func_infos att') = length (func_infos att) ∧
  ready (skel att') = ready (skel att) ∧
  length (ip_to_id (skel att')) =
    (length (ip_to_id (skel att)) + length (func_infos att))%nat ∧
  ∀ i e, func_infos att !! i = Some e →
    ∃ a1 a2,
      calls !! (2 * i)%nat = Some a1 ∧ calls !! (2 * i + 1)%nat = Some a2 ∧
      0 ≤ clone_result k (2 * i) a1 ∧ 0 ≤ clone_result k (2 * i + 1) a2 ∧
      func_infos att' !! i =
        Some (set_fds e (clone_result k (2 * i) a1) (clone_result k (2 * i + 1) a2)) ∧
      ip_to_id (skel att') !! (length (ip_to_id (skel att)) + i)%nat
        = Some (addr e, Z.of_nat i).
Proof.
  unfold mass_attacher__load. intros H.
  destruct (SKEL_LOAD k att h) as [[[e1 att1] h1]| |] eqn:Hskel; simpl in H; try done.
  assert (func_infos att1 = func_infos att ∧ skel att1 = skel att) as [Hinfos Hsk].
  { unfold SKEL_LOAD in Hskel.
    destruct (run_prep_hooks k att h _) as [[att2 h2]| |] eqn:Hh; simpl in Hskel; try done.
    injection Hskel as _ <- _. apply run_prep_hooks_fields in Hh as (a & b & ->). done. }
  destruct (Z.eqb_spec e1 0) as [->|Hne]; simpl negb in H; cbv iota in H;
    [|injection H as ? _ _ _; done].
  destruct (load_funcs k _ _) as [[err2 st]| |] eqn:Hfuncs; simpl in H; try done.
  injection H as -> <- <- <-.
  apply load_funcs_effect in Hfuncs
    as (Hlen & Hrd & _ & new & newip & Hc & Hnl & Hip & Hipl & Hin).
  simpl in Hlen, Hrd, Hc, Hip, Hin. rewrite Hinfos in Hlen, Hnl, Hipl, Hin.
  rewrite Hsk in Hrd, Hip. subst new.
  split; [done|]. split; [done|]. split; [done|].
  split; [rewrite Hip, length_app; lia|].
  intros i e He.
  destruct (Hin i e) as (a1 & a2 & H1 & H2 & Hr1 & Hr2 & Hfd & Hnew & _ & _);
    [apply lookup_lt_Some in He; lia|done|].
  rewrite Nat.sub_0_r in *. exists a1, a2. do 5 (split; [done|]).
  rewrite Hip, lookup_app_r by lia.
  by replace (length (ip_to_id (skel att)) + i - length (ip_to_id (skel att)))%nat
    with i by lia.
Qed.

(** The theorem on the three functions [foo], [bar] and [baz] and a kernel
    that hands out the descriptors 3, 4, ... *)
Lemma load_fills_descriptors_witness :
  let att := Sample.three_prepared in
  let att' := (Sample.loaded Sample.willing_kernel att).1 in
  let calls := (Sample.loaded Sample.willing_kernel att).2 in
  mass_attacher__load Sample.willing_kernel [] att = Ret (0, att', calls, []) ∧
  length calls = (2 * length (func_infos att))%nat ∧
  (λ e, (fentry_prog_fd e, fexit_prog_fd e)) <$> func_infos att' = [(3, 4); (5, 6); (7, 8)] ∧
  ip_to_id (skel att') = [(4096, 0); (8192, 1); (12288, 2)].
Proof.
  intros att att' calls.
  assert (mass_attacher__load Sample.willing_kernel [] att = Ret (0, att', calls, []))
    as H by (vm_compute; reflexivity).
  split; [exact H|].
  destruct (load_fills_descriptors Sample.willing_kernel [] [] att att' calls H)
    as (Hlen & _).
  split; [exact Hlen|]. split; vm_compute; reflexivity.
Defined.

(** ** Attach and activate *)

Section attach_facts.

Lemma attach_prog_spec (raw_open : nat → Z → Z) (fd : Z) (tr : attach_trace) :
  opened (attach_prog raw_open fd tr) = opened tr ++ [fd] ∧
  ∀ x, x ∈ reported (attach_prog raw_open fd tr) ↔
       x ∈ reported tr ∨ (x = fd ∧ raw_open (length (opened tr)) fd < 0).
Proof.
  unfold attach_prog. simpl. split; [done|]. intros x.
  destruct (Z.ltb_spec (raw_open (length (opened tr)) fd) 0) as [Hlt|Hge].
  - rewrite elem_of_app, list_elem_of_singleton. split.
    + intros [?| ->]; [by left|by right].
    + intros [?|[-> _]]; [by left|by right].
  - split; [by left|]. intros [?|[_ ?]]; [done|lia].
Qed.

Lemma attach_funcs_spec (raw_open : nat → Z → Z) (infos : list mass_attacher_func_info)
    (tr : attach_trace) :
  let fds : list Z := infos ≫= (λ e, [fentry_prog_fd e; fexit_prog_fd e]) in
  opened (attach_funcs raw_open infos tr) = opened tr ++ fds ∧
  ∀ x, x ∈ reported (attach_funcs raw_open infos tr) ↔
       x ∈ reported tr ∨
       ∃ n, fds !! n = Some x ∧ raw_open (length (opened tr) + n)%nat x < 0.
Proof.
  revert tr. induction infos as [|e infos IH]; intros tr; cbv zeta.
  { simpl. rewrite app_nil_r. split; [done|]. intros x. split; [by left|].
    intros [?|(n & Hn & _)]; done. }
  change (attach_funcs raw_open (e :: infos) tr)
    with (attach_funcs raw_open infos
            (attach_prog raw_open (fexit_prog_fd e)
               (attach_prog raw_open (fentry_prog_fd e) tr))).
  rewrite bind_cons.
  destruct (attach_prog_spec raw_open (fentry_prog_fd e) tr) as [O1 R1].
  set (tr1 := attach_prog raw_open (fentry_prog_fd e) tr) in *. clearbody tr1.
  destruct (attach_prog_spec raw_open (fexit_prog_fd e) tr1) as [O2 R2].
  set (tr2 := attach_prog raw_open (fexit_prog_fd e) tr1) in *. clearbody tr2.
  destruct (IH tr2) as [O3 R3]. rewrite O3, O2, O1, <- !app_assoc.
  split; [done|]. intros x. rewrite R3, R2, R1.
  assert (length (opened tr2) = S (S (length (opened tr)))) as Hl2.
  { rewrite O2, O1, !length_app. simpl. lia. }
  assert (length (opened tr1) = S (length (opened tr))) as Hl1.
  { rewrite O1, length_app. simpl. lia. }
  rewrite Hl1. split.
  - intros [[[?|[-> Hlt]]|[-> Hlt]]|(n & Hn & Hlt)].
    + by left.
    + right. exists 0%nat. by rewrite Nat.add_0_r.
    + right. exists 1%nat. by rewrite Nat.add_1_r.
    + right. exists (S (S n)). split; [done|]. rewrite Hl2 in Hlt.
      by replace (length (opened tr) + S (S n))%nat
        with (S (S (length (opened tr))) + n)%nat by lia.
  - intros [?|(n & Hn & Hlt)]; [by left; left; left|].
    destruct n as [|[|n]]; simpl in Hn.
    + injection Hn as <-. rewrite Nat.add_0_r in Hlt. left. left. by right.
    + injection Hn as <-. rewrite Nat.add_1_r in Hlt. left. by right.
    + right. exists n. split; [done|]. rewrite Hl2.
      by replace (S (S (length (opened tr))) + n)%nat
        with (length (opened tr) + S (S n))%nat by lia.
Qed.

End attach_facts.

(** X9: [mass_attacher__attach] returns 0 whatever
    [bpf_raw_tracepoint_open] answers.  It passes to it, in the order of the
    entries, the entry descriptor and then the exit descriptor of each entry,
    two calls per entry; a call that fails does not stop the loop, and the
    descriptors reported as failures are exactly those whose call answered with
    a negative value. *)
Theorem attach_tries_every_descriptor (raw_open : nat → Z → Z) (att : mass_attacher) :
  let r := mass_attacher__attach raw_open att in
  let fds : list Z := func_infos att ≫= (λ e, [fentry_prog_fd e; fexit_prog_fd e]) in
  r.1 = 0 ∧
  opened r.2 = fds ∧
  length (opened r.2) = (2 * length (func_infos att))%nat ∧
  ∀ x, x ∈ reported r.2 ↔ ∃ n, fds !! n = Some x ∧ raw_open n x < 0.
Proof.
  intros r fds. unfold r, mass_attacher__attach. simpl.
  destruct (attach_funcs_spec raw_open (func_infos att) {| opened := []; reported := [] |})
    as [Ho Hr].
  simpl in Ho, Hr. split; [done|]. split; [done|]. split.
  - rewrite Ho. clear. induction (func_infos att) as [|e l IH]; [done|].
    rewrite bind_cons, length_app, IH. simpl. lia.
  - intros x. rewrite Hr. split.
    + intros [H|H]; [by apply elem_of_nil in H|done].
    + intros H. by right.
Qed.

Section flag_facts.

Lemma arm_keeps_flag (arities : list nat) (att att' : mass_attacher) :
  arm att arities = Ret att' → ready (skel att') = ready (skel att).
Proof.
  revert att. induction arities as [|i arities IH]; intros att H; simpl in H.
  { by injection H as <-. }
  destruct (arm_arity att i) as [att1| |] eqn:E; simpl in H; try done.
  rewrite (IH _ H). unfold arm_arity in E.
  destruct (fentries att !! i) as [[pe|]|]; try done.
  destruct (fexits att !! i) as [[px|]|]; try done.
  destruct (negb (array_get (func_info_cnts att) i =? 0)).
  - destruct (func_infos att !! _); [|done]. injection E as <-. by destruct pe, px.
  - injection E as <-. by destruct pe, px.
Qed.

Lemma prepare_keeps_flag (fuel : nat) (hst : host) (h0 h : heap) (att0 att : mass_attacher)
    (err : Z) :
  mass_attacher__prepare fuel hst h0 att0 = Ret (err, att, h) →
  ready (skel att) = ready (skel att0).
Proof.
  intros H. apply prepare_view in H
    as [[Hlt Hsetup]|(att1 & h1 & fl & st & ks & b & sk & Hsetup & Hks & Hb & Hpass & -> & Herr
                      & Hok)].
  - apply prepare_setup_any in Hsetup as (_ & _ & _ & _ & _ & _ & -> & _). done.
  - apply prepare_setup_any in Hsetup as (_ & _ & _ & _ & _ & _ & Hs & _).
    apply prepare_pass_steps in Hpass as ((_ & _ & _ & _ & _ & _ & _ & Fs) & _).
    simpl in Fs. rewrite Hs in Fs. simpl.
    destruct (Z.eq_dec err 0) as [->|Hne].
    + destruct (Hok eq_refl) as (_ & att2 & Harm & ->). simpl.
      apply arm_keeps_flag in Harm. congruence.
    + destruct (Herr Hne) as [_ ->]. congruence.
Qed.

Lemma load_func_keeps_flag (k : kernel) (i : nat) (st st' : load_state) (ret : option Z) :
  load_func k i st = Ret (ret, st') →
  ready (skel (load_att st')) = ready (skel (load_att st)).
Proof.
  unfold load_func. intros H.
  destruct (func_infos (load_att st) !! i) as [finfo|]; [|done].
  destruct (bpf_map_update_elem k (addr finfo) (Z.of_nat i)) as [errno|].
  { by injection H as <- <-. }
  cbv zeta in H.
  match type of H with
  | (?c ≫= _) = _ => destruct c as [[r1 calls1]| |]; simpl in H; try done
  end.
  destruct (r1 <? 0); [by injection H as <- <-|].
  match type of H with
  | (?c ≫= _) = _ => destruct c as [[r2 calls2]| |]; simpl in H; try done
  end.
  destruct (r2 <? 0); by injection H as <- <-.
Qed.

Lemma load_keeps_flag (k : kernel) (h h' : heap) (att att' : mass_attacher) (err : Z)
    (calls : list LoadAttr.t) :
  mass_attacher__load k h att = Ret (err, att', calls, h') →
  ready (skel att') = ready (skel att).
Proof.
  unfold mass_attacher__load. intros H.
  destruct (SKEL_LOAD k att h) as [[[e1 att1] h1]| |] eqn:Hskel; simpl in H; try done.
  assert (skel att1 = skel att) as Hsk.
  { unfold SKEL_LOAD in Hskel.
    destruct (run_prep_hooks k att h _) as [[att2 h2]| |] eqn:Hh; simpl in Hskel; try done.
    injection Hskel as _ <- _. apply run_prep_hooks_fields in Hh as (a & b & ->). done. }
  destruct (negb (e1 =? 0)); [injection H as _ <- _ _; by rewrite Hsk|].
  destruct (load_funcs k _ _) as [[err2 st]| |] eqn:Hfuncs; simpl in H; try done.
  injection H as _ <- _ _. rewrite <- Hsk.
  assert (∀ ids st0 st1 e, load_funcs k ids st0 = Ret (e, st1) →
            ready (skel (load_att st1)) = ready (skel (load_att st0))) as Hloop.
  { clear. intros ids. induction ids as [|i ids IH]; intros st0 st1 e H; simpl in H.
    - by injection H as _ <-.
    - destruct (load_func k i st0) as [[ret st2]| |] eqn:E; simpl in H; try done.
      apply load_func_keeps_flag in E. destruct ret as [e1|].
      + by injection H as _ <-.
      + rewrite (IH _ _ _ H). done. }
  by apply Hloop in Hfuncs.
Qed.

End flag_facts.

(** X10: the readiness flag of the template.  [prepare] and [load],
    whatever they return, leave the flag as it was; after
    [mass_attacher__activate] it is set, and the call changes nothing else: the
    programs, the map, the entries and the accessors' results are the same. *)
Theorem ready_only_by_activate (fuel : nat) (hst : host) (k : kernel) (h0 h1 h2 : heap)
    (att0 att1 att2 : mass_attacher) (e1 e2 : Z) (calls : list LoadAttr.t) :
  mass_attacher__prepare fuel hst h0 att0 = Ret (e1, att1, h1) →
  mass_attacher__load k h1 att1 = Ret (e2, att2, calls, h2) →
  ready (skel att1) = ready (skel att0) ∧
  ready (skel att2) = ready (skel att0) ∧
  ready (mass_attacher__skeleton (mass_attacher__activate att2)) = true ∧
  (∀ p, prog_at (skel (mass_attacher__activate att2)) p = prog_at (skel att2) p) ∧
  ip_to_id (skel (mass_attacher__activate att2)) = ip_to_id (skel att2) ∧
  mass_attacher__func_cnt (mass_attacher__activate att2) = mass_attacher__func_cnt att2 ∧
  mass_attacher__btf (mass_attacher__activate att2) = mass_attacher__btf att2 ∧
  (∀ id, mass_attacher__func (mass_attacher__activate att2) id = mass_attacher__func att2 id).
Proof.
  intros Hprep Hload.
  apply prepare_keeps_flag in Hprep. apply load_keeps_flag in Hload.
  split; [done|]. split; [congruence|]. split; [done|].
  split; [by intros [i|i]|]. done.
Qed.

(** The theorem on the three functions [foo], [bar] and [baz]: the flag
    is off until [activate]. *)
Lemma ready_only_by_activate_witness :
  let att1 := Sample.three_prepared in
  let att2 := (Sample.loaded Sample.willing_kernel att1).1 in
  let calls := (Sample.loaded Sample.willing_kernel att1).2 in
  mass_attacher__prepare 5 Sample.three_funcs_host [] Sample.fresh = Ret (0, att1, []) ∧
  mass_attacher__load Sample.willing_kernel [] att1 = Ret (0, att2, calls, []) ∧
  ready (skel att2) = false ∧
  ready (mass_attacher__skeleton (mass_attacher__activate att2)) = true.
Proof.
  intros att1 att2 calls.
  assert (mass_attacher__prepare 5 Sample.three_funcs_host [] Sample.fresh = Ret (0, att1, []))
    as H1 by (vm_compute; reflexivity).
  assert (mass_attacher__load Sample.willing_kernel [] att1 = Ret (0, att2, calls, []))
    as H2 by (vm_compute; reflexivity).
  split; [exact H1|]. split; [exact H2|].
  destruct (ready_only_by_activate 5 Sample.three_funcs_host Sample.willing_kernel
              [] [] [] Sample.fresh att1 att2 0 0 calls H1 H2) as (_ & Hr & Ha & _).
  split; [rewrite Hr; vm_compute; reflexivity|exact Ha].
Defined.



(** ** The two type checks *)

(** X12: a type [is_ret_type_ok] accepts as a return type is accepted by
    [is_arg_type_ok] as an argument type, within the same number of steps of
    the modifier loop: the return rule is the argument rule with a restriction
    on what a pointer may point to. *)
Theorem ret_type_ok_is_arg_type_ok (fuel : nat) (b : Btf.btf) (t : option Btf.btf_type) :
  Btf.is_ret_type_ok fuel b t = Ret true → Btf.is_arg_type_ok fuel b t = Ret true.
Proof.
  rewrite is_ret_type_ok_true, is_arg_type_ok_true.
  intros (t0 & d & u & Ht & Hd & Hs & Hu). exists t0, d, u. do 3 (split; [done|]).
  unfold Btf.code_ret_ok in Hu. unfold Btf.spec_arg_ok.
  destruct Hu as [?|[?|[? _]]]; auto.
Qed.

(** The theorem on [const int]. *)
Lemma ret_type_ok_is_arg_type_ok_witness :
  let t := Btf.btf__type_by_id Sample.const_int 2 in
  Btf.is_ret_type_ok 1 Sample.const_int t = Ret true ∧
  Btf.is_arg_type_ok 1 Sample.const_int t = Ret true.
Proof.
  intros t.
  assert (Btf.is_ret_type_ok 1 Sample.const_int t = Ret true) as H by reflexivity.
  split; [exact H|]. exact (ret_type_ok_is_arg_type_ok 1 Sample.const_int t H).
Defined.

(** ** The clone calls of [load] *)

Section id_facts.



End id_facts.

(** Why the condition on distinct ids: a second [prepare] of the same
    attacher appends the three functions again, and the load that follows
    supplies each of their type ids four times. *)
Example second_prepare_repeats_ids :
  let again :=
    match mass_attacher__prepare 5 Sample.three_funcs_host [] Sample.three_prepared with
    | Ret (0, att, _) => att
    | _ => Sample.fresh
    end in
  btf_id <$> func_infos again = [3; 4; 6; 3; 4; 6]%nat ∧
  LoadAttr.attach_btf_id <$> (Sample.loaded Sample.willing_kernel again).2
  = [3; 3; 4; 4; 6; 6; 3; 3; 4; 4; 6; 6]%nat.
Proof. split; vm_compute; reflexivity. Qed.



